(** * Chess Grand Master: the move engine of [src/utils/chessLogic.ts]
      and the commit step of [src/App.tsx], embedded and verified.

    JavaScript numbers that index the board are integers here ([Z]).
    An array is a [list]; reading past its ends gives [undefined], which
    the engine only ever tests for truthiness, so [null], [undefined] and
    a hole are all [None].  Reading a cell of a row that does not exist
    raises a [TypeError] in JavaScript: the engine's functions therefore
    live in an error monad. *)

From Stdlib Require Import ZArith String Ascii Lia Bool DecimalString.
From stdpp Require Import base option list numbers.

Local Open Scope Z_scope.

(** ** Outcomes of running engine code *)

Inductive Failure : Type :=
  | TypeError          (* property access on [undefined] *)
  | NonNullAssertion   (* a TypeScript [!] assertion met [null] *)
  | Diverges.          (* a [while] loop ran out of fuel *)

Inductive Outcome (A : Type) : Type :=
  | Ret (a : A)
  | Fail (e : Failure).
Arguments Ret {A} a.
Arguments Fail {A} e.

Definition bind {A B : Type} (m : Outcome A) (f : A -> Outcome B) : Outcome B :=
  match m with
  | Ret a => f a
  | Fail e => Fail e
  end.

Notation "'let*' x ':=' m 'in' k" := (bind m (fun x => k))
  (at level 10, x pattern, m at level 100, k at level 200,
   format "'[v' 'let*'  x  ':='  m  'in' '/' k ']'").

Definition omap {A B : Type} (f : A -> B) (m : Outcome A) : Outcome B :=
  let* a := m in Ret (f a).

(** [list.forEach] and counted [for] loops whose body may throw. *)
Fixpoint foldM {A B : Type} (f : B -> A -> Outcome B) (acc : B) (l : list A)
  : Outcome B :=
  match l with
  | [] => Ret acc
  | x :: l' => let* acc' := f acc x in foldM f acc' l'
  end.

(** [Array.prototype.filter] with a callback that may throw. *)
Fixpoint filterM {A : Type} (f : A -> Outcome bool) (l : list A)
  : Outcome (list A) :=
  match l with
  | [] => Ret []
  | x :: l' =>
      let* keep := f x in
      let* rest := filterM f l' in
      Ret (if keep then x :: rest else rest)
  end.

(** ** Data model ([types.ts]) *)

Inductive Color : Type := white | black.

Inductive PieceType : Type := PAWN | ROOK | KNIGHT | BISHOP | QUEEN | KING.

Record Position : Type := mkPos { row : Z; col : Z }.

Record Piece : Type := mkPiece {
  id : string;
  type : PieceType;
  color : Color;
  hasMoved : bool
}.

Abbreviation Row := (list (option Piece)).
Abbreviation Board := (list (list (option Piece))).

Record Move : Type := mkMove {
  from : Position;
  to : Position;
  piece : Piece;
  captured : option Piece;
  isCastling : option bool;
  isEnPassant : option bool;
  isPromotion : option bool;
  promotedTo : option PieceType;
  notation : string
}.

Inductive GameStatus : Type :=
  MENU | PLAYING | PAUSED | CHECKMATE | STALEMATE | DRAW.

Inductive Winner : Type := side (c : Color) | draw.

Record GameState : Type := mkGameState {
  board : Board;
  currentPlayer : Color;
  history : list Move;
  status : GameStatus;
  winner : option Winner;
  selectedSquare : option Position;
  lastMove : option Move;
  capturedWhite : list Piece;
  capturedBlack : list Piece;
  isFlipped : bool;
  timers : Z * Z
}.

(** [===] on the two enumerations. *)
Definition Color_eqb (a b : Color) : bool :=
  match a, b with
  | white, white | black, black => true
  | _, _ => false
  end.

Definition PieceType_eqb (a b : PieceType) : bool :=
  match a, b with
  | PAWN, PAWN | ROOK, ROOK | KNIGHT, KNIGHT
  | BISHOP, BISHOP | QUEEN, QUEEN | KING, KING => true
  | _, _ => false
  end.

Definition opponent (c : Color) : Color :=
  if Color_eqb c white then black else white.

(** ** Arrays *)

(** [arr[i]]: [None] is [undefined]. *)
Definition index {A : Type} (l : list A) (i : Z) : option A :=
  if 0 <=? i then l !! Z.to_nat i else None.

(** [board[r][c]]: throws when [board[r]] is [undefined]. *)
Definition cell (b : Board) (r c : Z) : Outcome (option Piece) :=
  match index b r with
  | None => Fail TypeError
  | Some rw => Ret (mjoin (index rw c))
  end.

(** [arr[i] = x] on a row.  Inside the array the slot is overwritten;
    past its end JavaScript extends the array, leaving holes.  A negative
    [i] names a property that is not an element: spreading ([...r]) drops
    it and no read of the engine, all of them at columns the engine has
    checked with [isWithinBoard] or fixed columns 0..7, can reach it, so
    the elements are left as they are. *)
Definition assign (rw : Row) (i : Z) (x : option Piece) : Row :=
  if i <? 0 then rw
  else if (Z.to_nat i <? length rw)%nat then <[Z.to_nat i := x]> rw
  else rw ++ replicate (Z.to_nat i - length rw) None ++ [x].

(** [board[r][c] = x]: throws when [board[r]] is [undefined]. *)
Definition setCell (b : Board) (r c : Z) (x : option Piece) : Outcome Board :=
  match index b r with
  | None => Fail TypeError
  | Some rw => Ret (<[Z.to_nat r := assign rw c x]> b)
  end.

(** [board.map(r => [...r])]: a fresh outer array of fresh rows.  Values
    are immutable here, so the copy is the same list; every later write
    goes to the copy and the argument is untouched. *)
Definition cloneBoard (b : Board) : Board := (fun r : Row => r) <$> b.

(** ** chessLogic.ts *)

Definition cols : list string :=
  ["a"; "b"; "c"; "d"; "e"; "f"; "g"; "h"]%string.
Definition rows : list string :=
  ["8"; "7"; "6"; "5"; "4"; "3"; "2"; "1"]%string.

Definition pieceLetter (t : PieceType) : string :=
  match t with
  | PAWN => ""
  | KNIGHT => "N"
  | BISHOP => "B"
  | ROOK => "R"
  | QUEEN => "Q"
  | KING => "K"
  end%string.

(** String conversion of an array element that may be [undefined]. *)
Definition toStr (o : option string) : string :=
  match o with Some s => s | None => "undefined"%string end.

(** [x + y] on two array elements: concatenation as soon as one of them
    is a string, [NaN] when both are [undefined]. *)
Definition jsPlus (x y : option string) : string :=
  match x, y with
  | None, None => "NaN"%string
  | _, _ => (toStr x ++ toStr y)%string
  end.

Definition getAlgebraicNotation (from to : Position) (piece : Piece)
    (captured check mate : bool) : string :=
  if PieceType_eqb (type piece) KING && (Z.abs (col from - col to) =? 2)
  then (if col to >? col from then "O-O" else "O-O-O")%string
  else
    let notation := ""%string in
    let notation := (notation ++ pieceLetter (type piece))%string in
    let notation :=
      if captured then
        let notation :=
          if PieceType_eqb (type piece) PAWN
          then (notation ++ toStr (index cols (col from)))%string
          else notation in
        (notation ++ "x")%string
      else notation in
    let notation :=
      (notation ++ jsPlus (index cols (col to)) (index rows (row to)))%string in
    if mate then (notation ++ "#")%string
    else if check then (notation ++ "+")%string
    else notation.

Definition isWithinBoard (r c : Z) : bool :=
  (0 <=? r) && (r <? 8) && (0 <=? c) && (c <? 8).

(** The counter of [for (let i = 0; i < 8; i++)]. *)
Definition upto8 : list Z := [0; 1; 2; 3; 4; 5; 6; 7].

(** The squares in the order of the nested loops over [r] and [c]. *)
Definition allSquares : list (Z * Z) :=
  r ← upto8; c ← upto8; [(r, c)].

Definition isKingOf (color0 : Color) (p : option Piece) : bool :=
  match p with
  | Some k => PieceType_eqb (type k) KING && Color_eqb (color k) color0
  | None => false
  end.

Fixpoint findKingFrom (b : Board) (color0 : Color) (sqs : list (Z * Z))
  : Outcome Position :=
  match sqs with
  | [] => Ret (mkPos (-1) (-1))
  | (r, c) :: rest =>
      let* p := cell b r c in
      if isKingOf color0 p then Ret (mkPos r c)
      else findKingFrom b color0 rest
  end.

Definition findKing (b : Board) (color0 : Color) : Outcome Position :=
  findKingFrom b color0 allSquares.

(** The closure [addIfEmpty] of [getPieceMoves]; [moves] is threaded. *)
Definition addIfEmpty (b : Board) (moves : list Position) (r c : Z)
  : Outcome (bool * list Position) :=
  if isWithinBoard r c then
    let* t := cell b r c in
    match t with
    | None => Ret (true, moves ++ [mkPos r c])
    | Some _ => Ret (false, moves)
    end
  else Ret (false, moves).

(** The closure [addIfEnemy] of [getPieceMoves]. *)
Definition addIfEnemy (b : Board) (piece : Piece) (moves : list Position)
    (r c : Z) : Outcome (bool * list Position) :=
  if isWithinBoard r c then
    let* target := cell b r c in
    match target with
    | Some t =>
        if negb (Color_eqb (color t) (color piece))
        then Ret (true, moves ++ [mkPos r c])
        else Ret (false, moves)
    | None => Ret (false, moves)
    end
  else Ret (false, moves).

(** The body shared by the knight's [forEach] and the king's loops:
    a square on the board that is empty or holds an enemy is pushed. *)
Definition addUnlessFriend (b : Board) (piece : Piece)
    (moves : list Position) (nr nc : Z) : Outcome (list Position) :=
  if isWithinBoard nr nc then
    let* target := cell b nr nc in
    match target with
    | None => Ret (moves ++ [mkPos nr nc])
    | Some t =>
        if negb (Color_eqb (color t) (color piece))
        then Ret (moves ++ [mkPos nr nc])
        else Ret moves
    end
  else Ret moves.

Definition kMoves : list (Z * Z) :=
  [(-2, -1); (-2, 1); (-1, -2); (-1, 2); (1, -2); (1, 2); (2, -1); (2, 1)].

Definition directions (t : PieceType) : list (Z * Z) :=
  if PieceType_eqb t BISHOP then [(-1, -1); (-1, 1); (1, -1); (1, 1)]
  else if PieceType_eqb t ROOK then [(-1, 0); (1, 0); (0, -1); (0, 1)]
  else [(-1, -1); (-1, 1); (1, -1); (1, 1); (-1, 0); (1, 0); (0, -1); (0, 1)].

(** The [while (isWithinBoard(nr, nc))] loop of a sliding piece. *)
Fixpoint slide (fuel : nat) (b : Board) (piece : Piece) (dr dc nr nc : Z)
    (moves : list Position) : Outcome (list Position) :=
  if isWithinBoard nr nc then
    match fuel with
    | O => Fail Diverges
    | S fuel' =>
        let* target := cell b nr nc in
        match target with
        | None =>
            slide fuel' b piece dr dc (nr + dr) (nc + dc)
                  (moves ++ [mkPos nr nc])
        | Some t =>
            Ret (if negb (Color_eqb (color t) (color piece))
                 then moves ++ [mkPos nr nc] else moves)
        end
    end
  else Ret moves.

(** A ray that starts on the board and moves by a non-zero step leaves
    the board within eight squares ([slide_fuel] below). *)
Definition slideFuel : nat := 8.

(** The king's loops over [dr] and [dc], with the [continue]. *)
Definition kingOffsets : list (Z * Z) :=
  dr ← [-1; 0; 1]; dc ← [-1; 0; 1]; [(dr, dc)].

Definition isEmptyAt (b : Board) (r c : Z) : Outcome bool :=
  let* t := cell b r c in Ret (negb (bool_decide (is_Some t))).

(** [a && b] where both sides may throw. *)
Definition andM (a b : Outcome bool) : Outcome bool :=
  let* x := a in if x then b else Ret false.

Definition isUnmovedRook (p : option Piece) : bool :=
  match p with
  | Some rk => PieceType_eqb (type rk) ROOK && negb (hasMoved rk)
  | None => false
  end.

(** The en passant test on [lastMove] for a pawn on [(r, c)]. *)
Definition enPassantNow (lm : option Move) (r c : Z) : option Move :=
  match lm with
  | Some l =>
      if PieceType_eqb (type (piece l)) PAWN
         && (Z.abs (row (from l) - row (to l)) =? 2)
         && (row (to l) =? r)
         && (Z.abs (col (to l) - c) =? 1)
      then Some l else None
  | None => None
  end.

Definition forward (c : Color) : Z := if Color_eqb c white then -1 else 1.

Definition pawnMoves (b : Board) (piece : Piece) (r c : Z)
    (lm : option Move) : Outcome (list Position) :=
  let dir := forward (color piece) in
  let* (stepped, moves) := addIfEmpty b [] (r + dir) c in
  let* moves :=
    (if stepped && negb (hasMoved piece)
     then omap snd (addIfEmpty b moves (r + 2 * dir) c)
     else Ret moves) in
  let* (_, moves) := addIfEnemy b piece moves (r + dir) (c - 1) in
  let* (_, moves) := addIfEnemy b piece moves (r + dir) (c + 1) in
  Ret (match enPassantNow lm r c with
       | Some l => moves ++ [mkPos (r + dir) (col (to l))]
       | None => moves
       end).

Definition knightMoves (b : Board) (piece : Piece) (r c : Z)
  : Outcome (list Position) :=
  foldM (fun moves '(dr, dc) => addUnlessFriend b piece moves (r + dr) (c + dc))
        [] kMoves.

Definition sliderMoves (b : Board) (piece : Piece) (r c : Z)
  : Outcome (list Position) :=
  foldM (fun moves '(dr, dc) =>
           slide slideFuel b piece dr dc (r + dr) (c + dc) moves)
        [] (directions (type piece)).

Definition kingSteps (b : Board) (piece : Piece) (r c : Z)
  : Outcome (list Position) :=
  foldM (fun moves '(dr, dc) =>
           if (dr =? 0) && (dc =? 0) then Ret moves
           else addUnlessFriend b piece moves (r + dr) (c + dc))
        [] kingOffsets.

Definition castleKingside (b : Board) (r : Z) : Outcome bool :=
  let* rookK := cell b r 7 in
  andM (Ret (isUnmovedRook rookK)) (andM (isEmptyAt b r 5) (isEmptyAt b r 6)).

Definition castleQueenside (b : Board) (r : Z) : Outcome bool :=
  let* rookQ := cell b r 0 in
  andM (Ret (isUnmovedRook rookQ))
       (andM (isEmptyAt b r 1) (andM (isEmptyAt b r 2) (isEmptyAt b r 3))).

Definition kingMoves (b : Board) (piece : Piece) (r c : Z)
    (ignoreCheck : bool) : Outcome (list Position) :=
  let* moves := kingSteps b piece r c in
  if negb (hasMoved piece) && negb ignoreCheck then
    let* k := castleKingside b r in
    let moves := if k then moves ++ [mkPos r 6] else moves in
    let* q := castleQueenside b r in
    Ret (if q then moves ++ [mkPos r 2] else moves)
  else Ret moves.

Definition getPieceMoves (b : Board) (pos : Position) (lm : option Move)
    (ignoreCheck : bool) : Outcome (list Position) :=
  let* p := cell b (row pos) (col pos) in
  match p with
  | None => Ret []
  | Some piece =>
      let r := row pos in
      let c := col pos in
      match type piece with
      | PAWN => pawnMoves b piece r c lm
      | KNIGHT => knightMoves b piece r c
      | BISHOP | ROOK | QUEEN => sliderMoves b piece r c
      | KING => kingMoves b piece r c ignoreCheck
      end
  end.

Definition samePos (pos : Position) (m : Position) : bool :=
  (row m =? row pos) && (col m =? col pos).

Fixpoint isSquareAttackedFrom (b : Board) (pos : Position)
    (attackerColor : Color) (sqs : list (Z * Z)) : Outcome bool :=
  match sqs with
  | [] => Ret false
  | (r, c) :: rest =>
      let* p := cell b r c in
      match p with
      | Some a =>
          if Color_eqb (color a) attackerColor then
            let* moves := getPieceMoves b (mkPos r c) None true in
            if existsb (samePos pos) moves then Ret true
            else isSquareAttackedFrom b pos attackerColor rest
          else isSquareAttackedFrom b pos attackerColor rest
      | None => isSquareAttackedFrom b pos attackerColor rest
      end
  end.

Definition isSquareAttacked (b : Board) (pos : Position)
    (attackerColor : Color) : Outcome bool :=
  isSquareAttackedFrom b pos attackerColor allSquares.

Definition isKingInCheck (b : Board) (color0 : Color) : Outcome bool :=
  let* kingPos := findKing b color0 in
  if row kingPos =? -1 then Ret false
  else isSquareAttacked b kingPos (opponent color0).

Definition setMoved (p : Piece) : Piece :=
  mkPiece (id p) (type p) (color p) true.

(** The board on which the filter of [getLegalMoves] tests a candidate. *)
Definition simulate (b : Board) (pos : Position) (piece : Piece)
    (m : Position) : Outcome Board :=
  let simulatedBoard := cloneBoard b in
  let* target := cell simulatedBoard (row m) (col m) in
  let* simulatedBoard := setCell simulatedBoard (row m) (col m) (Some (setMoved piece)) in
  let* simulatedBoard := setCell simulatedBoard (row pos) (col pos) None in
  if PieceType_eqb (type piece) PAWN
     && negb (col m =? col pos)
     && negb (bool_decide (is_Some target))
  then
    let dir := if Color_eqb (color piece) white then 1 else -1 in
    setCell simulatedBoard (row m + dir) (col m) None
  else Ret simulatedBoard.

(** The board with the king moved one column toward a castling target. *)
Definition stepBoard (b : Board) (pos : Position) (piece : Piece)
    (m : Position) : Outcome Board :=
  let stepCol := if col m >? col pos then col pos + 1 else col pos - 1 in
  let* sb := setCell (cloneBoard b) (row pos) stepCol (Some piece) in
  setCell sb (row pos) (col pos) None.

Definition isCastlingStep (pos : Position) (piece : Piece) (m : Position)
  : bool :=
  PieceType_eqb (type piece) KING && (Z.abs (col m - col pos) =? 2).

(** The callback of [rawMoves.filter]. *)
Definition keepMove (b : Board) (pos : Position) (piece : Piece)
    (m : Position) : Outcome bool :=
  let* simulatedBoard := simulate b pos piece m in
  let* inCheck := isKingInCheck simulatedBoard (color piece) in
  if inCheck then Ret false
  else if isCastlingStep pos piece m then
    let* nowInCheck := isKingInCheck b (color piece) in
    if nowInCheck then Ret false
    else
      let* sb := stepBoard b pos piece m in
      let* passesCheck := isKingInCheck sb (color piece) in
      if passesCheck then Ret false else Ret true
  else Ret true.

Definition getLegalMoves (b : Board) (pos : Position) (lm : option Move)
  : Outcome (list Position) :=
  let* p := cell b (row pos) (col pos) in
  match p with
  | None => Ret []
  | Some piece =>
      let* rawMoves := getPieceMoves b pos lm false in
      filterM (keepMove b pos piece) rawMoves
  end.

Definition candidate (r c : Z) (p : Piece) (dest : Position) : Move :=
  mkMove (mkPos r c) dest p None None None None None "".

Definition getAllLegalMoves (b : Board) (color0 : Color) (lm : option Move)
  : Outcome (list Move) :=
  foldM (fun allMoves '(r, c) =>
           let* p := cell b r c in
           match p with
           | Some pc =>
               if Color_eqb (color pc) color0 then
                 let* legalPos := getLegalMoves b (mkPos r c) lm in
                 Ret (allMoves ++ (candidate r c pc <$> legalPos))
               else Ret allMoves
           | None => Ret allMoves
           end)
        [] allSquares.

(** ** constants.tsx *)

Definition INITIAL_BOARD_LAYOUT : list (list (option PieceType)) :=
  let back := Some <$> [ROOK; KNIGHT; BISHOP; QUEEN; KING; BISHOP; KNIGHT; ROOK] in
  let pawns := replicate 8 (Some PAWN) in
  let none := replicate 8 None in
  [back; pawns; none; none; none; none; pawns; back].

Definition typeName (t : PieceType) : string :=
  match t with
  | PAWN => "pawn" | ROOK => "rook" | KNIGHT => "knight"
  | BISHOP => "bishop" | QUEEN => "queen" | KING => "king"
  end%string.

Definition colorName (c : Color) : string :=
  match c with white => "white" | black => "black" end%string.

Definition digit (n : nat) : string :=
  String (ascii_of_nat (48 + n)) EmptyString.

Definition createInitialBoard : Board :=
  imap (fun rIdx rw =>
          imap (fun cIdx ty =>
                  match ty with
                  | None => None
                  | Some t =>
                      let color0 := if (rIdx <? 2)%nat then black else white in
                      Some (mkPiece
                              (typeName t ++ "-" ++ colorName color0 ++ "-"
                                 ++ digit rIdx ++ "-" ++ digit cIdx)%string
                              t color0 false)
                  end) rw)
       INITIAL_BOARD_LAYOUT.

(** ** App.tsx: the state update of [executeMove] *)

(** [x!]: the source asserts that the value is not [null]; the model
    stops with [NonNullAssertion] where the assertion is violated. *)
Definition nonNull {A : Type} (x : option A) : Outcome A :=
  match x with
  | Some a => Ret a
  | None => Fail NonNullAssertion
  end.

Definition withType (p : Piece) (t : PieceType) : Piece :=
  mkPiece (id p) t (color p) (hasMoved p).

Definition executeMove (prev : GameState) (from to : Position)
    (promotedTo : option PieceType) : Outcome GameState :=
  let newBoard := cloneBoard (board prev) in
  let* src := cell newBoard (row from) (col from) in
  let* src := nonNull src in
  let piece := setMoved src in
  let* captured := cell newBoard (row to) (col to) in
  let finalCaptured := captured in
  (* Handle Promotion *)
  let piece :=
    match promotedTo with
    | Some t => withType piece t
    | None => piece
    end in
  (* Handle Castling visual move for rook *)
  let isCastling :=
    PieceType_eqb (type piece) KING && (Z.abs (col from - col to) =? 2) in
  let* newBoard :=
    (if isCastling then
       let rookCol := if col to >? col from then 7 else 0 in
       let rookNewCol := if col to >? col from then 5 else 3 in
       let* rk := cell newBoard (row from) rookCol in
       let* rk := nonNull rk in
       let rook := setMoved rk in
       let* newBoard := setCell newBoard (row from) rookCol None in
       setCell newBoard (row from) rookNewCol (Some rook)
     else Ret newBoard) in
  (* Handle En Passant *)
  let isEnPassant :=
    PieceType_eqb (type piece) PAWN
    && negb (col from =? col to)
    && negb (bool_decide (is_Some captured)) in
  let* (finalCaptured, newBoard) :=
    (if isEnPassant then
       let dir := if Color_eqb (color piece) white then 1 else -1 in
       let* taken := cell newBoard (row to + dir) (col to) in
       let* newBoard := setCell newBoard (row to + dir) (col to) None in
       Ret (taken, newBoard)
     else Ret (finalCaptured, newBoard)) in
  let* newBoard := setCell newBoard (row to) (col to) (Some piece) in
  let* newBoard := setCell newBoard (row from) (col from) None in
  let nextPlayer := if Color_eqb (currentPlayer prev) white then black else white in
  (* Meta checks *)
  let* check := isKingInCheck newBoard nextPlayer in
  let* allLegalMoves :=
    getAllLegalMoves newBoard nextPlayer
      (Some (mkMove from to piece finalCaptured None None None None "")) in
  let mate := check && (length allLegalMoves =? 0)%nat in
  let stalemate := negb check && (length allLegalMoves =? 0)%nat in
  let move :=
    mkMove from to piece finalCaptured
      (Some isCastling) (Some isEnPassant)
      (Some (bool_decide (is_Some promotedTo))) promotedTo
      (getAlgebraicNotation from to piece
         (bool_decide (is_Some finalCaptured)) check mate) in
  let status0 :=
    if mate then CHECKMATE else if stalemate then STALEMATE else PLAYING in
  let isColor (c : Color) :=
    match finalCaptured with
    | Some p => Color_eqb (color p) c
    | None => false
    end in
  Ret (mkGameState
         newBoard
         nextPlayer
         (history prev ++ [move])
         status0
         (if mate then Some (side (currentPlayer prev))
          else if stalemate then Some draw else None)
         None
         (Some move)
         (if isColor white
          then capturedWhite prev ++ option_list finalCaptured
          else capturedWhite prev)
         (if isColor black
          then capturedBlack prev ++ option_list finalCaptured
          else capturedBlack prev)
         (isFlipped prev)
         (timers prev)).

(** ** App.tsx: the component's state and its handlers *)

(** The state of the component: the game, the promotion that waits for
    its dialog, and the exit dialog. *)
Record App : Type := mkApp {
  gameState : GameState;
  promotionPending : option (Position * Position);
  showExitConfirm : bool
}.

(** [{ ...prev, selectedSquare: sq }]. *)
Definition withSelectedSquare (gs : GameState) (sq : option Position)
  : GameState :=
  mkGameState (board gs) (currentPlayer gs) (history gs) (status gs)
              (winner gs) sq (lastMove gs) (capturedWhite gs)
              (capturedBlack gs) (isFlipped gs) (timers gs).

(** [{ ...prev, status: st }]. *)
Definition withStatus (gs : GameState) (st : GameStatus) : GameState :=
  mkGameState (board gs) (currentPlayer gs) (history gs) st
              (winner gs) (selectedSquare gs) (lastMove gs) (capturedWhite gs)
              (capturedBlack gs) (isFlipped gs) (timers gs).

Definition GameStatus_eqb (a b : GameStatus) : bool :=
  match a, b with
  | MENU, MENU | PLAYING, PLAYING | PAUSED, PAUSED
  | CHECKMATE, CHECKMATE | STALEMATE, STALEMATE | DRAW, DRAW => true
  | _, _ => false
  end.

(** The memo [validMoves]: computed when the component renders. *)
Definition validMoves (gs : GameState) : Outcome (list Position) :=
  match selectedSquare gs with
  | None => Ret []
  | Some sq => getLegalMoves (board gs) sq (lastMove gs)
  end.

(** The memo [isInCheck]. *)
Definition isInCheck (gs : GameState) : Outcome bool :=
  isKingInCheck (board gs) (currentPlayer gs).

Definition startGame (prev : GameState) : GameState :=
  mkGameState createInitialBoard white [] PLAYING None
              (selectedSquare prev) None [] []
              (isFlipped prev) (timers prev).

Definition togglePause (prev : GameState) : GameState :=
  withStatus prev
    (if GameStatus_eqb (status prev) PLAYING then PAUSED else PLAYING).

(** [resetGame]; [confirmed] is the answer of [window.confirm]. *)
Definition resetGame (confirmed : bool) (prev : GameState) : GameState :=
  if confirmed then startGame prev else prev.

(** [goToMenu]; [confirmed] is the answer of [window.confirm], asked
    only while the game is being played. *)
Definition goToMenu (confirmed : bool) (prev : GameState) : GameState :=
  if GameStatus_eqb (status prev) PLAYING && negb confirmed then prev
  else withStatus prev MENU.

(** The handler of the "Flip" button. *)
Definition flipBoard (prev : GameState) : GameState :=
  mkGameState (board prev) (currentPlayer prev) (history prev) (status prev)
              (winner prev) (selectedSquare prev) (lastMove prev)
              (capturedWhite prev) (capturedBlack prev)
              (negb (isFlipped prev)) (timers prev).

(** [handleSquareClick].  The handler is the one of the render that
    computed [validMoves]: a render that throws shows no board to click
    on, so the memo comes first.  [movingPiece.type] on an empty square
    is a [TypeError]. *)
Definition handleSquareClick (app : App) (row0 col0 : Z) : Outcome App :=
  let gs := gameState app in
  let* valid := validMoves gs in
  if negb (GameStatus_eqb (status gs) PLAYING) then Ret app
  else
    let* piece := cell (board gs) row0 col0 in
    let ownPiece :=
      match piece with
      | Some pc => Color_eqb (color pc) (currentPlayer gs)
      | None => false
      end in
    (* Selection *)
    if ownPiece then
      Ret (mkApp (withSelectedSquare gs (Some (mkPos row0 col0)))
                 (promotionPending app) (showExitConfirm app))
    else
      (* Move *)
      match selectedSquare gs with
      | Some sel =>
          let isLegal := existsb (samePos (mkPos row0 col0)) valid in
          if isLegal then
            let* movingPiece := cell (board gs) (row sel) (col sel) in
            match movingPiece with
            | None => Fail TypeError
            | Some mp =>
                (* Check for promotion *)
                if PieceType_eqb (type mp) PAWN
                   && ((row0 =? 0) || (row0 =? 7))
                then Ret (mkApp gs (Some (sel, mkPos row0 col0))
                                (showExitConfirm app))
                else
                  let* gs' := executeMove gs sel (mkPos row0 col0) None in
                  Ret (mkApp gs' None (showExitConfirm app))
            end
          else
            Ret (mkApp (withSelectedSquare gs None)
                       (promotionPending app) (showExitConfirm app))
      | None => Ret app
      end.

(** [handlePromotion]. *)
Definition handlePromotion (app : App) (t : PieceType) : Outcome App :=
  match promotionPending app with
  | Some (src, dst) =>
      let* gs' := executeMove (gameState app) src dst (Some t) in
      Ret (mkApp gs' None (showExitConfirm app))
  | None => Ret app
  end.

(** The types the promotion dialog offers. *)
Definition promotionChoices : list PieceType := [QUEEN; ROOK; BISHOP; KNIGHT].

(** The state update of the one-second interval: the clock of the side
    to move loses a second and stops at zero.  [timers] is the pair of
    the white and the black clock. *)
Definition tick (prev : GameState) : GameState :=
  mkGameState (board prev) (currentPlayer prev) (history prev) (status prev)
              (winner prev) (selectedSquare prev) (lastMove prev)
              (capturedWhite prev) (capturedBlack prev) (isFlipped prev)
              (match currentPlayer prev with
               | white => (Z.max 0 (fst (timers prev) - 1), snd (timers prev))
               | black => (fst (timers prev), Z.max 0 (snd (timers prev) - 1))
               end).

(** The interval runs while the game is being played. *)
Definition clockRuns (gs : GameState) : bool :=
  GameStatus_eqb (status gs) PLAYING.

(** A decimal numeral, as template strings print an integer. *)
Definition numeral (n : Z) : string := NilZero.string_of_int (Z.to_int n).

(** [getSquareId] of chessLogic.ts. *)
Definition getSquareId (row0 col0 : Z) : string :=
  (numeral row0 ++ "-" ++ numeral col0)%string.

(** [formatTime]: [Math.floor(seconds / 60)] and [seconds % 60] on an
    integer. *)
Definition formatTime (seconds : Z) : string :=
  let m := seconds / 60 in
  let s := Z.rem seconds 60 in
  let pad := if s <? 10 then "0"%string else ""%string in
  (numeral m ++ ":" ++ pad ++ numeral s)%string.

(** A square of the board as it is drawn: its key, the coordinates its
    click handler passes on, and the piece shown. *)
Record Square : Type := mkSquare {
  key : string;
  actualRow : Z;
  actualCol : Z;
  shown : option Piece
}.

(** The squares of the board in the order they are drawn: the rows, and
    each row, reversed when the board is flipped. *)
Definition renderSquares (gs : GameState) : list Square :=
  let flipped := isFlipped gs in
  mjoin
    (imap (fun r rowArr =>
             let actualRow := if flipped then 7 - Z.of_nat r else Z.of_nat r in
             imap (fun c piece =>
                     let actualCol :=
                       if flipped then 7 - Z.of_nat c else Z.of_nat c in
                     mkSquare (getSquareId actualRow actualCol)
                              actualRow actualCol piece)
                  (if flipped then reverse rowArr else rowArr))
          (if flipped then reverse (board gs) else board gs)).

(** ** Vocabulary of the statements *)

(** A board of the engine has eight rows.  Rows may be shorter or longer
    than eight cells: the engine reads a missing cell as empty. *)
Definition EightRows (b : Board) : Prop := length b = 8%nat.

(** The 8 x 8 grid of the data model. *)
Definition WellFormed (b : Board) : Prop :=
  length b = 8%nat /\ Forall (fun rw : Row => length rw = 8%nat) b.

(** A destination that lies on the board. *)
Definition onBoard (m : Position) : Prop := isWithinBoard (row m) (col m) = true.

(** What a square holds, read as the engine's tests read it: nothing
    where there is no piece. *)
Definition look (b : Board) (r c : Z) : option Piece :=
  match cell b r c with
  | Ret p => p
  | Fail _ => None
  end.

(** The test of [addIfEmpty]. *)
Definition emptyOn (b : Board) (r c : Z) : bool :=
  isWithinBoard r c && negb (bool_decide (is_Some (look b r c))).

(** The test of [addIfEnemy]. *)
Definition enemyOn (b : Board) (pc : Piece) (r c : Z) : bool :=
  isWithinBoard r c
  && match look b r c with
     | Some t => negb (Color_eqb (color t) (color pc))
     | None => false
     end.

Definition pushIf (moves : list Position) (test : bool) (r c : Z)
  : list Position :=
  if test then moves ++ [mkPos r c] else moves.

(** The piece on [(r, c)] is a rook that has not moved. *)
Definition unmovedRookAt (b : Board) (r c : Z) : Prop :=
  exists rk, cell b r c = Ret (Some rk) /\ type rk = ROOK /\ hasMoved rk = false.

(** The square the en passant rule of [getPieceMoves] pushes for the
    piece on [pos], when it is a pawn and [lastMove] passes the test. *)
Definition enPassantSquare (b : Board) (pos : Position) (lm : option Move)
  : option Position :=
  match cell b (row pos) (col pos) with
  | Ret (Some pc) =>
      if PieceType_eqb (type pc) PAWN then
        match enPassantNow lm (row pos) (col pos) with
        | Some l => Some (mkPos (row pos + forward (color pc)) (col (to l)))
        | None => None
        end
      else None
  | _ => None
  end.

(** The en passant square, when the rule applies, is on the board: so it
    is for a pawn that is not on its last rank beside a last move that
    ended on the board. *)
Definition enPassantOnBoard (b : Board) (pos : Position) (lm : option Move)
  : Prop :=
  forall m, enPassantSquare b pos lm = Some m -> onBoard m.

(** The content of square [(r, c)] once the piece [pc] standing on [pos]
    has been moved to [m] the way the specification words it: the piece
    stands on the destination, the source square is cleared, and a pawn
    that moved diagonally onto an empty square has removed the pawn one
    rank behind the destination, against the mover's advance. *)
Definition movedCell (b : Board) (pos : Position) (pc : Piece) (m : Position)
    (r c : Z) : Outcome (option Piece) :=
  let* target := cell b (row m) (col m) in
  let diagonalOntoEmpty :=
    PieceType_eqb (type pc) PAWN && negb (col m =? col pos)
    && negb (bool_decide (is_Some target)) in
  if diagonalOntoEmpty && (r =? row m - forward (color pc)) && (c =? col m)
  then Ret None
  else if (r =? row pos) && (c =? col pos) then Ret None
  else if (r =? row m) && (c =? col m) then Ret (Some (setMoved pc))
  else cell b r c.

(** The content of square [(r, c)] once the king [pc] standing on [pos]
    has been put on the square one column toward [m]: source cleared,
    every other square, the rook's included, as it was. *)
Definition steppedCell (b : Board) (pos : Position) (pc : Piece) (m : Position)
    (r c : Z) : Outcome (option Piece) :=
  let stepCol := if col m >? col pos then col pos + 1 else col pos - 1 in
  if (r =? row pos) && (c =? col pos) then Ret None
  else if (r =? row pos) && (c =? stepCol) then Ret (Some pc)
  else cell b r c.

(** The move record [executeMove] hands to [getAllLegalMoves]. *)
Definition justPlayed (mv : Move) : Move :=
  mkMove (from mv) (to mv) (piece mv) (captured mv) None None None None "".

(** The piece [executeMove] puts on the destination. *)
Definition arriving (pc : Piece) (promo : option PieceType) : Piece :=
  match promo with
  | Some t => withType (setMoved pc) t
  | None => setMoved pc
  end.

(** How [handleSquareClick] and the promotion dialog call [executeMove]:
    a pawn that reaches row 0 or row 7 is promoted to a queen, rook,
    bishop or knight, and no other move carries a promotion. *)
Definition promotionRule (pc : Piece) (dst : Position)
    (promo : option PieceType) : Prop :=
  match promo with
  | None => type pc = PAWN -> 1 <= row dst <= 6
  | Some t => type pc = PAWN /\ t <> PAWN /\ t <> KING
  end.

(** The number of squares a ray standing on [(nr, nc)] can still visit
    before it leaves the board, when it moves by [(dr, dc)]. *)
Definition remaining (dr dc nr nc : Z) : Z :=
  if dr =? 1 then 8 - nr
  else if dr =? -1 then nr + 1
  else if dc =? 1 then 8 - nc
  else nc + 1.

(** A step of a sliding piece: one square along a rank, file or diagonal. *)
Definition unitStep (d : Z * Z) : Prop :=
  (fst d = -1 \/ fst d = 0 \/ fst d = 1)
  /\ (snd d = -1 \/ snd d = 0 \/ snd d = 1)
  /\ (fst d <> 0 \/ snd d <> 0).

(** ** The notation in the words of the specification *)

(** File letters map columns 0..7 to 'a'..'h', rank digits map rows 0..7
    to '8'..'1'. *)
Definition fileLetter (c : Z) : string :=
  String (ascii_of_nat (97 + Z.to_nat c)) EmptyString.

Definition rankDigit (r : Z) : string :=
  String (ascii_of_nat (48 + (8 - Z.to_nat r))) EmptyString.

Definition archetypeLetter (t : PieceType) : string :=
  match t with
  | PAWN => "" | KNIGHT => "N" | BISHOP => "B"
  | ROOK => "R" | QUEEN => "Q" | KING => "K"
  end%string.

Definition notate (from to : Position) (piece : Piece)
    (wasCapture isCheck isMate : bool) : string :=
  if PieceType_eqb (type piece) KING && (col to =? col from + 2) then "O-O"%string
  else if PieceType_eqb (type piece) KING && (col to =? col from - 2) then "O-O-O"%string
  else
    (archetypeLetter (type piece)
     ++ (if wasCapture
         then (if PieceType_eqb (type piece) PAWN
               then fileLetter (col from) else "") ++ "x"
         else "")
     ++ fileLetter (col to) ++ rankDigit (row to)
     ++ (if isMate then "#" else if isCheck then "+" else ""))%string.

(** ** Positions for the examples *)

(** A board given by its pieces. *)
Definition emptyBoard : Board := replicate 8 (replicate 8 None).

Fixpoint place (b : Board) (ps : list (Z * Z * Piece)) : Board :=
  match ps with
  | [] => b
  | (r, c, p) :: ps' =>
      place (<[Z.to_nat r := <[Z.to_nat c := Some p]> (b !!! Z.to_nat r)]> b) ps'
  end.

Definition man (t : PieceType) (c : Color) (moved : bool) : Piece :=
  mkPiece (typeName t ++ "-" ++ colorName c)%string t c moved.

(** A black pawn on (4, 3) beside a white pawn that has just arrived on
    (4, 4) from (6, 4), with a white knight on (5, 4). *)
Definition crowdedBoard : Board :=
  place emptyBoard
    [(0, 4, man KING black true); (7, 4, man KING white true);
     (4, 3, man PAWN black true); (4, 4, man PAWN white true);
     (5, 4, man KNIGHT white true)].

Definition crowdedLastMove : Move :=
  mkMove (mkPos 6 4) (mkPos 4 4) (man PAWN white true)
         None None None None None "e4".

(** A white pawn on its last rank, (0, 3), beside a pawn recorded as
    having just arrived on (0, 4) from (2, 4). *)
Definition lastRankBoard : Board :=
  place emptyBoard
    [(0, 0, man KING black true); (7, 4, man KING white true);
     (0, 3, man PAWN white true); (0, 4, man PAWN black true)].

Definition lastRankMove : Move :=
  mkMove (mkPos 2 4) (mkPos 0 4) (man PAWN black true)
         None None None None None "".

(** A white pawn on (3, 7) and a last move whose destination column is 8. *)
Definition edgeBoard : Board :=
  place emptyBoard
    [(0, 0, man KING black true); (7, 4, man KING white true);
     (3, 7, man PAWN white true)].

Definition edgeMove : Move :=
  mkMove (mkPos 1 8) (mkPos 3 8) (man PAWN black true)
         None None None None None "".

(** A white pawn that has not moved, away from its home rank. *)
Definition strayPawnBoard : Board :=
  place emptyBoard
    [(0, 4, man KING black true); (7, 4, man KING white true);
     (4, 2, man PAWN white false)].

(** A white king that has not moved on (7, 2), its own bishop on (7, 3)
    and an unmoved rook on (7, 7). *)
Definition offFileKingBoard : Board :=
  place emptyBoard
    [(0, 4, man KING black true); (7, 2, man KING white false);
     (7, 3, man BISHOP white false); (7, 7, man ROOK white false)].

(** White may castle on either side but for the black rook that attacks
    (7, 5), the square the king crosses on its way to (7, 6). *)
Definition castlingBoard : Board :=
  place emptyBoard
    [(0, 0, man KING black true); (0, 5, man ROOK black true);
     (7, 4, man KING white false); (7, 7, man ROOK white false);
     (7, 0, man ROOK white false)].

(** A board on which Black has no king. *)
Definition kinglessBoard : Board :=
  place emptyBoard
    [(7, 4, man KING white true); (0, 3, man QUEEN black true);
     (6, 4, man PAWN white false)].

(** White to move: the rook on (7, 0) mates on the back rank. *)
Definition backRankState : GameState :=
  mkGameState
    (place emptyBoard
       [(0, 7, man KING black true); (1, 6, man PAWN black false);
        (1, 7, man PAWN black false); (7, 4, man KING white true);
        (7, 0, man ROOK white true)])
    white [] PLAYING None None None [] [] false (600, 600).

(** The state after the rook's move. *)
Definition backRankNext : GameState :=
  Eval vm_compute in
    match executeMove backRankState (mkPos 7 0) (mkPos 0 0) None with
    | Ret next => next
    | Fail _ => backRankState
    end.

(** A game from the initial position, and a line of moves played on a
    state, each without promotion. *)
Definition newGame : GameState :=
  mkGameState createInitialBoard white [] PLAYING None None None [] []
              false (600, 600).

Definition playMoves (s : GameState) (ms : list (Position * Position))
  : Outcome GameState :=
  foldM (fun s '(a, b) => executeMove s a b None) s ms.

(** 1.e4 e5 2.Bc4 Nc6 3.Qh5 Nf6 4.Qxf7#. *)
Definition scholarsMate : list (Position * Position) :=
  [(mkPos 6 4, mkPos 4 4); (mkPos 1 4, mkPos 3 4);
   (mkPos 7 5, mkPos 4 2); (mkPos 0 1, mkPos 2 2);
   (mkPos 7 3, mkPos 3 7); (mkPos 0 6, mkPos 2 5);
   (mkPos 3 7, mkPos 1 5)].

(** White to move with a pawn on its home square beside a black pawn
    that stands on (4, 3). *)
Definition enPassantState : GameState :=
  mkGameState
    (place emptyBoard
       [(0, 4, man KING black true); (7, 4, man KING white true);
        (4, 3, man PAWN black true); (6, 4, man PAWN white false)])
    white [] PLAYING None None None [] [] false (600, 600).

(** White to move, free to castle kingside. *)
Definition castleState : GameState :=
  mkGameState
    (place emptyBoard
       [(0, 0, man KING black true); (7, 4, man KING white false);
        (7, 7, man ROOK white false)])
    white [] PLAYING None None None [] [] false (600, 600).

(** White to move: the queen's step to (1, 2) leaves the lone black king
    on (0, 0) without a move and not in check. *)
Definition stalemateState : GameState :=
  mkGameState
    (place emptyBoard
       [(0, 0, man KING black true); (7, 7, man KING white true);
        (2, 2, man QUEEN white true)])
    white [] PLAYING None None None [] [] false (600, 600).

(** The square [(r, c)] is empty, or holds a piece of the other colour
    than [pc]: the test that lets a knight, a king or a slider land. *)
Definition enemyAt (b : Board) (pc : Piece) (r c : Z) : Prop :=
  exists t, cell b r c = Ret (Some t) /\ color t <> color pc.

Definition vacantOrEnemy (b : Board) (pc : Piece) (r c : Z) : Prop :=
  cell b r c = Ret None \/ enemyAt b pc r c.

(** [m] is a knight's jump away from [p]. *)
Definition knightJump (p m : Position) : Prop :=
  (Z.abs (row m - row p) = 1 /\ Z.abs (col m - col p) = 2)
  \/ (Z.abs (row m - row p) = 2 /\ Z.abs (col m - col p) = 1).

(** [m] is one of the eight squares around [p]. *)
Definition adjacent (p m : Position) : Prop :=
  Z.abs (row m - row p) <= 1 /\ Z.abs (col m - col p) <= 1 /\ m <> p.

(** The square [k] steps from [p] in direction [d]. *)
Definition stepsFrom (p : Position) (d : Z * Z) (k : Z) : Position :=
  mkPos (row p + k * fst d) (col p + k * snd d).

(** [m] is reached from [p] along direction [d] over empty squares:
    it is [k >= 1] steps away and the squares before it are on the
    board and empty. *)
Definition clearRay (b : Board) (p : Position) (d : Z * Z) (m : Position)
  : Prop :=
  exists k, 1 <= k /\ m = stepsFrom p d k
    /\ forall j, 1 <= j < k ->
         onBoard (stepsFrom p d j)
         /\ cell b (row (stepsFrom p d j)) (col (stepsFrom p d j)) = Ret None.

(** A knight in the corner, a friend and an enemy on its two squares. *)
Definition knightBoard : Board :=
  place emptyBoard
    [(0, 4, man KING black true); (7, 4, man KING white true);
     (7, 0, man KNIGHT white true); (5, 1, man PAWN white true);
     (6, 2, man PAWN black true)].

(** A white queen on (4, 3) between friends and enemies. *)
Definition queenBoard : Board :=
  place emptyBoard
    [(0, 4, man KING black true); (7, 4, man KING white true);
     (4, 3, man QUEEN white true); (4, 5, man PAWN white true);
     (2, 3, man ROOK black true); (6, 1, man BISHOP black true)].

(** [pos] is a destination of the piece of colour [c0] on [(r, c)],
    castling and en passant left out. *)
Definition attacksFrom (b : Board) (pos : Position) (c0 : Color) (sq : Z * Z)
  : Prop :=
  exists att moves,
    cell b (fst sq) (snd sq) = Ret (Some att) /\ color att = c0
    /\ getPieceMoves b (mkPos (fst sq) (snd sq)) None true = Ret moves
    /\ pos ∈ moves.

(** A computation that can fail only the way JavaScript's property
    access on [undefined] fails. *)
Definition failsOnlyWithTypeError {A : Type} (m : Outcome A) : Prop :=
  forall e, m = Fail e -> e = TypeError.

(** The corner a castling king moves toward, and the square its rook
    is put on. *)
Definition rookCorner (src dst : Position) : Z :=
  if col dst >? col src then 7 else 0.

Definition rookArrival (src dst : Position) : Z :=
  if col dst >? col src then 5 else 3.

(** The tests [executeMove] makes on the arriving piece. *)
Definition commitsCastling (pc' : Piece) (src dst : Position) : bool :=
  PieceType_eqb (type pc') KING && (Z.abs (col src - col dst) =? 2).

Definition commitsEnPassant (pc' : Piece) (src dst : Position)
    (onDst : option Piece) : bool :=
  PieceType_eqb (type pc') PAWN && negb (col src =? col dst)
  && negb (bool_decide (is_Some onDst)).

(** The row behind the destination, seen from the mover. *)
Definition behind (pc' : Piece) (dst : Position) : Z :=
  row dst + (if Color_eqb (color pc') white then 1 else -1).

(** The pieces of colour [c] among what a move captured. *)
Definition capturedOf (c : Color) (taken : option Piece) : list Piece :=
  match taken with
  | Some t => if Color_eqb (color t) c then [t] else []
  | None => []
  end.

(** The squares [executeMove] writes to. *)
Definition touchedSquares (pc' : Piece) (src dst : Position)
    (onDst : option Piece) : list (Z * Z) :=
  [(row src, col src); (row dst, col dst)]
  ++ (if commitsCastling pc' src dst
      then [(row src, rookCorner src dst); (row src, rookArrival src dst)]
      else [])
  ++ (if commitsEnPassant pc' src dst onDst
      then [(behind pc' dst, col dst)]
      else []).

(** Two contents of a square that check detection for colour [c0]
    cannot tell apart: the same content, or two pieces of colour [c0]
    that are both kings or both not. *)
Definition sameFor (c0 : Color) (x y : Outcome (option Piece)) : Prop :=
  x = y
  \/ exists px py,
       x = Ret (Some px) /\ y = Ret (Some py)
       /\ color px = c0 /\ color py = c0
       /\ (type px = KING <-> type py = KING).

(** Two boards that agree, square by square of the 64, up to [sameFor]. *)
Definition alike (c0 : Color) (b b' : Board) : Prop :=
  forall r c, isWithinBoard r c = true -> sameFor c0 (cell b r c) (cell b' r c).

(** The selected square, when there is one, holds a piece of the side to
    move. *)
Definition selectionOwned (gs : GameState) : Prop :=
  forall sel, selectedSquare gs = Some sel ->
    exists pc, cell (board gs) (row sel) (col sel) = Ret (Some pc)
               /\ color pc = currentPlayer gs.

(** The promotion that waits for its dialog, when there is one, is a
    legal move of a pawn of the side to move to row 0 or row 7. *)
Definition pendingLegal (app : App) : Prop :=
  forall src dst, promotionPending app = Some (src, dst) ->
    exists pw legal,
      cell (board (gameState app)) (row src) (col src) = Ret (Some pw)
      /\ color pw = currentPlayer (gameState app)
      /\ type pw = PAWN
      /\ getLegalMoves (board (gameState app)) src
           (lastMove (gameState app)) = Ret legal
      /\ dst ∈ legal
      /\ (row dst = 0 \/ row dst = 7).

Definition appInvariant (app : App) : Prop :=
  selectionOwned (gameState app) /\ pendingLegal app.

(** The handler committed the move from [src] to [dst]: a legal move of
    a piece of the side to move. *)
Definition committedLegal (app app' : App) (src dst : Position)
    (promo : option PieceType) : Prop :=
  exists pc legal,
    cell (board (gameState app)) (row src) (col src) = Ret (Some pc)
    /\ getLegalMoves (board (gameState app)) src (lastMove (gameState app))
       = Ret legal
    /\ dst ∈ legal
    /\ executeMove (gameState app) src dst promo = Ret (gameState app')
    /\ promotionPending app' = None.

(** The initial state of the component. *)
Definition initialApp : App :=
  mkApp (mkGameState createInitialBoard white [] MENU None None None [] []
                     false (600, 600))
        None false.

(** No two strings of the list are equal. *)
Fixpoint distinct (l : list string) : bool :=
  match l with
  | [] => true
  | s :: rest => negb (existsb (String.eqb s) rest) && distinct rest
  end.

(** The square of the board a drawn square stands for. *)
Definition coordinates (sq : Square) : Z * Z := (actualRow sq, actualCol sq).

(** The clocks after [n] seconds of play. *)
Definition ticks (n : nat) (gs : GameState) : GameState := Nat.iter n tick gs.

(** [knightBoard] with a white rook for the white knight. *)
Definition rookForKnightBoard : Board :=
  place emptyBoard
    [(0, 4, man KING black true); (7, 4, man KING white true);
     (7, 0, man ROOK white true); (5, 1, man PAWN white true);
     (6, 2, man PAWN black true)].




(** A new game with the king's pawn selected, and the component after a
    click on (4, 4). *)
Definition openingApp : App :=
  mkApp (withSelectedSquare newGame (Some (mkPos 6 4))) None false.

Definition openingPlayed : App :=
  Eval vm_compute in
    match handleSquareClick openingApp 4 4 with
    | Ret app' => app'
    | Fail _ => openingApp
    end.

(** A game in which the square (1, 4) was selected. *)
Definition staleApp : App :=
  mkApp (withSelectedSquare enPassantState (Some (mkPos 1 4))) None false.

(** * Verification *)

(** ** The error monad *)

Lemma bind_Ret {A B : Type} (m : Outcome A) (f : A -> Outcome B) (y : B) :
  bind m f = Ret y <-> exists a, m = Ret a /\ f a = Ret y.
Proof.
  split.
  - destruct m as [a|e]; simpl; [eauto | discriminate].
  - intros (a & -> & Hf). exact Hf.
Qed.

Lemma bind_Ret_l {A B : Type} (a : A) (f : A -> Outcome B) :
  bind (Ret a) f = f a.
Proof. reflexivity. Qed.

Lemma omap_Ret {A B : Type} (f : A -> B) (m : Outcome A) (y : B) :
  omap f m = Ret y <-> exists a, m = Ret a /\ y = f a.
Proof.
  unfold omap. rewrite bind_Ret. split.
  - intros (a & Hm & [= <-]). eauto.
  - intros (a & Hm & ->). eauto.
Qed.

(** Split every monadic step of a hypothesis [H : ... = Ret _]. *)
Ltac ret_inv H :=
  repeat match type of H with
         | bind _ _ = Ret _ =>
             let a := fresh "a" in
             let Ha := fresh "Ha" in
             apply bind_Ret in H as (a & Ha & H)
         end.

Lemma filterM_Ret {A : Type} (f : A -> Outcome bool) (l l' : list A) :
  filterM f l = Ret l' ->
  Forall (fun x => exists k, f x = Ret k) l
  /\ l' `sublist_of` l
  /\ forall x, x ∈ l' <-> x ∈ l /\ f x = Ret true.
Proof.
  revert l'. induction l as [|x l IH]; simpl; intros l' H.
  - injection H as <-. split; [constructor|]. split; [constructor|].
    intros y. rewrite elem_of_nil. tauto.
  - ret_inv H. injection H as <-.
    destruct (IH _ Ha0) as (Hall & Hsub & Hin).
    split; [constructor; eauto|].
    destruct a.
    + split; [by constructor|]. intros y. rewrite !elem_of_cons, Hin.
      split; [intros [-> | []]; eauto | intros [[-> | ?] ?]; eauto].
    + split; [by constructor|]. intros y. rewrite elem_of_cons, Hin.
      split; [intros []; eauto | intros [[-> | ?] ?]; [congruence | eauto]].
Qed.

Lemma filterM_total {A : Type} (f : A -> Outcome bool) (l : list A) :
  Forall (fun x => exists k, f x = Ret k) l -> exists l', filterM f l = Ret l'.
Proof.
  induction 1 as [|x l (k & Hk) _ (l' & IH)]; simpl; [eauto|].
  rewrite Hk, IH. simpl. eauto.
Qed.

Lemma Forall_elem {A : Type} (P : A -> Prop) (l : list A) (x : A) :
  Forall P l -> x ∈ l -> P x.
Proof. intros H Hx. rewrite Forall_forall in H. apply H. by apply list_elem_of_In. Qed.

Lemma foldM_app {A B : Type} (f : B -> A -> Outcome B) (acc : B) (l1 l2 : list A) :
  foldM f acc (l1 ++ l2) = let* acc' := foldM f acc l1 in foldM f acc' l2.
Proof.
  revert acc. induction l1 as [|x l1 IH]; intros acc; simpl; [done|].
  destruct (f acc x); simpl; [apply IH | done].
Qed.

(** An invariant of the accumulator of a loop. *)
Lemma foldM_invariant {A B : Type} (I : B -> Prop) (f : B -> A -> Outcome B)
    (l : list A) (acc acc' : B) :
  (forall a x a', x ∈ l -> I a -> f a x = Ret a' -> I a') ->
  I acc -> foldM f acc l = Ret acc' -> I acc'.
Proof.
  revert acc. induction l as [|x l IH]; simpl; intros acc Hf Hacc H.
  - by injection H as <-.
  - ret_inv H. eapply IH; [| |exact H].
    + intros a1 y a2 Hy Ha1 Hfy. apply (Hf a1 y a2); [by right | done | done].
    + apply (Hf acc x a); [by left | done | done].
Qed.

Lemma foldM_total {A B : Type} (I : B -> Prop) (f : B -> A -> Outcome B)
    (l : list A) (acc : B) :
  (forall a x, x ∈ l -> I a -> exists a', f a x = Ret a' /\ I a') ->
  I acc -> exists acc', foldM f acc l = Ret acc' /\ I acc'.
Proof.
  revert acc. induction l as [|x l IH]; simpl; intros acc Hf Hacc; [eauto|].
  destruct (Hf acc x) as (a' & -> & Ha'); [by left | done |]. simpl.
  apply IH; [|done]. intros ? ? ?. apply Hf. by right.
Qed.

(** ** Comparisons *)

Lemma Color_eqb_eq (a b : Color) : Color_eqb a b = true <-> a = b.
Proof. destruct a, b; simpl; split; congruence. Qed.

Lemma Color_eqb_refl (a : Color) : Color_eqb a a = true.
Proof. by destruct a. Qed.

Lemma PieceType_eqb_eq (a b : PieceType) : PieceType_eqb a b = true <-> a = b.
Proof. destruct a, b; simpl; split; congruence. Qed.

Lemma isWithinBoard_spec (r c : Z) :
  isWithinBoard r c = true <-> 0 <= r < 8 /\ 0 <= c < 8.
Proof. unfold isWithinBoard. rewrite !andb_true_iff. lia. Qed.

Lemma isWithinBoard_false (r c : Z) :
  isWithinBoard r c = false <-> ~ (0 <= r < 8 /\ 0 <= c < 8).
Proof. rewrite <- isWithinBoard_spec. destruct (isWithinBoard r c); split; congruence. Qed.

(** ** The board as an array of arrays *)

Lemma WellFormed_EightRows (b : Board) : WellFormed b -> EightRows b.
Proof. by intros []. Qed.

Lemma index_Some {A : Type} (l : list A) (i : Z) (x : A) :
  index l i = Some x <-> 0 <= i /\ l !! Z.to_nat i = Some x.
Proof.
  unfold index. destruct (0 <=? i) eqn:E.
  - apply Z.leb_le in E. tauto.
  - apply Z.leb_gt in E. split; [discriminate | lia].
Qed.

Lemma index_is_Some {A : Type} (l : list A) (i : Z) :
  is_Some (index l i) <-> 0 <= i < Z.of_nat (length l).
Proof.
  unfold index. destruct (0 <=? i) eqn:E.
  - apply Z.leb_le in E. rewrite lookup_lt_is_Some. lia.
  - apply Z.leb_gt in E. split; [intros [? [=]] | lia].
Qed.

Lemma cell_Ret (b : Board) (r c : Z) :
  0 <= r < Z.of_nat (length b) -> exists p, cell b r c = Ret p.
Proof.
  intros Hr. apply index_is_Some in Hr as [rw Hrw].
  unfold cell. rewrite Hrw. eauto.
Qed.

Lemma cell_Ret_inv (b : Board) (r c : Z) (p : option Piece) :
  cell b r c = Ret p -> 0 <= r < Z.of_nat (length b).
Proof.
  unfold cell. destruct (index b r) eqn:E; [|discriminate].
  intros _. apply index_is_Some. eauto.
Qed.

Lemma cell_Some_inv (b : Board) (r c : Z) (p : Piece) :
  cell b r c = Ret (Some p) -> 0 <= r < Z.of_nat (length b) /\ 0 <= c.
Proof.
  intros H. split; [by eapply cell_Ret_inv|].
  unfold cell in H. destruct (index b r); [|discriminate].
  injection H as H. destruct (index l c) eqn:E; [|discriminate].
  by apply index_Some in E as [].
Qed.

Lemma cloneBoard_id (b : Board) : cloneBoard b = b.
Proof. unfold cloneBoard. apply list_fmap_id. Qed.

Lemma setCell_Ret (b : Board) (r c : Z) (x : option Piece) :
  0 <= r < Z.of_nat (length b) -> exists b', setCell b r c x = Ret b'.
Proof.
  intros Hr. apply index_is_Some in Hr as [rw Hrw].
  unfold setCell. rewrite Hrw. eauto.
Qed.

Lemma setCell_length (b b' : Board) (r c : Z) (x : option Piece) :
  setCell b r c x = Ret b' -> length b' = length b.
Proof.
  unfold setCell. destruct (index b r); [|discriminate].
  intros [= <-]. apply length_insert.
Qed.

Lemma setCell_Ret_inv (b b' : Board) (r c : Z) (x : option Piece) :
  setCell b r c x = Ret b' -> 0 <= r < Z.of_nat (length b).
Proof.
  unfold setCell. destruct (index b r) eqn:E; [|discriminate].
  intros _. apply index_is_Some. eauto.
Qed.

Lemma index_assign (rw : Row) (i j : Z) (x : option Piece) :
  0 <= i ->
  mjoin (index (assign rw i x) j) = if j =? i then x else mjoin (index rw j).
Proof.
  intros Hi. unfold assign.
  destruct (i <? 0) eqn:E; [apply Z.ltb_lt in E; lia|]. clear E.
  destruct (j =? i) eqn:Eji.
  - apply Z.eqb_eq in Eji as ->. unfold index.
    destruct (0 <=? i) eqn:E; [|apply Z.leb_gt in E; lia]. clear E.
    destruct (Z.to_nat i <? length rw)%nat eqn:E.
    + apply Nat.ltb_lt in E. by rewrite list_lookup_insert_eq.
    + apply Nat.ltb_ge in E. rewrite lookup_app_r by done.
      rewrite lookup_app_r by (rewrite length_replicate; lia).
      rewrite length_replicate.
      by replace (Z.to_nat i - length rw - (Z.to_nat i - length rw))%nat with 0%nat by lia.
  - apply Z.eqb_neq in Eji. unfold index. destruct (0 <=? j) eqn:E; [|done].
    apply Z.leb_le in E.
    assert (Z.to_nat i <> Z.to_nat j) by lia.
    destruct (Z.to_nat i <? length rw)%nat eqn:E'.
    + by rewrite list_lookup_insert_ne.
    + apply Nat.ltb_ge in E'.
      destruct (decide (Z.to_nat j < length rw)%nat).
      * by rewrite lookup_app_l.
      * rewrite lookup_app_r by lia. rewrite (lookup_ge_None_2 rw) by lia.
        destruct (decide (Z.to_nat j - length rw < Z.to_nat i - length rw)%nat).
        -- rewrite lookup_app_l by (rewrite length_replicate; lia).
           rewrite lookup_replicate_2; [done | lia].
        -- rewrite lookup_ge_None_2; [done|].
           rewrite length_app, length_replicate. simpl. lia.
Qed.

(** Reading a board after one write: the written cell holds the value,
    every other cell is as before. *)
Lemma cell_setCell (b b' : Board) (r c : Z) (x : option Piece) (r' c' : Z) :
  setCell b r c x = Ret b' -> 0 <= c ->
  cell b' r' c' = if (r' =? r) && (c' =? c) then Ret x else cell b r' c'.
Proof.
  unfold setCell. destruct (index b r) as [rw|] eqn:Hrw; [|discriminate].
  intros [= <-] Hc. apply index_Some in Hrw as [Hr Hrw].
  unfold cell. destruct (r' =? r) eqn:Er; simpl.
  - apply Z.eqb_eq in Er as ->.
    replace (index (<[Z.to_nat r:=assign rw c x]> b) r)
      with (Some (assign rw c x)).
    2: { symmetry. apply index_Some. split; [done|].
         apply list_lookup_insert_eq. by eapply lookup_lt_Some. }
    replace (index b r) with (Some rw) by (symmetry; by apply index_Some).
    rewrite index_assign by done. by destruct (c' =? c).
  - apply Z.eqb_neq in Er.
    replace (index (<[Z.to_nat r:=assign rw c x]> b) r') with (index b r');
      [done|].
    unfold index. destruct (0 <=? r') eqn:E; [|done].
    apply Z.leb_le in E. by rewrite list_lookup_insert_ne by lia.
Qed.

(** ** The boards the legality filter tests *)

Lemma forward_cases (c : Color) : forward c = -1 \/ forward c = 1.
Proof. destruct c; simpl; auto. Qed.

Lemma backward_forward (c : Color) :
  (if Color_eqb c white then 1 else -1) = - forward c.
Proof. by destruct c. Qed.

(** [simulate] builds the board the specification describes. *)
Lemma simulate_cells (b sim : Board) (pos : Position) (pc : Piece)
    (m : Position) (r c : Z) :
  simulate b pos pc m = Ret sim -> 0 <= col pos -> 0 <= col m ->
  cell sim r c = movedCell b pos pc m r c.
Proof.
  unfold simulate, movedCell. rewrite cloneBoard_id, backward_forward.
  intros H Hp Hm. ret_inv H. rewrite Ha. simpl.
  pose proof (setCell_Ret_inv _ _ _ _ _ Ha0) as Hrm.
  pose proof (setCell_Ret_inv _ _ _ _ _ Ha1) as Hrp.
  rewrite (setCell_length _ _ _ _ _ Ha0) in Hrp.
  destruct (PieceType_eqb (type pc) PAWN && negb (col m =? col pos)
            && negb (bool_decide (is_Some a))) eqn:Eep; simpl.
  - rewrite (cell_setCell _ _ _ _ _ r c H Hm).
    replace (row m + - forward (color pc)) with (row m - forward (color pc)) by lia.
    destruct ((r =? row m - forward (color pc)) && (c =? col m)); [done|].
    rewrite (cell_setCell _ _ _ _ _ r c Ha1 Hp).
    destruct ((r =? row pos) && (c =? col pos)); [done|].
    by rewrite (cell_setCell _ _ _ _ _ r c Ha0 Hm).
  - injection H as <-.
    rewrite (cell_setCell _ _ _ _ _ r c Ha1 Hp).
    destruct ((r =? row pos) && (c =? col pos)); [done|].
    by rewrite (cell_setCell _ _ _ _ _ r c Ha0 Hm).
Qed.

(** [stepBoard] puts the king on the intermediate square and leaves
    every other piece where it was. *)
Lemma stepBoard_cells (b sb : Board) (pos : Position) (pc : Piece)
    (m : Position) (r c : Z) :
  stepBoard b pos pc m = Ret sb -> 1 <= col pos ->
  cell sb r c = steppedCell b pos pc m r c.
Proof.
  unfold stepBoard, steppedCell. rewrite cloneBoard_id.
  intros H Hp. ret_inv H.
  rewrite (cell_setCell _ _ _ _ _ r c H) by lia.
  destruct ((r =? row pos) && (c =? col pos)); [done|].
  rewrite (cell_setCell _ _ _ _ _ r c Ha); [done|].
  destruct (col m >? col pos); lia.
Qed.

(** ** Legal moves *)

Lemma getLegalMoves_Ret (b : Board) (pos : Position) (lm : option Move)
    (pc : Piece) (l : list Position) :
  cell b (row pos) (col pos) = Ret (Some pc) ->
  getLegalMoves b pos lm = Ret l ->
  exists raw, getPieceMoves b pos lm false = Ret raw
              /\ filterM (keepMove b pos pc) raw = Ret l.
Proof.
  unfold getLegalMoves. intros ->. simpl. intros H. ret_inv H. eauto.
Qed.

(** C3.  Every position of [getLegalMoves b p lastMove] is a position of
    [getPieceMoves b p lastMove false], and the legal moves are a
    subsequence of the pseudo-legal ones: they appear in the generator's
    insertion order. *)
Theorem getLegalMoves_sublist_getPieceMoves (b : Board) (p : Position)
    (lm : option Move) (l : list Position) :
  getLegalMoves b p lm = Ret l ->
  exists raw,
    getPieceMoves b p lm false = Ret raw
    /\ l `sublist_of` raw
    /\ forall m, m ∈ l -> m ∈ raw.
Proof.
  intros H. unfold getLegalMoves in H.
  destruct (cell b (row p) (col p)) as [[pc|]|] eqn:Hc; simpl in H.
  - ret_inv H. exists a. split; [done|].
    apply filterM_Ret in H as (_ & Hsub & Hin).
    split; [done|]. intros m Hm. by apply Hin.
  - injection H as <-. exists []. unfold getPieceMoves. rewrite Hc. simpl.
    split; [done|]. split; [constructor | done].
  - discriminate.
Qed.

(** C1.  A destination returned by [getLegalMoves] for the piece of
    colour [color pc] on [p], applied to the board (piece moved to the
    destination, source cleared, the pawn behind the destination removed
    when a pawn moved diagonally onto an empty square), gives a board on
    which that colour's king is not in check. *)
Theorem getLegalMoves_king_not_in_check (b : Board) (p : Position)
    (lm : option Move) (pc : Piece) (l : list Position) (m : Position) :
  cell b (row p) (col p) = Ret (Some pc) ->
  getLegalMoves b p lm = Ret l ->
  m ∈ l ->
  exists sim,
    simulate b p pc m = Ret sim
    /\ isKingInCheck sim (color pc) = Ret false
    /\ (0 <= col m -> forall r c, cell sim r c = movedCell b p pc m r c).
Proof.
  intros Hc H Hm.
  destruct (getLegalMoves_Ret _ _ _ _ _ Hc H) as (raw & _ & Hf).
  apply filterM_Ret in Hf as (_ & _ & Hin).
  destruct (proj1 (Hin m) Hm) as [Hraw Hk]. unfold keepMove in Hk. ret_inv Hk.
  exists a. split; [done|].
  apply cell_Some_inv in Hc as [_ Hp].
  split; [|intros; by eapply simulate_cells].
  destruct a0; [discriminate | done].
Qed.

(** C4.  A castling candidate (a king destination two columns away) is
    not a legal move when the king is in check on the board as it stands
    or on the board with the king on the intermediate square; a
    candidate that is legal has passed the general test with the king on
    the destination. *)
Theorem getLegalMoves_castling_through_check (b : Board) (p : Position)
    (lm : option Move) (k : Piece) (l : list Position) (m : Position) :
  cell b (row p) (col p) = Ret (Some k) ->
  type k = KING ->
  Z.abs (col m - col p) = 2 ->
  getLegalMoves b p lm = Ret l ->
  (isKingInCheck b (color k) = Ret true -> m ∉ l)
  /\ (forall sb, stepBoard b p k m = Ret sb ->
                 isKingInCheck sb (color k) = Ret true -> m ∉ l)
  /\ (forall sb, stepBoard b p k m = Ret sb -> 1 <= col p ->
                 forall r c, cell sb r c = steppedCell b p k m r c)
  /\ (m ∈ l -> 0 <= col m ->
      exists sim, simulate b p k m = Ret sim
                  /\ cell sim (row m) (col m) = Ret (Some (setMoved k))
                  /\ isKingInCheck sim (color k) = Ret false).
Proof.
  intros Hc Hk Habs H.
  destruct (getLegalMoves_Ret _ _ _ _ _ Hc H) as (raw & _ & Hf).
  apply filterM_Ret in Hf as (_ & _ & Hin).
  assert (Hcast : isCastlingStep p k m = true).
  { unfold isCastlingStep. rewrite Hk, Habs. done. }
  assert (Hkeep : m ∈ l -> exists sim,
             simulate b p k m = Ret sim
             /\ isKingInCheck sim (color k) = Ret false
             /\ isKingInCheck b (color k) = Ret false
             /\ exists sb, stepBoard b p k m = Ret sb
                           /\ isKingInCheck sb (color k) = Ret false).
  { intros Hm. destruct (proj1 (Hin m) Hm) as [Hraw Hkm]. unfold keepMove in Hkm.
    rewrite Hcast in Hkm. ret_inv Hkm. exists a.
    destruct a0; [discriminate|]. ret_inv Hkm.
    destruct a0; [discriminate|]. ret_inv Hkm.
    destruct a1; [discriminate|]. eauto 10. }
  split; [|split; [|split]].
  - intros Hchk Hm. destruct (Hkeep Hm) as (s0 & H1 & H2 & H3 & H4). congruence.
  - intros sb Hsb Hchk Hm.
    destruct (Hkeep Hm) as (s0 & H1 & H2 & H3 & sb' & H4 & H5). congruence.
  - intros sb Hsb Hp r c. by eapply stepBoard_cells.
  - intros Hm Hcm. destruct (Hkeep Hm) as (sim & Hsim & Hchk & _).
    exists sim. split; [done|]. split; [|done].
    apply cell_Some_inv in Hc as [_ Hp].
    rewrite (simulate_cells _ _ _ _ _ (row m) (col m) Hsim) by done.
    unfold movedCell. rewrite Hk. simpl.
    unfold simulate in Hsim. ret_inv Hsim. rewrite cloneBoard_id in Ha.
    rewrite Ha. simpl. rewrite !Z.eqb_refl. simpl.
    destruct (col m =? col p) eqn:E; [apply Z.eqb_eq in E; lia|].
    by rewrite andb_false_r.
Qed.

(** ** Finding the king *)

Lemma allSquares_within :
  Forall (fun sq : Z * Z => isWithinBoard (fst sq) (snd sq) = true) allSquares.
Proof. apply Forall_forall. intros [r c] H. vm_compute in H. intuition (by simplify_eq). Qed.

Lemma isKingOf_true (c0 : Color) (p : option Piece) :
  isKingOf c0 p = true <-> exists k, p = Some k /\ type k = KING /\ color k = c0.
Proof.
  destruct p as [k|]; simpl.
  - rewrite andb_true_iff, PieceType_eqb_eq, Color_eqb_eq. split.
    + intros []. eauto.
    + intros (? & [= <-] & ? & ?). done.
  - split; [discriminate | intros (? & [=] & _)].
Qed.

(** C8.  On a board that holds no king of colour [c0], [findKing] gives
    the position (-1, -1) and [isKingInCheck] answers [false]; neither
    fails. *)
Theorem isKingInCheck_without_king (b : Board) (c0 : Color) :
  EightRows b ->
  (forall r c k, 0 <= r < 8 -> 0 <= c < 8 ->
                 cell b r c = Ret (Some k) -> ~ (type k = KING /\ color k = c0)) ->
  findKing b c0 = Ret (mkPos (-1) (-1)) /\ isKingInCheck b c0 = Ret false.
Proof.
  intros Hb Hno.
  assert (Hf : findKing b c0 = Ret (mkPos (-1) (-1))).
  { unfold findKing. generalize allSquares_within.
    induction allSquares as [|[r c] sqs IH]; [done|].
    intros Hall. inversion Hall as [|? ? Hrc Hall']; subst. simpl in *.
    apply isWithinBoard_spec in Hrc as [Hr Hc].
    destruct (cell_Ret b r c) as [p Hp]; [unfold EightRows in Hb; lia|].
    rewrite Hp. simpl.
    destruct (isKingOf c0 p) eqn:Ek; [|by apply IH].
    apply isKingOf_true in Ek as (k & -> & Hk).
    by destruct (Hno r c k Hr Hc Hp). }
  split; [done|]. unfold isKingInCheck. by rewrite Hf.
Qed.

(** ** Notation *)

Lemma index_cols (c : Z) : 0 <= c < 8 -> index cols c = Some (fileLetter c).
Proof.
  intros H.
  assert (c = 0 \/ c = 1 \/ c = 2 \/ c = 3 \/ c = 4 \/ c = 5 \/ c = 6 \/ c = 7)
    as Hc by lia.
  by repeat destruct Hc as [->|Hc]; try subst c.
Qed.

Lemma index_rows (r : Z) : 0 <= r < 8 -> index rows r = Some (rankDigit r).
Proof.
  intros H.
  assert (r = 0 \/ r = 1 \/ r = 2 \/ r = 3 \/ r = 4 \/ r = 5 \/ r = 6 \/ r = 7)
    as Hr by lia.
  by repeat destruct Hr as [->|Hr]; try subst r.
Qed.

Lemma castling_test (from to : Position) :
  (Z.abs (col from - col to) =? 2)
  = (col to =? col from + 2) || (col to =? col from - 2).
Proof.
  destruct (Z.abs (col from - col to) =? 2) eqn:E1,
           (col to =? col from + 2) eqn:E2,
           (col to =? col from - 2) eqn:E3; simpl; try done;
    rewrite ?Z.eqb_eq, ?Z.eqb_neq in *; lia.
Qed.

(** C9.  [getAlgebraicNotation] is the notation of the specification:
    "O-O" and "O-O-O" for a king that moves two columns, whatever the
    check and mate flags; otherwise letter, capture mark, destination
    square and suffix. *)
Theorem getAlgebraicNotation_notate (from to : Position) (pc : Piece)
    (wasCapture isCheck isMate : bool) :
  (isCastlingStep to pc from = false ->
   0 <= col from < 8 /\ 0 <= row to < 8 /\ 0 <= col to < 8) ->
  getAlgebraicNotation from to pc wasCapture isCheck isMate
  = notate from to pc wasCapture isCheck isMate
  /\ (type pc = KING -> col to = col from + 2 ->
      getAlgebraicNotation from to pc wasCapture isCheck isMate = "O-O"%string)
  /\ (type pc = KING -> col to = col from - 2 ->
      getAlgebraicNotation from to pc wasCapture isCheck isMate = "O-O-O"%string).
Proof.
  intros Hrange.
  assert (Hc : (col to = col from + 2 \/ col to = col from - 2) ->
            type pc = KING ->
            getAlgebraicNotation from to pc wasCapture isCheck isMate
            = if col to >? col from then "O-O"%string else "O-O-O"%string).
  { intros H Hk. unfold getAlgebraicNotation. rewrite Hk, castling_test. simpl.
    destruct (col to =? col from + 2) eqn:E2, (col to =? col from - 2) eqn:E3;
      simpl; try done.
    rewrite Z.eqb_neq in *. lia. }
  split; [|split].
  - unfold notate, isCastlingStep in *.
    destruct (PieceType_eqb (type pc) KING) eqn:Ek; simpl in *.
    + apply PieceType_eqb_eq in Ek.
      destruct (col to =? col from + 2) eqn:E2.
      { apply Z.eqb_eq in E2. rewrite Hc by auto.
        destruct (col to >? col from) eqn:E; [done|].
        pose proof (Zgt_cases (col to) (col from)) as G. rewrite E in G. lia. }
      destruct (col to =? col from - 2) eqn:E3.
      { apply Z.eqb_eq in E3. rewrite Hc by auto.
        destruct (col to >? col from) eqn:E; [|done].
        pose proof (Zgt_cases (col to) (col from)) as G. rewrite E in G. lia. }
      unfold getAlgebraicNotation. rewrite Ek, castling_test, E2, E3. simpl.
      destruct Hrange as (Hf & Hr & Ht).
      { apply Z.eqb_neq in E2, E3. apply Z.eqb_neq. lia. }
      rewrite (index_cols _ Ht), (index_rows _ Hr).
      destruct wasCapture, isMate, isCheck; simpl; done.
    + unfold getAlgebraicNotation. rewrite Ek. simpl.
      destruct Hrange as (Hf & Hr & Ht); [done|].
      rewrite (index_cols _ Ht), (index_rows _ Hr), (index_cols _ Hf).
      destruct (type pc), wasCapture, isMate, isCheck; simpl; done.
  - intros Hk E. rewrite Hc by auto.
    destruct (col to >? col from) eqn:G; [done|].
    pose proof (Zgt_cases (col to) (col from)) as G'. rewrite G in G'. lia.
  - intros Hk E. rewrite Hc by auto.
    destruct (col to >? col from) eqn:G; [|done].
    pose proof (Zgt_cases (col to) (col from)) as G'. rewrite G in G'. lia.
Qed.

(** ** En passant beside a capture *)

(** C10.  On [crowdedBoard] the last move is a white pawn's double step
    that landed beside the black pawn, and a white knight stands on the
    square diagonally behind it: [getPieceMoves] returns (5, 4) twice,
    first as a diagonal capture and then as the en passant square. *)
Theorem getPieceMoves_duplicate_destination :
  WellFormed crowdedBoard
  /\ cell crowdedBoard 4 3 = Ret (Some (man PAWN black true))
  /\ cell crowdedBoard 5 4 = Ret (Some (man KNIGHT white true))
  /\ enPassantNow (Some crowdedLastMove) 4 3 = Some crowdedLastMove
  /\ getPieceMoves crowdedBoard (mkPos 4 3) (Some crowdedLastMove) false
     = Ret [mkPos 5 3; mkPos 5 4; mkPos 5 4]
  /\ ~ NoDup [mkPos 5 3; mkPos 5 4; mkPos 5 4].
Proof.
  split; [split; [done | by repeat constructor]|].
  repeat split; try reflexivity.
  intros H. inversion H as [|? ? _ H1]; subst.
  inversion H1 as [|? ? H2 _]; subst. apply H2. by left.
Qed.

(** ** Destinations lie on the board *)

Lemma Forall_snoc_onBoard (moves : list Position) (r c : Z) :
  Forall onBoard moves -> isWithinBoard r c = true ->
  Forall onBoard (moves ++ [mkPos r c]).
Proof. intros H Hw. apply Forall_app. split; [done|]. by constructor. Qed.

Lemma addIfEmpty_onBoard (b : Board) (moves moves' : list Position)
    (r c : Z) (ok : bool) :
  Forall onBoard moves -> addIfEmpty b moves r c = Ret (ok, moves') ->
  Forall onBoard moves'.
Proof.
  unfold addIfEmpty. intros Hm H.
  destruct (isWithinBoard r c) eqn:Hw; [|by injection H as <- <-].
  ret_inv H. destruct a; injection H as <- <-; [done|].
  by apply Forall_snoc_onBoard.
Qed.

Lemma addIfEnemy_onBoard (b : Board) (pc : Piece) (moves moves' : list Position)
    (r c : Z) (ok : bool) :
  Forall onBoard moves -> addIfEnemy b pc moves r c = Ret (ok, moves') ->
  Forall onBoard moves'.
Proof.
  unfold addIfEnemy. intros Hm H.
  destruct (isWithinBoard r c) eqn:Hw; [|by injection H as <- <-].
  ret_inv H. destruct a as [t|]; [|by injection H as <- <-].
  destruct (negb (Color_eqb (color t) (color pc))); injection H as <- <-; [|done].
  by apply Forall_snoc_onBoard.
Qed.

Lemma addUnlessFriend_onBoard (b : Board) (pc : Piece)
    (moves moves' : list Position) (r c : Z) :
  Forall onBoard moves -> addUnlessFriend b pc moves r c = Ret moves' ->
  Forall onBoard moves'.
Proof.
  unfold addUnlessFriend. intros Hm H.
  destruct (isWithinBoard r c) eqn:Hw; [|by injection H as <-].
  ret_inv H. destruct a as [t|].
  - destruct (negb (Color_eqb (color t) (color pc))); injection H as <-; [|done].
    by apply Forall_snoc_onBoard.
  - injection H as <-. by apply Forall_snoc_onBoard.
Qed.

Lemma slide_onBoard (fuel : nat) (b : Board) (pc : Piece) (dr dc nr nc : Z)
    (moves moves' : list Position) :
  Forall onBoard moves -> slide fuel b pc dr dc nr nc moves = Ret moves' ->
  Forall onBoard moves'.
Proof.
  revert nr nc moves. induction fuel as [|fuel IH]; intros nr nc moves Hm H;
    simpl in H; destruct (isWithinBoard nr nc) eqn:Hw;
    try discriminate; try (by injection H as <-).
  ret_inv H. destruct a as [t|].
  - injection H as <-.
    destruct (negb (Color_eqb (color t) (color pc))); [|done].
    by apply Forall_snoc_onBoard.
  - eapply IH; [|exact H]. by apply Forall_snoc_onBoard.
Qed.

Lemma knightMoves_onBoard (b : Board) (pc : Piece) (r c : Z) (l : list Position) :
  knightMoves b pc r c = Ret l -> Forall onBoard l.
Proof.
  apply (foldM_invariant (Forall onBoard)); [|constructor].
  intros a [dr dc] a' _ Ha H. by eapply addUnlessFriend_onBoard.
Qed.

Lemma sliderMoves_onBoard (b : Board) (pc : Piece) (r c : Z) (l : list Position) :
  sliderMoves b pc r c = Ret l -> Forall onBoard l.
Proof.
  apply (foldM_invariant (Forall onBoard)); [|constructor].
  intros a [dr dc] a' _ Ha H. by eapply slide_onBoard.
Qed.

Lemma kingSteps_onBoard (b : Board) (pc : Piece) (r c : Z) (l : list Position) :
  kingSteps b pc r c = Ret l -> Forall onBoard l.
Proof.
  apply (foldM_invariant (Forall onBoard)); [|constructor].
  intros a [dr dc] a' _ Ha H.
  destruct ((dr =? 0) && (dc =? 0)); [by injection H as <-|].
  by eapply addUnlessFriend_onBoard.
Qed.

Lemma kingMoves_onBoard (b : Board) (pc : Piece) (r c : Z) (ic : bool)
    (l : list Position) :
  0 <= r < 8 -> kingMoves b pc r c ic = Ret l -> Forall onBoard l.
Proof.
  unfold kingMoves. intros Hr H. ret_inv H.
  apply kingSteps_onBoard in Ha.
  assert (forall cc, 0 <= cc < 8 -> isWithinBoard r cc = true) as Hw
    by (intros; apply isWithinBoard_spec; lia).
  destruct (negb (hasMoved pc) && negb ic); [|by injection H as <-].
  ret_inv H. injection H as <-.
  assert (Forall onBoard (if a0 then a ++ [mkPos r 6] else a)).
  { destruct a0; [|done]. apply Forall_snoc_onBoard; [done|]. apply Hw. lia. }
  destruct a1; [|done]. apply Forall_snoc_onBoard; [done|]. apply Hw. lia.
Qed.

(** The pawn's moves are on the board, the en passant push apart. *)
Lemma pawnMoves_onBoard (b : Board) (pc : Piece) (r c : Z) (lm : option Move)
    (l : list Position) :
  pawnMoves b pc r c lm = Ret l ->
  exists base,
    Forall onBoard base
    /\ l = base ++ match enPassantNow lm r c with
                   | Some lv => [mkPos (r + forward (color pc)) (col (to lv))]
                   | None => []
                   end.
Proof.
  unfold pawnMoves. intros H.
  apply bind_Ret in H as ([stepped m1] & H1 & H).
  apply bind_Ret in H as (m2 & H2 & H).
  apply bind_Ret in H as ([e1 m3] & H3 & H).
  apply bind_Ret in H as ([e2 m4] & H4 & H).
  injection H as <-. exists m4. split.
  - apply addIfEmpty_onBoard in H1; [|constructor].
    eapply addIfEnemy_onBoard; [|exact H4].
    eapply addIfEnemy_onBoard; [|exact H3].
    destruct (stepped && negb (hasMoved pc)); [|by injection H2 as <-].
    apply omap_Ret in H2 as ([ok m2'] & H2 & ->).
    by eapply addIfEmpty_onBoard.
  - destruct (enPassantNow lm r c); [done | by rewrite app_nil_r].
Qed.

Lemma getPieceMoves_onBoard (b : Board) (p : Position) (lm : option Move)
    (ic : bool) (l : list Position) (m : Position) :
  onBoard p -> getPieceMoves b p lm ic = Ret l -> m ∈ l ->
  onBoard m \/ enPassantSquare b p lm = Some m.
Proof.
  unfold getPieceMoves, enPassantSquare. intros Hp H Hm.
  apply isWithinBoard_spec in Hp as [Hr Hc].
  ret_inv H. rewrite Ha. destruct a as [pc|].
  2: { injection H as <-. by apply elem_of_nil in Hm. }
  destruct (type pc) eqn:Ht; simpl.
  - apply pawnMoves_onBoard in H as (base & Hbase & ->).
    apply elem_of_app in Hm as [Hm|Hm].
    + left. exact (Forall_elem _ _ _ Hbase Hm).
    + right. destruct (enPassantNow lm (row p) (col p)).
      * by apply list_elem_of_singleton in Hm as ->.
      * by apply elem_of_nil in Hm.
  - left. apply sliderMoves_onBoard in H. exact (Forall_elem _ _ _ H Hm).
  - left. apply knightMoves_onBoard in H. exact (Forall_elem _ _ _ H Hm).
  - left. apply sliderMoves_onBoard in H. exact (Forall_elem _ _ _ H Hm).
  - left. apply sliderMoves_onBoard in H. exact (Forall_elem _ _ _ H Hm).
  - left. apply kingMoves_onBoard in H; [|done]. exact (Forall_elem _ _ _ H Hm).
Qed.

(** C7, as the code has it.  For a position on the board, every
    destination of [getPieceMoves], and so of [getLegalMoves], is on the
    board or is the en passant square, which is pushed without an
    [isWithinBoard] test; with no last move every destination is on the
    board. *)
Theorem destinations_within_board_or_en_passant (b : Board) (p : Position)
    (lm : option Move) :
  onBoard p ->
  (forall ic l, getPieceMoves b p lm ic = Ret l ->
     forall m, m ∈ l -> onBoard m \/ enPassantSquare b p lm = Some m)
  /\ (forall l, getLegalMoves b p lm = Ret l ->
     forall m, m ∈ l -> onBoard m \/ enPassantSquare b p lm = Some m)
  /\ (lm = None -> forall ic l, getPieceMoves b p lm ic = Ret l -> Forall onBoard l).
Proof.
  intros Hp. split; [|split].
  - intros ic l H m Hm. by eapply getPieceMoves_onBoard.
  - intros l H m Hm. unfold getLegalMoves in H. ret_inv H.
    destruct a as [pc|]; [|injection H as <-; by apply elem_of_nil in Hm].
    ret_inv H. apply filterM_Ret in H as (_ & _ & Hin).
    apply Hin in Hm as [Hm _]. by eapply getPieceMoves_onBoard.
  - intros -> ic l H. apply Forall_forall. intros m Hm.
    apply list_elem_of_In in Hm.
    destruct (getPieceMoves_onBoard _ _ _ _ _ _ Hp H Hm) as [|E]; [done|].
    unfold enPassantSquare in E. simpl in E.
    destruct (cell b (row p) (col p)) as [[pc|]|]; try discriminate.
    by destruct (PieceType_eqb (type pc) PAWN).
Qed.

(** C7 as stated fails: the pawn of [lastRankBoard], with every
    coordinate of the board, the position and the last move in range, is
    given the destination (-1, 4); the pawn of [edgeBoard] is given
    (2, 8), which [getLegalMoves] returns as well. *)
Lemma destinations_not_always_within_board :
  WellFormed lastRankBoard
  /\ onBoard (mkPos 0 3)
  /\ onBoard (from lastRankMove) /\ onBoard (to lastRankMove)
  /\ getPieceMoves lastRankBoard (mkPos 0 3) (Some lastRankMove) false
     = Ret [mkPos (-1) 4]
  /\ isWithinBoard (-1) 4 = false
  /\ WellFormed edgeBoard
  /\ getPieceMoves edgeBoard (mkPos 3 7) (Some edgeMove) false
     = Ret [mkPos 2 7; mkPos 2 8]
  /\ getLegalMoves edgeBoard (mkPos 3 7) (Some edgeMove)
     = Ret [mkPos 2 7; mkPos 2 8]
  /\ isWithinBoard 2 8 = false.
Proof.
  split; [split; [done | by repeat constructor]|].
  do 5 (split; [reflexivity|]).
  split; [split; [done | by repeat constructor]|].
  repeat split; reflexivity.
Qed.

(** ** Reading a board of eight rows *)

Lemma cell_look (b : Board) (r c : Z) :
  EightRows b -> 0 <= r < 8 -> cell b r c = Ret (look b r c).
Proof.
  intros Hb Hr. destruct (cell_Ret b r c) as [p Hp].
  - unfold EightRows in Hb. lia.
  - unfold look. by rewrite Hp.
Qed.

Lemma cell_within (b : Board) (r c : Z) :
  EightRows b -> isWithinBoard r c = true -> cell b r c = Ret (look b r c).
Proof. intros Hb Hw. apply isWithinBoard_spec in Hw as []. by apply cell_look. Qed.

Lemma cell_row_inv (b : Board) (r c : Z) (p : option Piece) :
  EightRows b -> cell b r c = Ret p -> 0 <= r < 8.
Proof. intros Hb H. apply cell_Ret_inv in H. unfold EightRows in Hb. lia. Qed.

Lemma emptyOn_true (b : Board) (r c : Z) :
  EightRows b ->
  emptyOn b r c = true <-> isWithinBoard r c = true /\ cell b r c = Ret None.
Proof.
  intros Hb. unfold emptyOn. rewrite andb_true_iff. split.
  - intros [Hw He]. split; [done|]. rewrite (cell_within _ _ _ Hb Hw).
    destruct (look b r c); [done | done].
  - intros [Hw He]. split; [done|]. unfold look. by rewrite He.
Qed.

Lemma addIfEmpty_eight (b : Board) (moves : list Position) (r c : Z) :
  EightRows b ->
  addIfEmpty b moves r c = Ret (emptyOn b r c, pushIf moves (emptyOn b r c) r c).
Proof.
  intros Hb. unfold addIfEmpty, emptyOn.
  destruct (isWithinBoard r c) eqn:Hw; [|done].
  rewrite (cell_within _ _ _ Hb Hw). simpl. by destruct (look b r c).
Qed.

Lemma addIfEnemy_eight (b : Board) (pc : Piece) (moves : list Position) (r c : Z) :
  EightRows b ->
  addIfEnemy b pc moves r c
  = Ret (enemyOn b pc r c, pushIf moves (enemyOn b pc r c) r c).
Proof.
  intros Hb. unfold addIfEnemy, enemyOn.
  destruct (isWithinBoard r c) eqn:Hw; [|done].
  rewrite (cell_within _ _ _ Hb Hw). simpl.
  destruct (look b r c) as [t|]; [|done].
  by destruct (negb (Color_eqb (color t) (color pc))).
Qed.

Lemma elem_of_pushIf (moves : list Position) (test : bool) (r c : Z) (m : Position) :
  m ∈ pushIf moves test r c <-> m ∈ moves \/ (test = true /\ m = mkPos r c).
Proof.
  unfold pushIf. destruct test.
  - rewrite elem_of_app, list_elem_of_singleton. intuition.
  - intuition congruence.
Qed.

(** ** The pawn *)

(** The moves of a pawn, push by push. *)
Lemma pawnMoves_eight (b : Board) (pc : Piece) (r c : Z) (lm : option Move) :
  EightRows b ->
  let dir := forward (color pc) in
  let one := emptyOn b (r + dir) c in
  let two := one && negb (hasMoved pc) && emptyOn b (r + 2 * dir) c in
  pawnMoves b pc r c lm
  = Ret (let moves := pushIf [] one (r + dir) c in
         let moves := pushIf moves two (r + 2 * dir) c in
         let moves := pushIf moves (enemyOn b pc (r + dir) (c - 1)) (r + dir) (c - 1) in
         let moves := pushIf moves (enemyOn b pc (r + dir) (c + 1)) (r + dir) (c + 1) in
         match enPassantNow lm r c with
         | Some l => moves ++ [mkPos (r + dir) (col (to l))]
         | None => moves
         end).
Proof.
  intros Hb. unfold pawnMoves. simpl.
  rewrite (addIfEmpty_eight _ _ _ _ Hb). simpl.
  assert (Hcap : forall moves,
    (let* (_, moves) := addIfEnemy b pc moves (r + forward (color pc)) (c - 1) in
     let* (_, moves) := addIfEnemy b pc moves (r + forward (color pc)) (c + 1) in
     Ret (match enPassantNow lm r c with
          | Some l => moves ++ [mkPos (r + forward (color pc)) (col (to l))]
          | None => moves
          end))
    = Ret (let moves := pushIf moves (enemyOn b pc (r + forward (color pc)) (c - 1))
                               (r + forward (color pc)) (c - 1) in
           let moves := pushIf moves (enemyOn b pc (r + forward (color pc)) (c + 1))
                               (r + forward (color pc)) (c + 1) in
           match enPassantNow lm r c with
           | Some l => moves ++ [mkPos (r + forward (color pc)) (col (to l))]
           | None => moves
           end)).
  { intros moves. rewrite (addIfEnemy_eight _ _ _ _ _ Hb). simpl.
    by rewrite (addIfEnemy_eight _ _ _ _ _ Hb). }
  destruct (emptyOn b (r + forward (color pc)) c) eqn:E1; simpl.
  - destruct (hasMoved pc); simpl.
    + by rewrite Hcap.
    + unfold omap. rewrite (addIfEmpty_eight _ _ _ _ Hb). simpl.
      by rewrite Hcap.
  - by rewrite Hcap.
Qed.

(** C6.  A pawn is offered the square two rows ahead exactly when the
    square one row ahead is on the board and empty, the square two rows
    ahead is on the board and empty, and the pawn has not moved; the row
    the pawn stands on plays no part. *)
Theorem pawn_double_step_iff (b : Board) (p : Position) (lm : option Move)
    (ic : bool) (pw : Piece) :
  EightRows b ->
  cell b (row p) (col p) = Ret (Some pw) ->
  type pw = PAWN ->
  let dir := forward (color pw) in
  exists l,
    getPieceMoves b p lm ic = Ret l
    /\ (mkPos (row p + 2 * dir) (col p) ∈ l
        <-> (isWithinBoard (row p + dir) (col p) = true
             /\ cell b (row p + dir) (col p) = Ret None)
            /\ (isWithinBoard (row p + 2 * dir) (col p) = true
                /\ cell b (row p + 2 * dir) (col p) = Ret None)
            /\ hasMoved pw = false).
Proof.
  intros Hb Hc Ht dir. unfold getPieceMoves. rewrite Hc. simpl. rewrite Ht.
  rewrite (pawnMoves_eight _ _ _ _ _ Hb). eexists. split; [reflexivity|].
  fold dir. rewrite <- !(emptyOn_true _ _ _ Hb).
  assert (Hdir : dir = -1 \/ dir = 1) by apply forward_cases.
  set (target := mkPos (row p + 2 * dir) (col p)).
  assert (Hep : forall l : Move, target <> mkPos (row p + dir) (col (to l))).
  { intros l [= E]. lia. }
  transitivity (target ∈ pushIf (pushIf (pushIf (pushIf [] (emptyOn b (row p + dir) (col p)) (row p + dir) (col p))
       (emptyOn b (row p + dir) (col p) && negb (hasMoved pw) && emptyOn b (row p + 2 * dir) (col p))
       (row p + 2 * dir) (col p))
       (enemyOn b pw (row p + dir) (col p - 1)) (row p + dir) (col p - 1))
       (enemyOn b pw (row p + dir) (col p + 1)) (row p + dir) (col p + 1)).
  { destruct (enPassantNow lm (row p) (col p)) as [l|]; [|done].
    rewrite elem_of_app, list_elem_of_singleton. specialize (Hep l). tauto. }
  rewrite !elem_of_pushIf, elem_of_nil, !andb_true_iff, negb_true_iff.
  unfold target. split.
  - intros [[[[[]|[_ [= E]]]|[H _]]|[_ [= E]]]|[_ [= E]]]; try lia. tauto.
  - intros (H1 & H2 & H3). left. left. right. tauto.
Qed.

(** ** The king *)

Lemma addUnlessFriend_eight (b : Board) (pc : Piece) (moves : list Position)
    (r c : Z) :
  EightRows b -> exists moves', addUnlessFriend b pc moves r c = Ret moves'.
Proof.
  intros Hb. unfold addUnlessFriend.
  destruct (isWithinBoard r c) eqn:Hw; [|eauto].
  rewrite (cell_within _ _ _ Hb Hw). simpl.
  destruct (look b r c) as [t|]; [|eauto].
  destruct (negb (Color_eqb (color t) (color pc))); eauto.
Qed.

Lemma addUnlessFriend_elem (b : Board) (pc : Piece) (moves moves' : list Position)
    (r c : Z) (m : Position) :
  addUnlessFriend b pc moves r c = Ret moves' -> m ∈ moves' ->
  m ∈ moves \/ m = mkPos r c.
Proof.
  unfold addUnlessFriend. intros H Hm.
  destruct (isWithinBoard r c); [|injection H as <-; auto].
  ret_inv H. destruct a as [t|].
  - destruct (negb (Color_eqb (color t) (color pc))); injection H as <-; auto.
    apply elem_of_app in Hm as [|Hm%list_elem_of_singleton]; auto.
  - injection H as <-.
    apply elem_of_app in Hm as [|Hm%list_elem_of_singleton]; auto.
Qed.

Lemma kingSteps_eight (b : Board) (pc : Piece) (r c : Z) :
  EightRows b -> exists steps, kingSteps b pc r c = Ret steps.
Proof.
  intros Hb.
  destruct (foldM_total (fun _ => True)
              (fun moves '(dr, dc) =>
                 if (dr =? 0) && (dc =? 0) then Ret moves
                 else addUnlessFriend b pc moves (r + dr) (c + dc))
              kingOffsets []) as (steps & H & _); [|done|by exists steps].
  intros a [dr dc] _ _. destruct ((dr =? 0) && (dc =? 0)); [eauto|].
  destruct (addUnlessFriend_eight b pc a (r + dr) (c + dc) Hb) as [a' ->]. eauto.
Qed.

(** The king's single steps change the column by at most one. *)
Lemma kingSteps_near (b : Board) (pc : Piece) (r c : Z) (steps : list Position) :
  kingSteps b pc r c = Ret steps ->
  Forall (fun m => c - 1 <= col m <= c + 1) steps.
Proof.
  apply (foldM_invariant (Forall (fun m => c - 1 <= col m <= c + 1)));
    [|constructor].
  intros a [dr dc] a' Hd Ha H.
  destruct ((dr =? 0) && (dc =? 0)); [by injection H as <-|].
  apply Forall_forall. intros m Hm%list_elem_of_In.
  destruct (addUnlessFriend_elem _ _ _ _ _ _ _ H Hm) as [Hm'| ->].
  - exact (Forall_elem _ _ _ Ha Hm').
  - simpl. vm_compute in Hd. apply list_elem_of_In in Hd. simpl in Hd.
    intuition (simplify_eq; lia).
Qed.

Lemma isEmptyAt_eight (b : Board) (r c : Z) :
  EightRows b -> 0 <= r < 8 ->
  isEmptyAt b r c = Ret (negb (bool_decide (is_Some (look b r c)))).
Proof. intros Hb Hr. unfold isEmptyAt. by rewrite (cell_look _ _ _ Hb Hr). Qed.

Lemma look_empty (b : Board) (r c : Z) :
  EightRows b -> 0 <= r < 8 ->
  negb (bool_decide (is_Some (look b r c))) = true <-> cell b r c = Ret None.
Proof.
  intros Hb Hr. rewrite (cell_look _ _ _ Hb Hr).
  destruct (look b r c); simpl; split; congruence.
Qed.

Lemma isUnmovedRook_look (b : Board) (r c : Z) :
  EightRows b -> 0 <= r < 8 ->
  isUnmovedRook (look b r c) = true <-> unmovedRookAt b r c.
Proof.
  intros Hb Hr. unfold unmovedRookAt. rewrite (cell_look _ _ _ Hb Hr).
  destruct (look b r c) as [rk|]; simpl.
  - rewrite andb_true_iff, PieceType_eqb_eq, negb_true_iff. split.
    + intros []. eauto.
    + by intros (? & [= <-] & ? & ?).
  - split; [discriminate | by intros (? & [=] & _)].
Qed.

(** Kingside castling is pushed on three tests of the king's row. *)
Lemma castleKingside_eight (b : Board) (r : Z) :
  EightRows b -> 0 <= r < 8 ->
  exists k, castleKingside b r = Ret k
    /\ (k = true <-> unmovedRookAt b r 7
                     /\ cell b r 5 = Ret None /\ cell b r 6 = Ret None).
Proof.
  intros Hb Hr. unfold castleKingside, andM.
  rewrite (cell_look _ _ _ Hb Hr), !(isEmptyAt_eight _ _ _ Hb Hr). simpl.
  pose proof (isUnmovedRook_look b r 7 Hb Hr) as HR.
  pose proof (look_empty b r 5 Hb Hr) as H5.
  pose proof (look_empty b r 6 Hb Hr) as H6.
  destruct (isUnmovedRook (look b r 7)),
           (negb (bool_decide (is_Some (look b r 5)))),
           (negb (bool_decide (is_Some (look b r 6)))); simpl;
    eexists; (split; [reflexivity|]); intuition congruence.
Qed.

(** Queenside castling is pushed on four tests of the king's row. *)
Lemma castleQueenside_eight (b : Board) (r : Z) :
  EightRows b -> 0 <= r < 8 ->
  exists q, castleQueenside b r = Ret q
    /\ (q = true <-> unmovedRookAt b r 0
                     /\ cell b r 1 = Ret None /\ cell b r 2 = Ret None
                     /\ cell b r 3 = Ret None).
Proof.
  intros Hb Hr. unfold castleQueenside, andM.
  rewrite (cell_look _ _ _ Hb Hr), !(isEmptyAt_eight _ _ _ Hb Hr). simpl.
  pose proof (isUnmovedRook_look b r 0 Hb Hr) as HR.
  pose proof (look_empty b r 1 Hb Hr) as H1.
  pose proof (look_empty b r 2 Hb Hr) as H2.
  pose proof (look_empty b r 3 Hb Hr) as H3.
  destruct (isUnmovedRook (look b r 0)),
           (negb (bool_decide (is_Some (look b r 1)))),
           (negb (bool_decide (is_Some (look b r 2)))),
           (negb (bool_decide (is_Some (look b r 3)))); simpl;
    eexists; (split; [reflexivity|]); intuition congruence.
Qed.

(** The moves of a king that has not moved, castling enabled. *)
Lemma kingMoves_unmoved (b : Board) (k : Piece) (r c : Z) :
  EightRows b -> 0 <= r < 8 -> hasMoved k = false ->
  exists steps kingside queenside,
    kingSteps b k r c = Ret steps
    /\ kingMoves b k r c false
       = Ret (pushIf (pushIf steps kingside r 6) queenside r 2)
    /\ (kingside = true <->
        unmovedRookAt b r 7 /\ cell b r 5 = Ret None /\ cell b r 6 = Ret None)
    /\ (queenside = true <->
        unmovedRookAt b r 0
        /\ cell b r 1 = Ret None /\ cell b r 2 = Ret None
        /\ cell b r 3 = Ret None).
Proof.
  intros Hb Hr Hm.
  destruct (kingSteps_eight b k r c Hb) as [steps Hs].
  destruct (castleKingside_eight b r Hb Hr) as (ks & Hks & Hks').
  destruct (castleQueenside_eight b r Hb Hr) as (qs & Hqs & Hqs').
  exists steps, ks, qs. split; [done|]. split; [|done].
  unfold kingMoves. rewrite Hs, Hm. simpl. rewrite Hks. simpl. by rewrite Hqs.
Qed.

(** C5, as the code has it.  For a king that has not moved,
    [getPieceMoves] with castling enabled returns the king's single
    steps, then (row, 6) exactly when (row, 7) holds an unmoved rook and
    (row, 5) and (row, 6) are empty, then (row, 2) exactly when (row, 0)
    holds an unmoved rook and (row, 1), (row, 2) and (row, 3) are empty.
    For a king on column 4 these are the squares strictly between king
    and rook.  No other test is made. *)
Theorem king_castling_destinations (b : Board) (p : Position)
    (lm : option Move) (k : Piece) :
  EightRows b ->
  cell b (row p) (col p) = Ret (Some k) ->
  type k = KING ->
  hasMoved k = false ->
  exists steps kingside queenside,
    kingSteps b k (row p) (col p) = Ret steps
    /\ getPieceMoves b p lm false
       = Ret (pushIf (pushIf steps kingside (row p) 6) queenside (row p) 2)
    /\ (kingside = true <->
        unmovedRookAt b (row p) 7
        /\ cell b (row p) 5 = Ret None /\ cell b (row p) 6 = Ret None)
    /\ (queenside = true <->
        unmovedRookAt b (row p) 0
        /\ cell b (row p) 1 = Ret None /\ cell b (row p) 2 = Ret None
        /\ cell b (row p) 3 = Ret None)
    /\ (col p = 4 ->
        (mkPos (row p) 6 ∈ pushIf (pushIf steps kingside (row p) 6) queenside (row p) 2
         <-> unmovedRookAt b (row p) 7
             /\ forall c, col p < c < 7 -> cell b (row p) c = Ret None)
        /\ (mkPos (row p) 2 ∈ pushIf (pushIf steps kingside (row p) 6) queenside (row p) 2
            <-> unmovedRookAt b (row p) 0
                /\ forall c, 0 < c < col p -> cell b (row p) c = Ret None)).
Proof.
  intros Hb Hc Ht Hm.
  pose proof (cell_row_inv _ _ _ _ Hb Hc) as Hr.
  destruct (kingMoves_unmoved b k (row p) (col p) Hb Hr Hm)
    as (steps & ks & qs & Hs & Hmoves & Hks' & Hqs').
  exists steps, ks, qs. split; [done|]. split.
  { unfold getPieceMoves. rewrite Hc. simpl. by rewrite Ht. }
  split; [done|]. split; [done|].
  intros H4. pose proof (kingSteps_near _ _ _ _ _ Hs) as Hnear.
  assert (Hfar : forall c, (c = 6 \/ c = 2) -> mkPos (row p) c ∉ steps).
  { intros c Hcc Hin. apply (Forall_elem _ _ _ Hnear) in Hin. simpl in Hin. lia. }
  rewrite !elem_of_pushIf, Hks', Hqs'. split.
  - split.
    + intros [[Hin | [(Hrk & H5 & H6) _]] | [_ [= ?]]].
      * destruct (Hfar 6); auto.
      * split; [done|]. intros c Hcc.
        assert (c = 5 \/ c = 6) as [-> | ->] by lia; done.
    + intros [Hrk Hbetween]. left. right. split; [|done].
      split; [done|]. split; apply Hbetween; lia.
  - split.
    + intros [[Hin | [_ [= ?]]] | [(Hrk & H1 & H2 & H3) _]].
      * destruct (Hfar 2); auto.
      * split; [done|]. intros c Hcc.
        assert (c = 1 \/ c = 2 \/ c = 3) as [-> | [-> | ->]] by lia; done.
    + intros [Hrk Hbetween]. right. split; [|done].
      split; [done|]. repeat split; apply Hbetween; lia.
Qed.

(** C5 as stated fails for a king away from column 4: on
    [offFileKingBoard] the bishop on (7, 3) stands between the king on
    (7, 2) and the rook on (7, 7), and (7, 6) is returned all the same. *)
Lemma castling_ignores_squares_beside_the_king :
  WellFormed offFileKingBoard
  /\ cell offFileKingBoard 7 2 = Ret (Some (man KING white false))
  /\ unmovedRookAt offFileKingBoard 7 7
  /\ cell offFileKingBoard 7 3 = Ret (Some (man BISHOP white false))
  /\ 2 < 3 < 7
  /\ getPieceMoves offFileKingBoard (mkPos 7 2) None false
     = Ret [mkPos 6 1; mkPos 6 2; mkPos 6 3; mkPos 7 1; mkPos 7 6]
  /\ mkPos 7 6 ∈ [mkPos 6 1; mkPos 6 2; mkPos 6 3; mkPos 7 1; mkPos 7 6].
Proof.
  split; [split; [done | by repeat constructor]|].
  split; [reflexivity|]. split; [by eexists|].
  split; [reflexivity|]. split; [lia|]. split; [reflexivity|].
  do 4 right. left.
Qed.

(** ** Committing a move *)

(** Split the monadic steps of [H], opening the pairs they bind. *)
Ltac ret_inv_pairs H :=
  repeat first
    [ let a := fresh "a" in
      let Ha := fresh "Ha" in
      apply bind_Ret in H as (a & Ha & H)
    | match type of H with
      | (let '(_, _) := ?p in _) = Ret _ => destruct p
      end ].

(** C2.  After [executeMove] the side to move has flipped.  With
    [moves] the legal moves of the next side on the new board and
    [check] whether its king is in check: no move and check is
    checkmate, won by the side that moved; no move and no check is
    stalemate, a draw; otherwise the game is being played and has no
    winner. *)
Theorem executeMove_terminal_status (prev next : GameState)
    (src dst : Position) (promo : option PieceType) :
  executeMove prev src dst promo = Ret next ->
  currentPlayer next = opponent (currentPlayer prev)
  /\ exists mv check moves,
       lastMove next = Some mv
       /\ from mv = src /\ to mv = dst
       /\ isKingInCheck (board next) (currentPlayer next) = Ret check
       /\ getAllLegalMoves (board next) (currentPlayer next)
            (Some (justPlayed mv)) = Ret moves
       /\ (moves = [] -> check = true ->
           status next = CHECKMATE
           /\ winner next = Some (side (currentPlayer prev)))
       /\ (moves = [] -> check = false ->
           status next = STALEMATE /\ winner next = Some draw)
       /\ (moves <> [] -> status next = PLAYING /\ winner next = None).
Proof.
  intros H. unfold executeMove in H. cbv zeta in H. ret_inv_pairs H.
  injection H as <-. simpl. split; [done|].
  eexists _, _, _. split; [reflexivity|]. simpl.
  split; [done|]. split; [done|]. split; [eassumption|].
  split; [eassumption|].
  match goal with
  | Hm : getAllLegalMoves _ _ _ = Ret ?l |- _ => destruct l as [|x l']
  end; simpl.
  - rewrite !andb_true_r. split; [|split].
    + by intros _ ->.
    + by intros _ ->.
    + done.
  - rewrite !andb_false_r. split; [|split]; done.
Qed.

(** ** The engine returns *)

Lemma directions_unitStep (t : PieceType) (d : Z * Z) :
  d ∈ directions t -> unitStep d.
Proof.
  intros H. apply list_elem_of_In in H.
  destruct t; vm_compute in H; unfold unitStep;
    intuition (subst; simpl; lia).
Qed.

(** The [while] loop of a sliding piece ends: with fuel for the squares
    that remain it returns, and more fuel changes nothing. *)
Lemma slide_fuel (b : Board) (pc : Piece) (dr dc : Z) :
  EightRows b -> unitStep (dr, dc) ->
  forall fuel nr nc moves,
    (isWithinBoard nr nc = true -> remaining dr dc nr nc <= Z.of_nat fuel) ->
    (exists l, slide fuel b pc dr dc nr nc moves = Ret l)
    /\ forall extra, slide (fuel + extra) b pc dr dc nr nc moves
                     = slide fuel b pc dr dc nr nc moves.
Proof.
  intros Hb (Hdr & Hdc & Hnz). simpl in *.
  induction fuel as [|fuel IH]; intros nr nc moves Hrem.
  - assert (Hout : isWithinBoard nr nc = false).
    { destruct (isWithinBoard nr nc) eqn:Hw; [|done].
      specialize (Hrem eq_refl). apply isWithinBoard_spec in Hw.
      unfold remaining in Hrem.
      destruct (dr =? 1) eqn:E1; [lia|].
      destruct (dr =? -1) eqn:E2; [lia|].
      destruct (dc =? 1) eqn:E3; lia. }
    split.
    + exists moves. simpl. by rewrite Hout.
    + intros extra. destruct extra; simpl; by rewrite Hout.
  - simpl. destruct (isWithinBoard nr nc) eqn:Hw; [|eauto].
    rewrite (cell_within _ _ _ Hb Hw). simpl.
    destruct (look b nr nc) as [t|]; [eauto|].
    apply IH. intros Hw'. specialize (Hrem eq_refl).
    apply isWithinBoard_spec in Hw, Hw'. unfold remaining in *.
    destruct (dr =? 1) eqn:E1; [apply Z.eqb_eq in E1; lia|].
    destruct (dr =? -1) eqn:E2; [apply Z.eqb_eq in E2; lia|].
    apply Z.eqb_neq in E1, E2.
    destruct (dc =? 1) eqn:E3; [apply Z.eqb_eq in E3; lia|].
    apply Z.eqb_neq in E3. lia.
Qed.

(** On any board, even one that lacks rows, the loop does not run out of
    fuel: it returns or it throws. *)
Lemma slide_never_diverges (b : Board) (pc : Piece) (dr dc : Z) :
  unitStep (dr, dc) ->
  forall fuel nr nc moves,
    (isWithinBoard nr nc = true -> remaining dr dc nr nc <= Z.of_nat fuel) ->
    slide fuel b pc dr dc nr nc moves <> Fail Diverges.
Proof.
  intros (Hdr & Hdc & Hnz). simpl in *.
  induction fuel as [|fuel IH]; intros nr nc moves Hrem; simpl;
    destruct (isWithinBoard nr nc) eqn:Hw; try done.
  - specialize (Hrem eq_refl). apply isWithinBoard_spec in Hw.
    unfold remaining in Hrem.
    destruct (dr =? 1) eqn:E1; [lia|].
    destruct (dr =? -1) eqn:E2; [lia|].
    destruct (dc =? 1) eqn:E3; lia.
  - destruct (cell b nr nc) as [[t|]|e] eqn:Hc; simpl; try done.
    + apply IH. intros Hw'. specialize (Hrem eq_refl).
      apply isWithinBoard_spec in Hw, Hw'. unfold remaining in *.
      destruct (dr =? 1) eqn:E1; [apply Z.eqb_eq in E1; lia|].
      destruct (dr =? -1) eqn:E2; [apply Z.eqb_eq in E2; lia|].
      apply Z.eqb_neq in E1, E2.
      destruct (dc =? 1) eqn:E3; [apply Z.eqb_eq in E3; lia|].
      apply Z.eqb_neq in E3. lia.
    + unfold cell in Hc. destruct (index b nr); [discriminate|].
      injection Hc as <-. discriminate.
Qed.

(** Eight units of fuel are enough for every ray of every sliding piece. *)
Lemma slide_eight (b : Board) (pc : Piece) (dr dc nr nc : Z)
    (moves : list Position) :
  EightRows b -> unitStep (dr, dc) ->
  (exists l, slide slideFuel b pc dr dc nr nc moves = Ret l)
  /\ forall extra, slide (slideFuel + extra) b pc dr dc nr nc moves
                   = slide slideFuel b pc dr dc nr nc moves.
Proof.
  intros Hb Hd. apply slide_fuel; [done | done |].
  intros Hw. apply isWithinBoard_spec in Hw. unfold remaining, slideFuel.
  destruct (dr =? 1); [lia|]. destruct (dr =? -1); [lia|].
  destruct (dc =? 1); lia.
Qed.

Lemma sliderMoves_eight (b : Board) (pc : Piece) (r c : Z) :
  EightRows b -> exists l, sliderMoves b pc r c = Ret l.
Proof.
  intros Hb.
  destruct (foldM_total (fun _ => True)
              (fun moves '(dr, dc) =>
                 slide slideFuel b pc dr dc (r + dr) (c + dc) moves)
              (directions (type pc)) []) as (l & H & _); [|done|by exists l].
  intros a [dr dc] Hd _.
  destruct (slide_eight b pc dr dc (r + dr) (c + dc) a Hb) as [[l ->] _];
    [by eapply directions_unitStep | eauto].
Qed.

Lemma knightMoves_eight (b : Board) (pc : Piece) (r c : Z) :
  EightRows b -> exists l, knightMoves b pc r c = Ret l.
Proof.
  intros Hb.
  destruct (foldM_total (fun _ => True)
              (fun moves '(dr, dc) =>
                 addUnlessFriend b pc moves (r + dr) (c + dc))
              kMoves []) as (l & H & _); [|done|by exists l].
  intros a [dr dc] _ _.
  destruct (addUnlessFriend_eight b pc a (r + dr) (c + dc) Hb) as [a' ->]. eauto.
Qed.

Lemma kingMoves_eight (b : Board) (pc : Piece) (r c : Z) (ic : bool) :
  EightRows b -> 0 <= r < 8 -> exists l, kingMoves b pc r c ic = Ret l.
Proof.
  intros Hb Hr. unfold kingMoves.
  destruct (kingSteps_eight b pc r c Hb) as [steps ->]. simpl.
  destruct (negb (hasMoved pc) && negb ic); [|eauto].
  destruct (castleKingside_eight b r Hb Hr) as (k & -> & _). simpl.
  destruct (castleQueenside_eight b r Hb Hr) as (q & -> & _). simpl. eauto.
Qed.

(** [getPieceMoves] returns for every square of a board of eight rows. *)
Lemma getPieceMoves_returns (b : Board) (p : Position) (lm : option Move)
    (ic : bool) :
  EightRows b -> 0 <= row p < 8 -> exists l, getPieceMoves b p lm ic = Ret l.
Proof.
  intros Hb Hr. unfold getPieceMoves. rewrite (cell_look _ _ _ Hb Hr). simpl.
  destruct (look b (row p) (col p)) as [pc|]; [|eauto].
  destruct (type pc).
  - rewrite (pawnMoves_eight _ _ _ _ _ Hb). eauto.
  - by apply sliderMoves_eight.
  - by apply knightMoves_eight.
  - by apply sliderMoves_eight.
  - by apply sliderMoves_eight.
  - by apply kingMoves_eight.
Qed.

Lemma isSquareAttacked_returns (b : Board) (pos : Position) (c0 : Color) :
  EightRows b -> exists a, isSquareAttacked b pos c0 = Ret a.
Proof.
  intros Hb. unfold isSquareAttacked. generalize allSquares_within.
  induction allSquares as [|[r c] sqs IH]; [simpl; eauto|].
  intros Hall. inversion Hall as [|? ? Hrc Hall']; subst. simpl in *.
  rewrite (cell_within _ _ _ Hb Hrc). simpl.
  destruct (look b r c) as [a|]; [|by apply IH].
  destruct (Color_eqb (color a) c0); [|by apply IH].
  apply isWithinBoard_spec in Hrc as [Hr Hc].
  destruct (getPieceMoves_returns b (mkPos r c) None true Hb Hr) as [l ->].
  simpl. destruct (existsb (samePos pos) l); [eauto | by apply IH].
Qed.

Lemma findKing_returns (b : Board) (c0 : Color) :
  EightRows b -> exists k, findKing b c0 = Ret k.
Proof.
  intros Hb. unfold findKing. generalize allSquares_within.
  induction allSquares as [|[r c] sqs IH]; [simpl; eauto|].
  intros Hall. inversion Hall as [|? ? Hrc Hall']; subst. simpl in *.
  rewrite (cell_within _ _ _ Hb Hrc). simpl.
  destruct (isKingOf c0 (look b r c)); [eauto | by apply IH].
Qed.

(** [isKingInCheck] returns on every board of eight rows. *)
Lemma isKingInCheck_returns (b : Board) (c0 : Color) :
  EightRows b -> exists a, isKingInCheck b c0 = Ret a.
Proof.
  intros Hb. unfold isKingInCheck.
  destruct (findKing_returns b c0 Hb) as [k ->]. simpl.
  destruct (row k =? -1); [eauto|]. by apply isSquareAttacked_returns.
Qed.

Lemma setCell_eight (b : Board) (r c : Z) (x : option Piece) :
  EightRows b -> 0 <= r < 8 ->
  exists b', setCell b r c x = Ret b' /\ EightRows b'.
Proof.
  intros Hb Hr. destruct (setCell_Ret b r c x) as [b' H].
  - unfold EightRows in Hb. lia.
  - exists b'. split; [done|]. unfold EightRows.
    by rewrite (setCell_length _ _ _ _ _ H).
Qed.

(** A pawn's move to another column goes one row forward. *)
Lemma pawnMoves_sideways (b : Board) (pc : Piece) (r c : Z) (lm : option Move)
    (l : list Position) (m : Position) :
  EightRows b -> pawnMoves b pc r c lm = Ret l -> m ∈ l -> col m <> c ->
  row m = r + forward (color pc).
Proof.
  intros Hb H Hm Hcol. rewrite (pawnMoves_eight _ _ _ _ _ Hb) in H.
  injection H as <-.
  assert (Hbase : forall base : list Position,
             m ∈ base ->
             base = pushIf (pushIf (pushIf (pushIf []
                      (emptyOn b (r + forward (color pc)) c) (r + forward (color pc)) c)
                      (emptyOn b (r + forward (color pc)) c && negb (hasMoved pc)
                       && emptyOn b (r + 2 * forward (color pc)) c)
                      (r + 2 * forward (color pc)) c)
                      (enemyOn b pc (r + forward (color pc)) (c - 1))
                      (r + forward (color pc)) (c - 1))
                      (enemyOn b pc (r + forward (color pc)) (c + 1))
                      (r + forward (color pc)) (c + 1) ->
             row m = r + forward (color pc)).
  { intros base Hin ->. rewrite !elem_of_pushIf, elem_of_nil in Hin.
    destruct Hin as [[[[[]|[_ ->]]|[_ ->]]|[_ ->]]|[_ ->]]; simpl in *; done. }
  simpl in Hm. destruct (enPassantNow lm r c) as [lv|].
  - apply elem_of_app in Hm as [Hm | ->%list_elem_of_singleton]; [|done].
    by eapply Hbase.
  - by eapply Hbase.
Qed.

(** The simulation of a destination on the board returns a board of
    eight rows. *)
Lemma simulate_returns (b : Board) (p : Position) (pc : Piece)
    (lm : option Move) (raw : list Position) (m : Position) :
  EightRows b ->
  cell b (row p) (col p) = Ret (Some pc) ->
  getPieceMoves b p lm false = Ret raw -> m ∈ raw -> onBoard m ->
  exists sim, simulate b p pc m = Ret sim /\ EightRows sim.
Proof.
  intros Hb Hc Hraw Hm Hon. unfold simulate. rewrite cloneBoard_id.
  pose proof (cell_row_inv _ _ _ _ Hb Hc) as Hr.
  rewrite (cell_within _ _ _ Hb Hon). simpl.
  apply isWithinBoard_spec in Hon as [Hmr Hmc].
  destruct (setCell_eight b (row m) (col m) (Some (setMoved pc)) Hb Hmr)
    as (b1 & -> & Hb1). simpl.
  destruct (setCell_eight b1 (row p) (col p) None Hb1 Hr) as (b2 & -> & Hb2).
  simpl.
  destruct (PieceType_eqb (type pc) PAWN) eqn:Ept; simpl; [|eauto].
  destruct (col m =? col p) eqn:Ecol; simpl; [eauto|].
  destruct (negb (bool_decide (is_Some (look b (row m) (col m))))); [|eauto].
  apply PieceType_eqb_eq in Ept. apply Z.eqb_neq in Ecol.
  unfold getPieceMoves in Hraw. rewrite Hc in Hraw. simpl in Hraw.
  rewrite Ept in Hraw.
  rewrite (pawnMoves_sideways _ _ _ _ _ _ _ Hb Hraw Hm Ecol).
  rewrite backward_forward.
  replace (row p + forward (color pc) + - forward (color pc)) with (row p) by lia.
  by apply setCell_eight.
Qed.

Lemma stepBoard_returns (b : Board) (p : Position) (pc : Piece) (m : Position) :
  EightRows b -> 0 <= row p < 8 ->
  exists sb, stepBoard b p pc m = Ret sb /\ EightRows sb.
Proof.
  intros Hb Hr. unfold stepBoard. rewrite cloneBoard_id.
  destruct (setCell_eight b (row p)
              (if col m >? col p then col p + 1 else col p - 1)
              (Some pc) Hb Hr) as (b1 & -> & Hb1). simpl.
  by apply setCell_eight.
Qed.

(** [getLegalMoves] returns for every square of a board of eight rows,
    provided the en passant square, if the rule applies, is on the
    board. *)
Lemma getLegalMoves_returns (b : Board) (p : Position) (lm : option Move) :
  EightRows b -> onBoard p -> enPassantOnBoard b p lm ->
  exists l, getLegalMoves b p lm = Ret l.
Proof.
  intros Hb Hp Hep. pose proof Hp as Hp'.
  apply isWithinBoard_spec in Hp' as [Hr _].
  unfold getLegalMoves.
  destruct (cell b (row p) (col p)) as [[pc|]|e] eqn:Hc; simpl; [|eauto|].
  2: { rewrite (cell_look _ _ _ Hb Hr) in Hc. discriminate. }
  destruct (getPieceMoves_returns b p lm false Hb Hr) as [raw Hraw].
  rewrite Hraw. simpl. apply filterM_total.
  apply Forall_forall. intros m Hm%list_elem_of_In.
  assert (Hon : onBoard m).
  { destruct (getPieceMoves_onBoard _ _ _ _ _ _ Hp Hraw Hm); auto. }
  unfold keepMove.
  destruct (simulate_returns _ _ _ _ _ _ Hb Hc Hraw Hm Hon) as (sim & -> & Hsim).
  simpl. destruct (isKingInCheck_returns sim (color pc) Hsim) as [chk ->].
  simpl. destruct chk; [eauto|].
  destruct (isCastlingStep p pc m); [|eauto].
  destruct (isKingInCheck_returns b (color pc) Hb) as [chk0 ->]. simpl.
  destruct chk0; [eauto|].
  destruct (stepBoard_returns b p pc m Hb Hr) as (sb & -> & Hsb). simpl.
  destruct (isKingInCheck_returns sb (color pc) Hsb) as [chk2 ->]. simpl.
  destruct chk2; eauto.
Qed.

(** With the last move in hand [getAllLegalMoves] returns, provided the
    en passant square is on the board wherever the rule applies. *)
Lemma getAllLegalMoves_returns (b : Board) (c0 : Color) (lm : option Move) :
  EightRows b ->
  (forall p, onBoard p -> enPassantOnBoard b p lm) ->
  exists l, getAllLegalMoves b c0 lm = Ret l.
Proof.
  intros Hb Hep. unfold getAllLegalMoves.
  destruct (foldM_total (fun _ => True)
    (fun allMoves '(r, c) =>
       let* p := cell b r c in
       match p with
       | Some pc =>
           if Color_eqb (color pc) c0 then
             let* legalPos := getLegalMoves b (mkPos r c) lm in
             Ret (allMoves ++ (candidate r c pc <$> legalPos))
           else Ret allMoves
       | None => Ret allMoves
       end) allSquares []) as (l & H & _); [|done|by exists l].
  intros a [r c] Hsq _.
  assert (Hw : isWithinBoard r c = true)
    by exact (Forall_elem _ _ _ allSquares_within Hsq).
  rewrite (cell_within _ _ _ Hb Hw). simpl.
  destruct (look b r c) as [pc|]; [|eauto].
  destruct (Color_eqb (color pc) c0); [|eauto].
  destruct (getLegalMoves_returns b (mkPos r c) lm Hb Hw (Hep (mkPos r c) Hw))
    as [l ->].
  simpl. eauto.
Qed.

(** [executeMove] returns a state when the source square holds a piece,
    the destination is on the board, a king that moves two columns has a
    piece in the corner it moves toward, and a piece that arrives as a
    pawn does not arrive on a first or last row. *)
Lemma executeMove_returns (prev : GameState) (src dst : Position)
    (promo : option PieceType) (pc : Piece) :
  EightRows (board prev) ->
  cell (board prev) (row src) (col src) = Ret (Some pc) ->
  onBoard dst ->
  (isCastlingStep dst (arriving pc promo) src = true ->
   exists rk, cell (board prev) (row src) (if col dst >? col src then 7 else 0)
              = Ret (Some rk)) ->
  (type (arriving pc promo) = PAWN -> 1 <= row dst <= 6) ->
  exists next, executeMove prev src dst promo = Ret next.
Proof.
  intros Hb Hsrc Hdst Hrook Hpawn. unfold executeMove. cbv zeta.
  rewrite cloneBoard_id, Hsrc. simpl.
  pose proof (cell_row_inv _ _ _ _ Hb Hsrc) as Hr.
  pose proof Hdst as Hdst'. apply isWithinBoard_spec in Hdst' as [Hdr Hdc].
  rewrite (cell_within _ _ _ Hb Hdst). simpl.
  fold (arriving pc promo). set (pc' := arriving pc promo) in *.
  (* castling *)
  assert (Hcastle : exists b1,
    (if PieceType_eqb (type pc') KING && (Z.abs (col src - col dst) =? 2)
     then
       let* rk := cell (board prev) (row src) (if col dst >? col src then 7 else 0) in
       let* rk := nonNull rk in
       let* newBoard := setCell (board prev) (row src)
                          (if col dst >? col src then 7 else 0) None in
       setCell newBoard (row src) (if col dst >? col src then 5 else 3)
               (Some (setMoved rk))
     else Ret (board prev)) = Ret b1 /\ EightRows b1).
  { destruct (PieceType_eqb (type pc') KING && (Z.abs (col src - col dst) =? 2))
      eqn:Ec; [|eauto].
    destruct (Hrook Ec) as [rk ->]. simpl.
    destruct (setCell_eight (board prev) (row src)
                (if col dst >? col src then 7 else 0) None Hb Hr)
      as (b0 & -> & Hb0). simpl.
    by apply setCell_eight. }
  destruct Hcastle as (b1 & -> & Hb1). simpl.
  (* en passant *)
  assert (Hep : exists taken b2,
    (if PieceType_eqb (type pc') PAWN && negb (col src =? col dst)
        && negb (bool_decide (is_Some (look (board prev) (row dst) (col dst))))
     then
       let* taken := cell b1 (row dst + (if Color_eqb (color pc') white then 1 else -1))
                          (col dst) in
       let* newBoard := setCell b1 (row dst + (if Color_eqb (color pc') white then 1 else -1))
                                (col dst) None in
       Ret (taken, newBoard)
     else Ret (look (board prev) (row dst) (col dst), b1)) = Ret (taken, b2)
    /\ EightRows b2).
  { destruct (PieceType_eqb (type pc') PAWN) eqn:Ept; simpl; [|eauto].
    destruct (negb (col src =? col dst)
              && negb (bool_decide (is_Some (look (board prev) (row dst) (col dst)))));
      [|eauto].
    apply PieceType_eqb_eq in Ept. specialize (Hpawn Ept).
    assert (0 <= row dst + (if Color_eqb (color pc') white then 1 else -1) < 8) as Hrow
      by (destruct (Color_eqb (color pc') white); lia).
    rewrite (cell_look _ _ _ Hb1 Hrow). simpl.
    destruct (setCell_eight b1 _ (col dst) None Hb1 Hrow) as (b2 & -> & Hb2).
    simpl. eauto. }
  destruct Hep as (taken & b2 & -> & Hb2). simpl.
  destruct (setCell_eight b2 (row dst) (col dst) (Some pc') Hb2 Hdr)
    as (b3 & -> & Hb3). simpl.
  destruct (setCell_eight b3 (row src) (col src) None Hb3 Hr)
    as (b4 & -> & Hb4). simpl.
  destruct (isKingInCheck_returns b4
              (if Color_eqb (currentPlayer prev) white then black else white) Hb4)
    as [check ->]. simpl.
  destruct (getAllLegalMoves_returns b4
              (if Color_eqb (currentPlayer prev) white then black else white)
              (Some (mkMove src dst pc' taken None None None None "")) Hb4)
    as [moves ->]; [|simpl; eauto].
  intros p Hp m Hm. unfold enPassantSquare in Hm.
  destruct (cell b4 (row p) (col p)) as [[pw|]|]; try discriminate.
  destruct (PieceType_eqb (type pw) PAWN); [|discriminate].
  unfold enPassantNow in Hm. simpl in Hm.
  destruct (PieceType_eqb (type pc') PAWN) eqn:Ept; [|discriminate].
  apply PieceType_eqb_eq in Ept. specialize (Hpawn Ept). simpl in Hm.
  destruct (Z.abs (row src - row dst) =? 2); [|discriminate]. simpl in Hm.
  destruct (row dst =? row p) eqn:Erow; [|discriminate]. simpl in Hm.
  destruct (Z.abs (col dst - col p) =? 1); [|discriminate].
  injection Hm as <-. apply Z.eqb_eq in Erow.
  apply isWithinBoard_spec. simpl.
  destruct (forward_cases (color pw)); lia.
Qed.

(** A king's legal move of two columns is a castling move: the corner
    it moves toward holds a piece. *)
Lemma king_two_columns (b : Board) (p : Position) (lm : option Move)
    (k : Piece) (raw : list Position) (dst : Position) :
  EightRows b -> onBoard p ->
  cell b (row p) (col p) = Ret (Some k) -> type k = KING ->
  getPieceMoves b p lm false = Ret raw -> dst ∈ raw ->
  Z.abs (col p - col dst) = 2 ->
  exists rk, cell b (row p) (if col dst >? col p then 7 else 0) = Ret (Some rk).
Proof.
  intros Hb Hp Hc Ht Hraw Hdst Habs.
  apply isWithinBoard_spec in Hp as [Hr Hcol].
  unfold getPieceMoves in Hraw. rewrite Hc in Hraw. simpl in Hraw.
  rewrite Ht in Hraw.
  assert (Hfar : forall steps, kingSteps b k (row p) (col p) = Ret steps ->
                               dst ∉ steps).
  { intros steps Hs Hin. apply kingSteps_near in Hs.
    apply (Forall_elem _ _ _ Hs) in Hin. simpl in Hin. lia. }
  destruct (hasMoved k) eqn:Hm.
  - unfold kingMoves in Hraw. rewrite Hm in Hraw. simpl in Hraw.
    ret_inv Hraw. injection Hraw as <-. by destruct (Hfar a).
  - destruct (kingMoves_unmoved b k (row p) (col p) Hb Hr Hm)
      as (steps & ks & qs & Hs & Hmoves & Hks & Hqs).
    rewrite Hmoves in Hraw. injection Hraw as <-.
    rewrite !elem_of_pushIf in Hdst.
    destruct Hdst as [[Hin | [Hk ->]] | [Hq ->]]; simpl in *.
    + by destruct (Hfar steps).
    + assert (col p = 4) as Hp4 by lia. rewrite Hp4. simpl.
      apply Hks in Hk as [(rk & Hrk & _) _]. eauto.
    + apply Hqs in Hq as [(rk & Hrk & Hrook & _) _].
      assert (col p = 0 \/ col p = 4) as [Hp0 | Hp4] by lia.
      * rewrite Hp0 in Hc. rewrite Hc in Hrk. injection Hrk as <-. congruence.
      * rewrite Hp4. simpl. eauto.
Qed.

(** [executeMove] returns for every legal move that is committed the way
    the interface commits it. *)
Lemma executeMove_legal_returns (prev : GameState) (src dst : Position)
    (promo : option PieceType) (pc : Piece) (l : list Position) :
  EightRows (board prev) -> onBoard src ->
  cell (board prev) (row src) (col src) = Ret (Some pc) ->
  enPassantOnBoard (board prev) src (lastMove prev) ->
  getLegalMoves (board prev) src (lastMove prev) = Ret l -> dst ∈ l ->
  promotionRule pc dst promo ->
  exists next, executeMove prev src dst promo = Ret next.
Proof.
  intros Hb Hsrc Hc Hep Hl Hdst Hpromo.
  destruct (getLegalMoves_Ret _ _ _ _ _ Hc Hl) as (raw & Hraw & Hf).
  apply filterM_Ret in Hf as (_ & _ & Hin).
  destruct (proj1 (Hin dst) Hdst) as [Hdraw _].
  apply (executeMove_returns prev src dst promo pc Hb Hc).
  - destruct (getPieceMoves_onBoard _ _ _ _ _ _ Hsrc Hraw Hdraw); auto.
  - unfold isCastlingStep. intros Hk. apply andb_true_iff in Hk as [Hk Habs].
    apply PieceType_eqb_eq in Hk. apply Z.eqb_eq in Habs.
    destruct promo as [t|]; simpl in *.
    + destruct Hpromo as (_ & _ & Hnk). congruence.
    + by eapply king_two_columns.
  - intros Hpw. destruct promo as [t|]; simpl in *.
    + destruct Hpromo as (_ & Hnp & _). congruence.
    + by apply Hpromo.
Qed.

(** ** The theorems at work on concrete positions *)

Lemma getLegalMoves_king_not_in_check_witness :
  exists sim,
    simulate createInitialBoard (mkPos 6 4)
             (mkPiece "pawn-white-6-4" PAWN white false) (mkPos 4 4) = Ret sim
    /\ isKingInCheck sim white = Ret false
    /\ (0 <= 4 -> forall r c,
          cell sim r c
          = movedCell createInitialBoard (mkPos 6 4)
              (mkPiece "pawn-white-6-4" PAWN white false) (mkPos 4 4) r c).
Proof.
  apply (getLegalMoves_king_not_in_check createInitialBoard (mkPos 6 4) None
           (mkPiece "pawn-white-6-4" PAWN white false)
           [mkPos 5 4; mkPos 4 4] (mkPos 4 4)).
  - vm_compute. reflexivity.
  - vm_compute. reflexivity.
  - right. left.
Defined.

Lemma getLegalMoves_sublist_getPieceMoves_witness :
  exists raw,
    getPieceMoves castlingBoard (mkPos 7 4) None false = Ret raw
    /\ [mkPos 6 3; mkPos 6 4; mkPos 7 3; mkPos 7 2] `sublist_of` raw
    /\ forall m, m ∈ [mkPos 6 3; mkPos 6 4; mkPos 7 3; mkPos 7 2] -> m ∈ raw.
Proof.
  apply (getLegalMoves_sublist_getPieceMoves castlingBoard (mkPos 7 4) None).
  vm_compute. reflexivity.
Defined.

Lemma getLegalMoves_castling_through_check_witness :
  (isKingInCheck castlingBoard white = Ret true ->
   mkPos 7 6 ∉ [mkPos 6 3; mkPos 6 4; mkPos 7 3; mkPos 7 2])
  /\ (forall sb,
        stepBoard castlingBoard (mkPos 7 4) (man KING white false) (mkPos 7 6)
        = Ret sb ->
        isKingInCheck sb white = Ret true ->
        mkPos 7 6 ∉ [mkPos 6 3; mkPos 6 4; mkPos 7 3; mkPos 7 2])
  /\ (forall sb,
        stepBoard castlingBoard (mkPos 7 4) (man KING white false) (mkPos 7 6)
        = Ret sb ->
        1 <= 4 ->
        forall r c,
          cell sb r c
          = steppedCell castlingBoard (mkPos 7 4) (man KING white false)
              (mkPos 7 6) r c)
  /\ (mkPos 7 6 ∈ [mkPos 6 3; mkPos 6 4; mkPos 7 3; mkPos 7 2] -> 0 <= 6 ->
      exists sim,
        simulate castlingBoard (mkPos 7 4) (man KING white false) (mkPos 7 6)
        = Ret sim
        /\ cell sim 7 6 = Ret (Some (setMoved (man KING white false)))
        /\ isKingInCheck sim white = Ret false).
Proof.
  apply (getLegalMoves_castling_through_check castlingBoard (mkPos 7 4) None
           (man KING white false)
           [mkPos 6 3; mkPos 6 4; mkPos 7 3; mkPos 7 2] (mkPos 7 6)).
  - vm_compute. reflexivity.
  - reflexivity.
  - reflexivity.
  - vm_compute. reflexivity.
Defined.

(** On [castlingBoard] the king is not in check and the rook on (0, 5)
    attacks (7, 5): of the two castling candidates the generator offers,
    only the queenside one is legal. *)
Example castling_kingside_through_check :
  getPieceMoves castlingBoard (mkPos 7 4) None false
  = Ret [mkPos 6 3; mkPos 6 4; mkPos 6 5; mkPos 7 3; mkPos 7 5;
         mkPos 7 6; mkPos 7 2]
  /\ getLegalMoves castlingBoard (mkPos 7 4) None
     = Ret [mkPos 6 3; mkPos 6 4; mkPos 7 3; mkPos 7 2]
  /\ isKingInCheck castlingBoard white = Ret false
  /\ (let* sb := stepBoard castlingBoard (mkPos 7 4) (man KING white false)
                           (mkPos 7 6) in
      isKingInCheck sb white) = Ret true.
Proof. repeat split; vm_compute; reflexivity. Qed.

Lemma king_castling_destinations_witness :
  exists steps kingside queenside,
    kingSteps castlingBoard (man KING white false) 7 4 = Ret steps
    /\ getPieceMoves castlingBoard (mkPos 7 4) None false
       = Ret (pushIf (pushIf steps kingside 7 6) queenside 7 2)
    /\ (kingside = true <->
        unmovedRookAt castlingBoard 7 7
        /\ cell castlingBoard 7 5 = Ret None /\ cell castlingBoard 7 6 = Ret None)
    /\ (queenside = true <->
        unmovedRookAt castlingBoard 7 0
        /\ cell castlingBoard 7 1 = Ret None /\ cell castlingBoard 7 2 = Ret None
        /\ cell castlingBoard 7 3 = Ret None)
    /\ (4 = 4 ->
        (mkPos 7 6 ∈ pushIf (pushIf steps kingside 7 6) queenside 7 2
         <-> unmovedRookAt castlingBoard 7 7
             /\ forall c, 4 < c < 7 -> cell castlingBoard 7 c = Ret None)
        /\ (mkPos 7 2 ∈ pushIf (pushIf steps kingside 7 6) queenside 7 2
            <-> unmovedRookAt castlingBoard 7 0
                /\ forall c, 0 < c < 4 -> cell castlingBoard 7 c = Ret None)).
Proof.
  apply (king_castling_destinations castlingBoard (mkPos 7 4) None
           (man KING white false)).
  - reflexivity.
  - vm_compute. reflexivity.
  - reflexivity.
  - reflexivity.
Defined.

Lemma pawn_double_step_iff_witness :
  exists l,
    getPieceMoves strayPawnBoard (mkPos 4 2) None false = Ret l
    /\ (mkPos (4 + 2 * -1) 2 ∈ l
        <-> (isWithinBoard (4 + -1) 2 = true
             /\ cell strayPawnBoard (4 + -1) 2 = Ret None)
            /\ (isWithinBoard (4 + 2 * -1) 2 = true
                /\ cell strayPawnBoard (4 + 2 * -1) 2 = Ret None)
            /\ hasMoved (man PAWN white false) = false).
Proof.
  apply (pawn_double_step_iff strayPawnBoard (mkPos 4 2) None false
           (man PAWN white false)).
  - reflexivity.
  - vm_compute. reflexivity.
  - reflexivity.
Defined.

Lemma destinations_within_board_or_en_passant_witness :
  (forall ic l, getPieceMoves crowdedBoard (mkPos 4 3) (Some crowdedLastMove) ic = Ret l ->
     forall m, m ∈ l ->
       onBoard m
       \/ enPassantSquare crowdedBoard (mkPos 4 3) (Some crowdedLastMove) = Some m)
  /\ (forall l, getLegalMoves crowdedBoard (mkPos 4 3) (Some crowdedLastMove) = Ret l ->
     forall m, m ∈ l ->
       onBoard m
       \/ enPassantSquare crowdedBoard (mkPos 4 3) (Some crowdedLastMove) = Some m)
  /\ (Some crowdedLastMove = None ->
      forall ic l, getPieceMoves crowdedBoard (mkPos 4 3) (Some crowdedLastMove) ic = Ret l ->
                   Forall onBoard l).
Proof.
  apply (destinations_within_board_or_en_passant crowdedBoard (mkPos 4 3)
           (Some crowdedLastMove)).
  reflexivity.
Defined.

Lemma isKingInCheck_without_king_witness :
  findKing kinglessBoard black = Ret (mkPos (-1) (-1))
  /\ isKingInCheck kinglessBoard black = Ret false.
Proof.
  apply (isKingInCheck_without_king kinglessBoard black).
  - reflexivity.
  - intros r c k Hr Hc H [Hk Hcol].
    assert (r = 0 \/ r = 1 \/ r = 2 \/ r = 3 \/ r = 4 \/ r = 5 \/ r = 6 \/ r = 7)
      as Hr' by lia.
    assert (c = 0 \/ c = 1 \/ c = 2 \/ c = 3 \/ c = 4 \/ c = 5 \/ c = 6 \/ c = 7)
      as Hc' by lia.
    repeat destruct Hr' as [->|Hr']; try subst r;
      repeat destruct Hc' as [->|Hc']; try subst c;
      vm_compute in H; try discriminate;
      injection H as <-; discriminate.
Defined.

Lemma getAlgebraicNotation_notate_witness :
  getAlgebraicNotation (mkPos 3 7) (mkPos 1 5) (man QUEEN white true) true true true
  = notate (mkPos 3 7) (mkPos 1 5) (man QUEEN white true) true true true
  /\ (type (man QUEEN white true) = KING -> 5 = 7 + 2 ->
      getAlgebraicNotation (mkPos 3 7) (mkPos 1 5) (man QUEEN white true) true true true
      = "O-O"%string)
  /\ (type (man QUEEN white true) = KING -> 5 = 7 - 2 ->
      getAlgebraicNotation (mkPos 3 7) (mkPos 1 5) (man QUEEN white true) true true true
      = "O-O-O"%string).
Proof.
  apply (getAlgebraicNotation_notate (mkPos 3 7) (mkPos 1 5)
           (man QUEEN white true) true true true).
  intros _. simpl. lia.
Defined.

Lemma executeMove_terminal_status_witness :
  currentPlayer backRankNext = opponent (currentPlayer backRankState)
  /\ exists mv check moves,
       lastMove backRankNext = Some mv
       /\ from mv = mkPos 7 0 /\ to mv = mkPos 0 0
       /\ isKingInCheck (board backRankNext) (currentPlayer backRankNext) = Ret check
       /\ getAllLegalMoves (board backRankNext) (currentPlayer backRankNext)
            (Some (justPlayed mv)) = Ret moves
       /\ (moves = [] -> check = true ->
           status backRankNext = CHECKMATE
           /\ winner backRankNext = Some (side (currentPlayer backRankState)))
       /\ (moves = [] -> check = false ->
           status backRankNext = STALEMATE /\ winner backRankNext = Some draw)
       /\ (moves <> [] -> status backRankNext = PLAYING /\ winner backRankNext = None).
Proof.
  apply (executeMove_terminal_status backRankState backRankNext
           (mkPos 7 0) (mkPos 0 0) None).
  vm_compute. reflexivity.
Defined.

(** The rook's move ends the game of [backRankState]. *)
Example backRank_checkmate :
  status backRankNext = CHECKMATE
  /\ winner backRankNext = Some (side white)
  /\ (notation <$> history backRankNext) = ["Ra8#"%string].
Proof. repeat split; reflexivity. Qed.

(** ** The games of the specification, replayed *)

Example scholars_mate :
  omap (fun s => (status s, winner s, notation <$> history s))
       (playMoves newGame scholarsMate)
  = Ret (CHECKMATE, Some (side white),
         ["e4"; "e5"; "Bc4"; "Nc6"; "Qh5"; "Nf6"; "Qxf7#"]%string)
  /\ (let* s := playMoves newGame scholarsMate in
      let* moves := getAllLegalMoves (board s) black (lastMove s) in
      let* check := isKingInCheck (board s) black in
      Ret (moves, check)) = Ret ([], true).
Proof. split; vm_compute; reflexivity. Qed.

Example en_passant_capture :
  (let* s := executeMove enPassantState (mkPos 6 4) (mkPos 4 4) None in
   getLegalMoves (board s) (mkPos 4 3) (lastMove s))
  = Ret [mkPos 5 3; mkPos 5 4]
  /\ (let* s := executeMove enPassantState (mkPos 6 4) (mkPos 4 4) None in
      let* s := executeMove s (mkPos 4 3) (mkPos 5 4) None in
      let* taken := cell (board s) 4 4 in
      let* arrived := cell (board s) 5 4 in
      Ret (taken, type <$> arrived, lastMove s ≫= isEnPassant,
           notation <$> lastMove s))
     = Ret (None, Some PAWN, Some true, Some "dxe3"%string).
Proof. split; vm_compute; reflexivity. Qed.

Example kingside_castle :
  getLegalMoves (board castleState) (mkPos 7 4) None
  = Ret [mkPos 6 3; mkPos 6 4; mkPos 6 5; mkPos 7 3; mkPos 7 5; mkPos 7 6]
  /\ (let* s := executeMove castleState (mkPos 7 4) (mkPos 7 6) None in
      let* k := cell (board s) 7 6 in
      let* r := cell (board s) 7 5 in
      let* corner := cell (board s) 7 7 in
      Ret (type <$> k, type <$> r, corner, notation <$> lastMove s))
     = Ret (Some KING, Some ROOK, None, Some "O-O"%string).
Proof. split; vm_compute; reflexivity. Qed.

Example stalemate_fixture :
  omap (fun s => (status s, winner s))
       (executeMove stalemateState (mkPos 2 2) (mkPos 1 2) None)
  = Ret (STALEMATE, Some draw).
Proof. vm_compute. reflexivity. Qed.

(** * Further properties of the engine *)

(** ** What each push adds *)

Lemma negb_Color_eqb (a b : Color) : negb (Color_eqb a b) = true <-> a <> b.
Proof. destruct a, b; simpl; split; congruence. Qed.

Lemma elem_of_snoc (moves : list Position) (x m : Position) :
  m ∈ moves ++ [x] <-> m ∈ moves \/ m = x.
Proof. by rewrite elem_of_app, list_elem_of_singleton. Qed.

Lemma addIfEmpty_inv (b : Board) (moves moves' : list Position) (r c : Z)
    (ok : bool) :
  addIfEmpty b moves r c = Ret (ok, moves') ->
  (ok = true <-> isWithinBoard r c = true /\ cell b r c = Ret None)
  /\ forall m, m ∈ moves' <-> m ∈ moves \/ (ok = true /\ m = mkPos r c).
Proof.
  unfold addIfEmpty. intros H.
  destruct (isWithinBoard r c) eqn:Hw.
  - apply bind_Ret in H as (t & Ht & H).
    destruct t; injection H as <- <-.
    + split; [intuition congruence|]. intros m. intuition congruence.
    + split; [done|]. intros m. rewrite elem_of_snoc. intuition.
  - injection H as <- <-. split; [intuition congruence|].
    intros m. intuition congruence.
Qed.

Lemma addIfEnemy_inv (b : Board) (pc : Piece) (moves moves' : list Position)
    (r c : Z) (ok : bool) :
  addIfEnemy b pc moves r c = Ret (ok, moves') ->
  (ok = true <-> isWithinBoard r c = true /\ enemyAt b pc r c)
  /\ forall m, m ∈ moves' <-> m ∈ moves \/ (ok = true /\ m = mkPos r c).
Proof.
  unfold addIfEnemy, enemyAt. intros H.
  destruct (isWithinBoard r c) eqn:Hw.
  - apply bind_Ret in H as (t & Ht & H).
    destruct t as [t|].
    + destruct (negb (Color_eqb (color t) (color pc))) eqn:E;
        injection H as <- <-.
      * apply negb_Color_eqb in E.
        split; [split; [intros _; split; [done|]; by exists t | done]|].
        intros m. rewrite elem_of_snoc. intuition.
      * split.
        -- split; [done|]. intros (_ & t' & Ht' & Hne).
           rewrite Ht in Ht'. injection Ht' as <-.
           apply negb_Color_eqb in Hne. congruence.
        -- intros m. intuition congruence.
    + injection H as <- <-. split.
      * split; [done|]. intros (_ & t' & Ht' & _). congruence.
      * intros m. intuition congruence.
  - injection H as <- <-. split; [|intros m; intuition congruence].
    split; [done | intros []; congruence].
Qed.

Lemma addUnlessFriend_inv (b : Board) (pc : Piece)
    (moves moves' : list Position) (r c : Z) :
  addUnlessFriend b pc moves r c = Ret moves' ->
  forall m, m ∈ moves' <->
            m ∈ moves
            \/ (m = mkPos r c /\ isWithinBoard r c = true
                /\ vacantOrEnemy b pc r c).
Proof.
  unfold addUnlessFriend, vacantOrEnemy, enemyAt. intros H m.
  destruct (isWithinBoard r c) eqn:Hw.
  - apply bind_Ret in H as (t & Ht & H).
    destruct t as [t|].
    + destruct (negb (Color_eqb (color t) (color pc))) eqn:E;
        injection H as <-.
      * apply negb_Color_eqb in E. rewrite elem_of_snoc. split.
        -- intros [|]; eauto 8.
        -- intros [|[]]; auto.
      * split; [auto|].
        intros [|(_ & _ & [Ht' | (t' & Ht' & Hne)])]; [done|congruence|].
        rewrite Ht in Ht'. injection Ht' as <-.
        apply negb_Color_eqb in Hne. congruence.
    + injection H as <-. rewrite elem_of_snoc. intuition.
  - injection H as <-. intuition congruence.
Qed.

(** The elements a loop of pushes leaves in its accumulator. *)
Lemma foldM_elems {A B : Type}
    (f : list B -> A -> Outcome (list B))
    (P : A -> B -> Prop) (ds : list A) :
  (forall moves d moves', d ∈ ds -> f moves d = Ret moves' ->
     forall m, m ∈ moves' <-> m ∈ moves \/ P d m) ->
  forall acc l, foldM f acc ds = Ret l ->
  forall m, m ∈ l <-> m ∈ acc \/ exists d, d ∈ ds /\ P d m.
Proof.
  induction ds as [|d ds IH]; intros Hf acc l H m; simpl in H.
  - injection H as <-. split; [auto|].
    intros [|(d & Hd & _)]; [done | by apply elem_of_nil in Hd].
  - apply bind_Ret in H as (acc' & Hd & H).
    rewrite (IH (fun moves d' moves' Hin => Hf moves d' moves' (list_elem_of_further _ _ _ Hin))
               acc' l H m).
    rewrite (Hf acc d acc' (list_elem_of_here _ _) Hd m). split.
    + intros [[|]|(d' & Hd' & HP)]; eauto.
      * right. exists d. split; [by left | done].
      * right. exists d'. split; [by right | done].
    + intros [|(d' & Hd' & HP)]; [auto|].
      apply elem_of_cons in Hd' as [->|Hd']; eauto.
Qed.

(** ** The knight *)

Lemma kMoves_spec (dr dc : Z) :
  (dr, dc) ∈ kMoves <->
  (Z.abs dr = 1 /\ Z.abs dc = 2) \/ (Z.abs dr = 2 /\ Z.abs dc = 1).
Proof.
  rewrite list_elem_of_In. unfold kMoves. simpl. split.
  - intros H. repeat destruct H as [[= <- <-]|H]; try done; lia.
  - intros [[Hr Hc]|[Hr Hc]].
    + assert (dr = 1 \/ dr = -1) as [-> | ->] by lia;
        assert (dc = 2 \/ dc = -2) as [-> | ->] by lia; tauto.
    + assert (dr = 2 \/ dr = -2) as [-> | ->] by lia;
        assert (dc = 1 \/ dc = -1) as [-> | ->] by lia; tauto.
Qed.

Lemma knightMoves_elems (b : Board) (kn : Piece) (p : Position)
    (l : list Position) :
  knightMoves b kn (row p) (col p) = Ret l ->
  forall m, m ∈ l <->
            knightJump p m /\ onBoard m
            /\ vacantOrEnemy b kn (row m) (col m).
Proof.
  intros H m. unfold knightMoves in H.
  pose proof (fun Hstep =>
    foldM_elems _
      (fun d m => m = mkPos (row p + fst d) (col p + snd d)
                  /\ onBoard m /\ vacantOrEnemy b kn (row m) (col m))
      kMoves Hstep [] l H m) as E.
  rewrite E; clear E.
  - rewrite elem_of_nil. unfold knightJump. split.
    + intros [[]|([dr dc] & Hd & -> & Hon & Hv)]. simpl in *.
      apply kMoves_spec in Hd. split; [|done].
      replace (row p + dr - row p) with dr by lia.
      replace (col p + dc - col p) with dc by lia. done.
    + intros (Hj & Hon & Hv). right.
      exists (row m - row p, col m - col p). split; [by apply kMoves_spec|].
      simpl. split; [|done]. destruct m as [mr mc]. simpl. f_equal; lia.
  - intros moves [dr dc] moves' _ Hf m0.
    rewrite (addUnlessFriend_inv _ _ _ _ _ _ Hf m0). simpl. unfold onBoard.
    split; (intros [|(-> & ? & ?)]; [by left | by right]).
Qed.

(** X1.  The destinations of a knight are exactly the squares a knight's jump
    away that are on the board and not held by a piece of its colour. *)
Theorem knight_destinations (b : Board) (p : Position) (lm : option Move)
    (ic : bool) (kn : Piece) (l : list Position) :
  cell b (row p) (col p) = Ret (Some kn) ->
  type kn = KNIGHT ->
  getPieceMoves b p lm ic = Ret l ->
  forall m, m ∈ l <->
            knightJump p m /\ onBoard m
            /\ vacantOrEnemy b kn (row m) (col m).
Proof.
  intros Hc Ht H. unfold getPieceMoves in H. rewrite Hc in H. simpl in H.
  rewrite Ht in H. by apply knightMoves_elems.
Qed.

(** ** The king's single steps *)

Lemma kingOffsets_spec (dr dc : Z) :
  (dr, dc) ∈ kingOffsets <-> -1 <= dr <= 1 /\ -1 <= dc <= 1.
Proof.
  rewrite list_elem_of_In.
  change kingOffsets with
    [(-1, -1); (-1, 0); (-1, 1); (0, -1); (0, 0); (0, 1); (1, -1); (1, 0); (1, 1)].
  simpl. split.
  - intros H. repeat destruct H as [[= <- <-]|H]; try done.
  - intros [Hr Hc].
    assert (dr = -1 \/ dr = 0 \/ dr = 1) as [-> | [-> | ->]] by lia;
      assert (dc = -1 \/ dc = 0 \/ dc = 1) as [-> | [-> | ->]] by lia; tauto.
Qed.

Lemma kingSteps_elems (b : Board) (k : Piece) (p : Position)
    (steps : list Position) :
  kingSteps b k (row p) (col p) = Ret steps ->
  forall m, m ∈ steps <->
            adjacent p m /\ onBoard m /\ vacantOrEnemy b k (row m) (col m).
Proof.
  intros H m. unfold kingSteps in H.
  pose proof (fun Hstep =>
    foldM_elems _
      (fun d m => d <> (0, 0)
                  /\ m = mkPos (row p + fst d) (col p + snd d)
                  /\ onBoard m /\ vacantOrEnemy b k (row m) (col m))
      kingOffsets Hstep [] steps H m) as E.
  rewrite E; clear E.
  - rewrite elem_of_nil. unfold adjacent. split.
    + intros [[]|([dr dc] & Hd & Hnz & -> & Hon & Hv)]. simpl in *.
      apply kingOffsets_spec in Hd. split; [|done].
      split; [lia|]. split; [lia|]. intros E. apply Hnz.
      destruct p as [pr pc]. simpl in *. injection E as E1 E2.
      f_equal; lia.
    + intros ((Hr & Hcl & Hne) & Hon & Hv). right.
      exists (row m - row p, col m - col p). split.
      { apply kingOffsets_spec. lia. }
      simpl. split.
      { intros [= E1 E2]. apply Hne. destruct m, p. simpl in *. f_equal; lia. }
      split; [|done]. destruct m as [mr mc]. simpl. f_equal; lia.
  - intros moves [dr dc] moves' _ Hf m0. simpl.
    destruct ((dr =? 0) && (dc =? 0)) eqn:E.
    + injection Hf as <-. apply andb_true_iff in E as [E1 E2].
      apply Z.eqb_eq in E1, E2. subst. split; [auto|].
      intros [|(Hnz & _)]; [done | by destruct Hnz].
    + rewrite (addUnlessFriend_inv _ _ _ _ _ _ Hf m0). unfold onBoard.
      assert ((dr, dc) <> (0, 0)).
      { intros [= -> ->]. done. }
      split.
      * intros [|(-> & ? & ?)]; [by left | by right].
      * intros [|(_ & -> & ? & ?)]; [by left | by right].
Qed.

(** X2.  With castling ignored, the destinations of a king are exactly the
    adjacent squares that are on the board and not held by a piece of
    its colour. *)
Theorem king_step_destinations (b : Board) (p : Position) (lm : option Move)
    (k : Piece) (l : list Position) :
  cell b (row p) (col p) = Ret (Some k) ->
  type k = KING ->
  getPieceMoves b p lm true = Ret l ->
  forall m, m ∈ l <->
            adjacent p m /\ onBoard m /\ vacantOrEnemy b k (row m) (col m).
Proof.
  intros Hc Ht H m. unfold getPieceMoves in H. rewrite Hc in H. simpl in H.
  rewrite Ht in H. unfold kingMoves in H.
  apply bind_Ret in H as (steps & Hs & H).
  rewrite andb_false_r in H. injection H as <-.
  by apply kingSteps_elems.
Qed.

(** ** Sliding pieces *)

(** What the ray loop pushes: the squares from its start up to the
    first piece, that piece's square included when it is an enemy. *)
Lemma slide_elems (b : Board) (pc : Piece) (dr dc : Z) :
  unitStep (dr, dc) ->
  forall fuel nr nc moves l,
    (isWithinBoard nr nc = true -> remaining dr dc nr nc <= Z.of_nat fuel) ->
    slide fuel b pc dr dc nr nc moves = Ret l ->
    forall m, m ∈ l <->
      m ∈ moves
      \/ exists k, 0 <= k /\ m = mkPos (nr + k * dr) (nc + k * dc)
           /\ (forall j, 0 <= j < k ->
                 isWithinBoard (nr + j * dr) (nc + j * dc) = true
                 /\ cell b (nr + j * dr) (nc + j * dc) = Ret None)
           /\ onBoard m /\ vacantOrEnemy b pc (row m) (col m).
Proof.
  intros Hd. induction fuel as [|fuel IH]; intros nr nc moves l Hrem H m.
  - assert (Hout : isWithinBoard nr nc = false).
    { destruct (isWithinBoard nr nc) eqn:Hw; [|done]. simpl in H.
      rewrite Hw in H. discriminate. }
    simpl in H. rewrite Hout in H. injection H as <-. split; [auto|].
    intros [|(k & Hk & -> & Hj & Hon & _)]; [done|]. exfalso.
    destruct (decide (k = 0)) as [-> | Hnz0].
    + unfold onBoard in Hon. simpl in Hon.
      replace (nr + 0 * dr) with nr in Hon by lia.
      replace (nc + 0 * dc) with nc in Hon by lia. congruence.
    + destruct (Hj 0) as [Hw _]; [lia|].
      replace (nr + 0 * dr) with nr in Hw by lia.
      replace (nc + 0 * dc) with nc in Hw by lia. congruence.
  - simpl in H. destruct (isWithinBoard nr nc) eqn:Hw.
    2: { injection H as <-. split; [auto|].
         intros [|(k & Hk & -> & Hj & Hon & _)]; [done|]. exfalso.
         destruct (decide (k = 0)) as [-> | Hnz0].
         + unfold onBoard in Hon. simpl in Hon.
           replace (nr + 0 * dr) with nr in Hon by lia.
           replace (nc + 0 * dc) with nc in Hon by lia. congruence.
         + destruct (Hj 0) as [Hw' _]; [lia|].
           replace (nr + 0 * dr) with nr in Hw' by lia.
           replace (nc + 0 * dc) with nc in Hw' by lia. congruence. }
    apply bind_Ret in H as (t & Ht & H). destruct t as [t|].
    + (* the ray stops on a piece *)
      injection H as <-. split.
      * intros Hm.
        destruct (negb (Color_eqb (color t) (color pc))) eqn:E; [|auto].
        apply elem_of_snoc in Hm as [? | ->]; [auto|]. right. exists 0.
        split; [lia|]. split; [f_equal; lia|]. split; [intros; lia|].
        split; [done|]. right. exists t. split; [done|].
        by apply negb_Color_eqb.
      * intros [Hm|(k & Hk & -> & Hj & Hon & Hv)].
        { destruct (negb (Color_eqb (color t) (color pc))); [|done].
          apply elem_of_snoc. auto. }
        destruct (decide (k = 0)) as [-> | Hnz0].
        -- simpl in Hv.
           replace (nr + 0 * dr) with nr in * by lia.
           replace (nc + 0 * dc) with nc in * by lia.
           destruct Hv as [Hv|(t' & Ht' & Hne)]; [congruence|].
           rewrite Ht in Ht'. injection Ht' as <-.
           apply negb_Color_eqb in Hne. rewrite Hne.
           apply elem_of_snoc. right. f_equal; lia.
        -- destruct (Hj 0) as [_ Hc0]; [lia|].
           replace (nr + 0 * dr) with nr in Hc0 by lia.
           replace (nc + 0 * dc) with nc in Hc0 by lia. congruence.
    + (* the square is empty: push it and go on *)
      assert (Hnext : isWithinBoard (nr + dr) (nc + dc) = true ->
                      remaining dr dc (nr + dr) (nc + dc) <= Z.of_nat fuel).
      { intros Hw'. pose proof (Hrem eq_refl) as Hr.
        destruct Hd as (Hdr & Hdc & Hnz).
        simpl in *. apply isWithinBoard_spec in Hw, Hw'.
        unfold remaining in *.
        destruct (dr =? 1) eqn:E1; [apply Z.eqb_eq in E1; lia|].
        destruct (dr =? -1) eqn:E2; [apply Z.eqb_eq in E2; lia|].
        apply Z.eqb_neq in E1, E2.
        destruct (dc =? 1) eqn:E3; [apply Z.eqb_eq in E3; lia|].
        apply Z.eqb_neq in E3. lia. }
      rewrite (IH _ _ _ _ Hnext H m); clear IH.
      rewrite elem_of_snoc. split.
      * intros [[? | ->]|(k & Hk & -> & Hj & Hon & Hv)]; [auto| |].
        -- right. exists 0. split; [lia|]. split; [f_equal; lia|].
           split; [intros; lia|]. split; [done|]. by left.
        -- right. exists (k + 1). split; [lia|]. split; [f_equal; lia|].
           split; [|split].
           ++ intros j Hjk. destruct (decide (j = 0)) as [-> | Hnz0].
              ** replace (nr + 0 * dr) with nr by lia.
                 replace (nc + 0 * dc) with nc by lia. done.
              ** destruct (Hj (j - 1)) as [H1 H2]; [lia|].
                 replace (nr + dr + (j - 1) * dr) with (nr + j * dr) in * by lia.
                 replace (nc + dc + (j - 1) * dc) with (nc + j * dc) in * by lia.
                 done.
           ++ unfold onBoard in *. simpl in *.
              replace (nr + (k + 1) * dr) with (nr + dr + k * dr) by lia.
              replace (nc + (k + 1) * dc) with (nc + dc + k * dc) by lia. done.
           ++ simpl in *.
              replace (nr + (k + 1) * dr) with (nr + dr + k * dr) by lia.
              replace (nc + (k + 1) * dc) with (nc + dc + k * dc) by lia. done.
      * intros [|(k & Hk & -> & Hj & Hon & Hv)]; [auto|].
        destruct (decide (k = 0)) as [-> | Hnz0].
        -- left. right. f_equal; lia.
        -- right. exists (k - 1). split; [lia|]. split; [f_equal; lia|].
           split; [|split].
           ++ intros j Hjk. destruct (Hj (j + 1)) as [H1 H2]; [lia|].
              replace (nr + (j + 1) * dr) with (nr + dr + j * dr) in * by lia.
              replace (nc + (j + 1) * dc) with (nc + dc + j * dc) in * by lia.
              done.
           ++ unfold onBoard in *. simpl in *.
              replace (nr + dr + (k - 1) * dr) with (nr + k * dr) by lia.
              replace (nc + dc + (k - 1) * dc) with (nc + k * dc) by lia. done.
           ++ simpl in *.
              replace (nr + dr + (k - 1) * dr) with (nr + k * dr) by lia.
              replace (nc + dc + (k - 1) * dc) with (nc + k * dc) by lia. done.
Qed.

Lemma sliderMoves_elems (b : Board) (pc : Piece) (p : Position)
    (l : list Position) :
  sliderMoves b pc (row p) (col p) = Ret l ->
  forall m, m ∈ l <->
            exists d, d ∈ directions (type pc) /\ clearRay b p d m
                      /\ onBoard m /\ vacantOrEnemy b pc (row m) (col m).
Proof.
  intros Hs m. unfold sliderMoves in Hs.
  pose proof (fun Hstep =>
    foldM_elems _
      (fun d m => clearRay b p d m /\ onBoard m
                  /\ vacantOrEnemy b pc (row m) (col m))
      (directions (type pc)) Hstep [] l Hs m) as E.
  rewrite E; clear E.
  - rewrite elem_of_nil. split; [intros [[]|]; done | auto].
  - intros moves [dr dc] moves' Hd Hf m0.
    apply directions_unitStep in Hd.
    assert (Hfuel : isWithinBoard (row p + dr) (col p + dc) = true ->
                    remaining dr dc (row p + dr) (col p + dc)
                    <= Z.of_nat slideFuel).
    { intros Hw. apply isWithinBoard_spec in Hw.
      unfold remaining, slideFuel.
      destruct (dr =? 1); [lia|]. destruct (dr =? -1); [lia|].
      destruct (dc =? 1); lia. }
    rewrite (slide_elems b pc dr dc Hd _ _ _ _ _ Hfuel Hf m0).
    unfold clearRay, stepsFrom. simpl. split.
    + intros [|(k & Hk & -> & Hj & Hon & Hv)]; [auto|]. right.
      split; [|split].
      * exists (k + 1). split; [lia|]. split; [f_equal; lia|].
        intros j Hjk. destruct (Hj (j - 1)) as [H1 H2]; [lia|].
        unfold onBoard. simpl.
        replace (row p + dr + (j - 1) * dr) with (row p + j * dr) in * by lia.
        replace (col p + dc + (j - 1) * dc) with (col p + j * dc) in * by lia.
        done.
      * done.
      * done.
    + intros [|((k & Hk & -> & Hj) & Hon & Hv)]; [auto|]. right.
      exists (k - 1). split; [lia|]. split; [f_equal; lia|].
      split; [|split].
      * intros j Hjk. destruct (Hj (j + 1)) as [H1 H2]; [lia|].
        unfold onBoard in H1. simpl in *.
        replace (row p + (j + 1) * dr) with (row p + dr + j * dr) in * by lia.
        replace (col p + (j + 1) * dc) with (col p + dc + j * dc) in * by lia.
        done.
      * unfold onBoard in *. simpl in *.
        replace (row p + dr + (k - 1) * dr) with (row p + k * dr) by lia.
        replace (col p + dc + (k - 1) * dc) with (col p + k * dc) by lia. done.
      * simpl in *.
        replace (row p + dr + (k - 1) * dr) with (row p + k * dr) by lia.
        replace (col p + dc + (k - 1) * dc) with (col p + k * dc) by lia. done.
Qed.

(** X3.  A bishop, a rook or a queen reaches exactly the squares that lie
    along one of its directions behind empty squares only, and that are
    empty or held by an enemy: it never jumps over a piece and never
    goes past the first piece it meets. *)
Theorem slider_destinations (b : Board) (p : Position) (lm : option Move)
    (ic : bool) (pc : Piece) (l : list Position) :
  cell b (row p) (col p) = Ret (Some pc) ->
  type pc = BISHOP \/ type pc = ROOK \/ type pc = QUEEN ->
  getPieceMoves b p lm ic = Ret l ->
  forall m, m ∈ l <->
            exists d, d ∈ directions (type pc) /\ clearRay b p d m
                      /\ onBoard m /\ vacantOrEnemy b pc (row m) (col m).
Proof.
  intros Hc Ht H. unfold getPieceMoves in H. rewrite Hc in H. simpl in H.
  apply sliderMoves_elems. by destruct Ht as [E|[E|E]]; rewrite E in H.
Qed.


(** ** The pawn, push by push *)

Lemma pawnMoves_elems (b : Board) (pw : Piece) (p : Position)
    (lm : option Move) (l : list Position) :
  cell b (row p) (col p) = Ret (Some pw) ->
  type pw = PAWN ->
  pawnMoves b pw (row p) (col p) lm = Ret l ->
  forall m, m ∈ l <->
    (m = mkPos (row p + forward (color pw)) (col p) /\ onBoard m
     /\ cell b (row m) (col m) = Ret None)
    \/ (m = mkPos (row p + 2 * forward (color pw)) (col p)
        /\ hasMoved pw = false
        /\ isWithinBoard (row p + forward (color pw)) (col p) = true
        /\ cell b (row p + forward (color pw)) (col p) = Ret None
        /\ onBoard m /\ cell b (row m) (col m) = Ret None)
    \/ (m = mkPos (row p + forward (color pw)) (col p - 1) /\ onBoard m
        /\ enemyAt b pw (row m) (col m))
    \/ (m = mkPos (row p + forward (color pw)) (col p + 1) /\ onBoard m
        /\ enemyAt b pw (row m) (col m))
    \/ enPassantSquare b p lm = Some m.
Proof.
  intros Hc Ht H m. unfold pawnMoves in H.
  apply bind_Ret in H as ([stepped m1] & H1 & H).
  apply bind_Ret in H as (m2 & H2 & H).
  apply bind_Ret in H as ([e1 m3] & H3 & H).
  apply bind_Ret in H as ([e2 m4] & H4 & H).
  injection H as <-.
  destruct (addIfEmpty_inv _ _ _ _ _ _ H1) as [Hok1 Hm1].
  destruct (addIfEnemy_inv _ _ _ _ _ _ _ H3) as [Hok3 Hm3].
  destruct (addIfEnemy_inv _ _ _ _ _ _ _ H4) as [Hok4 Hm4].
  assert (Hm2 : forall m, m ∈ m2 <->
            m ∈ m1
            \/ (m = mkPos (row p + 2 * forward (color pw)) (col p)
                /\ stepped = true /\ hasMoved pw = false
                /\ isWithinBoard (row p + 2 * forward (color pw)) (col p) = true
                /\ cell b (row p + 2 * forward (color pw)) (col p) = Ret None)).
  { intros x. destruct stepped, (hasMoved pw); simpl in H2;
      try (injection H2 as <-; intuition congruence).
    apply omap_Ret in H2 as ([ok m2'] & H2 & ->). simpl.
    destruct (addIfEmpty_inv _ _ _ _ _ _ H2) as [Hok2 Hm2].
    rewrite Hm2, Hok2. intuition. }
  assert (Hep : forall x, enPassantSquare b p lm = Some x <->
            exists lv, enPassantNow lm (row p) (col p) = Some lv
                       /\ x = mkPos (row p + forward (color pw)) (col (to lv))).
  { intros x. unfold enPassantSquare. rewrite Hc, Ht. simpl.
    destruct (enPassantNow lm (row p) (col p)) as [lv|].
    - split; [intros [= <-]; eauto | intros (lv' & [= <-] & ->); done].
    - split; [discriminate | by intros (? & [=] & _)]. }
  assert (Hbase : m ∈ m4 <->
    (m = mkPos (row p + forward (color pw)) (col p) /\ onBoard m
     /\ cell b (row m) (col m) = Ret None)
    \/ (m = mkPos (row p + 2 * forward (color pw)) (col p)
        /\ hasMoved pw = false
        /\ isWithinBoard (row p + forward (color pw)) (col p) = true
        /\ cell b (row p + forward (color pw)) (col p) = Ret None
        /\ onBoard m /\ cell b (row m) (col m) = Ret None)
    \/ (m = mkPos (row p + forward (color pw)) (col p - 1) /\ onBoard m
        /\ enemyAt b pw (row m) (col m))
    \/ (m = mkPos (row p + forward (color pw)) (col p + 1) /\ onBoard m
        /\ enemyAt b pw (row m) (col m))).
  { rewrite Hm4, Hm3, Hm2, Hm1, elem_of_nil, Hok1, Hok3, Hok4.
    unfold onBoard. split.
    - intros [[[[[]|[[? ?] ->]]|(-> & [? ?] & ? & ? & ?)]|[[? ?] ->]]|[[? ?] ->]];
        simpl; tauto.
    - intros [(-> & ? & ?)|[(-> & ? & ? & ? & ? & ?)|[(-> & ? & ?)|(-> & ? & ?)]]];
        simpl in *; tauto. }
  rewrite Hep.
  destruct (enPassantNow lm (row p) (col p)) as [lv|].
  - rewrite elem_of_snoc, Hbase. split.
    + intros [?| ->]; [tauto|]. do 4 right. eauto.
    + intros [?|[?|[?|[?|(lv' & [= <-] & ->)]]]]; tauto.
  - rewrite Hbase. split; [tauto|].
    intros [?|[?|[?|[?|(lv' & [=] & _)]]]]; tauto.
Qed.

(** X4.  A pawn's destinations are exactly: the empty square ahead; the empty
    square two rows ahead when the pawn has not moved and the square
    ahead is empty too; the two squares diagonally ahead when an enemy
    stands there; and the en passant square.  It never moves sideways or
    backwards. *)
Theorem pawn_destinations (b : Board) (p : Position) (lm : option Move)
    (ic : bool) (pw : Piece) (l : list Position) :
  cell b (row p) (col p) = Ret (Some pw) ->
  type pw = PAWN ->
  getPieceMoves b p lm ic = Ret l ->
  forall m, m ∈ l <->
    (m = mkPos (row p + forward (color pw)) (col p) /\ onBoard m
     /\ cell b (row m) (col m) = Ret None)
    \/ (m = mkPos (row p + 2 * forward (color pw)) (col p)
        /\ hasMoved pw = false
        /\ isWithinBoard (row p + forward (color pw)) (col p) = true
        /\ cell b (row p + forward (color pw)) (col p) = Ret None
        /\ onBoard m /\ cell b (row m) (col m) = Ret None)
    \/ (m = mkPos (row p + forward (color pw)) (col p - 1) /\ onBoard m
        /\ enemyAt b pw (row m) (col m))
    \/ (m = mkPos (row p + forward (color pw)) (col p + 1) /\ onBoard m
        /\ enemyAt b pw (row m) (col m))
    \/ enPassantSquare b p lm = Some m.
Proof.
  intros Hc Ht H. unfold getPieceMoves in H. rewrite Hc in H. simpl in H.
  rewrite Ht in H. by apply pawnMoves_elems.
Qed.

(** ** Castling is the only difference the flag makes *)

Lemma cell_same_row (b : Board) (r c c' : Z) (x : option Piece) :
  cell b r c = Ret x -> exists y, cell b r c' = Ret y.
Proof. intros H. apply cell_Ret. by eapply cell_Ret_inv. Qed.

Lemma castle_reads_return (b : Board) (r c : Z) (x : option Piece) :
  cell b r c = Ret x ->
  (exists k, castleKingside b r = Ret k)
  /\ (exists q, castleQueenside b r = Ret q).
Proof.
  intros H. unfold castleKingside, castleQueenside, andM, isEmptyAt.
  destruct (cell_same_row b r c 0 x H) as [x0 ->].
  destruct (cell_same_row b r c 1 x H) as [x1 ->].
  destruct (cell_same_row b r c 2 x H) as [x2 ->].
  destruct (cell_same_row b r c 3 x H) as [x3 ->].
  destruct (cell_same_row b r c 5 x H) as [x5 ->].
  destruct (cell_same_row b r c 6 x H) as [x6 ->].
  destruct (cell_same_row b r c 7 x H) as [x7 ->]. simpl.
  split.
  - destruct (isUnmovedRook x7); [|eauto].
    destruct (negb (bool_decide (is_Some x5))); eauto.
  - destruct (isUnmovedRook x0); [|eauto].
    destruct (negb (bool_decide (is_Some x1))); [|eauto].
    destruct (negb (bool_decide (is_Some x2))); eauto.
Qed.

(** X5.  The moves computed for attack detection ([ignoreCheck = true]) are
    the moves computed for the player with the castling squares taken
    off the end: on any board, whenever the first call returns, so does
    the second, and it returns the same list followed by at most
    (row, 6) and (row, 2), which only an unmoved king can get. *)
Theorem ignoreCheck_drops_only_castling (b : Board) (p : Position)
    (lm : option Move) (l : list Position) :
  getPieceMoves b p lm true = Ret l ->
  exists extra,
    getPieceMoves b p lm false = Ret (l ++ extra)
    /\ extra `sublist_of` [mkPos (row p) 6; mkPos (row p) 2]
    /\ (extra <> [] ->
        exists k, cell b (row p) (col p) = Ret (Some k)
                  /\ type k = KING /\ hasMoved k = false).
Proof.
  unfold getPieceMoves. intros H.
  apply bind_Ret in H as (x & Hc & H). rewrite Hc. simpl.
  destruct x as [pc|].
  2: { injection H as <-. exists []. split; [done|].
       split; [apply sublist_nil_l | done]. }
  destruct (type pc) eqn:Ht;
    try (exists []; rewrite app_nil_r; split; [done|];
         split; [apply sublist_nil_l | done]).
  unfold kingMoves in *. apply bind_Ret in H as (steps & Hs & H).
  rewrite andb_false_r in H. injection H as <-. rewrite Hs. simpl.
  destruct (hasMoved pc) eqn:Hm; simpl.
  { exists []. rewrite app_nil_r. split; [done|].
    split; [apply sublist_nil_l | done]. }
  destruct (castle_reads_return _ _ _ _ Hc) as [[k ->] [q ->]]. simpl.
  exists ((if k then [mkPos (row p) 6] else [])
          ++ (if q then [mkPos (row p) 2] else [])).
  split; [|split].
  - destruct k, q; simpl; by rewrite <- ?app_assoc, ?app_nil_r.
  - destruct k, q; simpl; repeat constructor.
  - intros _. eauto.
Qed.

(** ** No destination is the piece's own *)

(** X6.  A piece is never sent to its own square nor onto a piece of its own
    colour: every destination is empty or held by an enemy, the square
    of the en passant rule apart, which is pushed unseen. *)
Theorem destinations_never_friendly (b : Board) (p : Position)
    (lm : option Move) (ic : bool) (pc : Piece) (l : list Position)
    (m : Position) :
  cell b (row p) (col p) = Ret (Some pc) ->
  getPieceMoves b p lm ic = Ret l ->
  m ∈ l ->
  m <> p
  /\ (vacantOrEnemy b pc (row m) (col m) \/ enPassantSquare b p lm = Some m).
Proof.
  intros Hc H Hm.
  assert (Hv : vacantOrEnemy b pc (row m) (col m)
               \/ enPassantSquare b p lm = Some m).
  { unfold getPieceMoves in H. rewrite Hc in H. simpl in H.
    destruct (type pc) eqn:Ht.
    - apply (pawnMoves_elems _ _ _ _ _ Hc Ht H) in Hm.
      unfold vacantOrEnemy.
      destruct Hm as [(_ & _ & ?)|[(_ & _ & _ & _ & _ & ?)|[(_ & _ & ?)|[(_ & _ & ?)|?]]]];
        auto.
    - left. apply (sliderMoves_elems _ _ _ _ H) in Hm as (_ & _ & _ & _ & ?).
      done.
    - left. by apply (knightMoves_elems _ _ _ _ H) in Hm as (_ & _ & ?).
    - left. apply (sliderMoves_elems _ _ _ _ H) in Hm as (_ & _ & _ & _ & ?).
      done.
    - left. apply (sliderMoves_elems _ _ _ _ H) in Hm as (_ & _ & _ & _ & ?).
      done.
    - left. unfold kingMoves in H. apply bind_Ret in H as (steps & Hs & H).
      assert (Hsteps : m ∈ steps -> vacantOrEnemy b pc (row m) (col m)).
      { intros Hin. by apply (kingSteps_elems _ _ _ _ Hs) in Hin as (_ & _ & ?). }
      destruct (negb (hasMoved pc) && negb ic).
      2: { injection H as <-. auto. }
      apply bind_Ret in H as (k & Hk & H). apply bind_Ret in H as (q & Hq & H).
      injection H as <-.
      assert (Hks : k = true -> cell b (row p) 6 = Ret None).
      { intros ->. unfold castleKingside, andM, isEmptyAt in Hk.
        apply bind_Ret in Hk as (x7 & _ & Hk).
        destruct (isUnmovedRook x7); [|discriminate]. simpl in Hk.
        apply bind_Ret in Hk as (e5 & _ & Hk). destruct e5; [|discriminate].
        apply bind_Ret in Hk as (x6 & Hx6 & Hk). injection Hk as Hk.
        by destruct x6. }
      assert (Hqs : q = true -> cell b (row p) 2 = Ret None).
      { intros ->. unfold castleQueenside, andM, isEmptyAt in Hq.
        apply bind_Ret in Hq as (x0 & _ & Hq).
        destruct (isUnmovedRook x0); [|discriminate]. simpl in Hq.
        apply bind_Ret in Hq as (e1 & _ & Hq). destruct e1; [|discriminate].
        apply bind_Ret in Hq as (e2 & He2 & Hq). destruct e2; [|discriminate].
        apply bind_Ret in He2 as (x2 & Hx2 & He2). injection He2 as He2.
        by destruct x2. }
      destruct q; [apply elem_of_snoc in Hm as [Hm | ->]|].
      + destruct k; [apply elem_of_snoc in Hm as [Hm | ->]|]; auto.
        left. by apply Hks.
      + left. by apply Hqs.
      + destruct k; [apply elem_of_snoc in Hm as [Hm | ->]|]; auto.
        left. by apply Hks. }
  split; [|done]. intros ->.
  destruct Hv as [[Hv|(t & Ht & Hne)]|Hep]; [congruence| |].
  - rewrite Hc in Ht. injection Ht as <-. done.
  - unfold enPassantSquare in Hep. rewrite Hc in Hep.
    destruct (PieceType_eqb (type pc) PAWN); [|discriminate].
    destruct (enPassantNow lm (row p) (col p)); [|discriminate].
    injection Hep as Hep. destruct p as [pr pcl]. simpl in *.
    injection Hep as E _. destruct (forward_cases (color pc)); lia.
Qed.


(** ** Scanning the board *)

Lemma allSquares_spec (r c : Z) :
  (r, c) ∈ allSquares <-> isWithinBoard r c = true.
Proof.
  split.
  - intros H. exact (Forall_elem _ _ _ allSquares_within H).
  - intros H. apply isWithinBoard_spec in H as [Hr Hc].
    assert (r = 0 \/ r = 1 \/ r = 2 \/ r = 3 \/ r = 4 \/ r = 5 \/ r = 6 \/ r = 7)
      as Hr' by lia.
    assert (c = 0 \/ c = 1 \/ c = 2 \/ c = 3 \/ c = 4 \/ c = 5 \/ c = 6 \/ c = 7)
      as Hc' by lia.
    apply list_elem_of_In.
    repeat destruct Hr' as [->|Hr']; try subst r;
      repeat destruct Hc' as [->|Hc']; try subst c;
      vm_compute; tauto.
Qed.

Lemma findKingFrom_spec (b : Board) (c0 : Color) (sqs : list (Z * Z))
    (k : Position) :
  findKingFrom b c0 sqs = Ret k ->
  (k = mkPos (-1) (-1)
   /\ forall r c, (r, c) ∈ sqs ->
        exists x, cell b r c = Ret x /\ isKingOf c0 x = false)
  \/ (exists pre post x,
        sqs = pre ++ (row k, col k) :: post
        /\ cell b (row k) (col k) = Ret x /\ isKingOf c0 x = true
        /\ forall r c, (r, c) ∈ pre ->
             exists y, cell b r c = Ret y /\ isKingOf c0 y = false).
Proof.
  revert k. induction sqs as [|[r c] sqs IH]; intros k H; simpl in H.
  - injection H as <-. left. split; [done|]. intros r c Hin.
    by apply elem_of_nil in Hin.
  - apply bind_Ret in H as (x & Hx & H).
    destruct (isKingOf c0 x) eqn:Ek.
    + injection H as <-. right. exists [], sqs, x. simpl.
      split; [done|]. split; [done|]. split; [done|].
      intros r' c' Hin. by apply elem_of_nil in Hin.
    + destruct (IH k H) as [[-> Hall]|(pre & post & y & -> & Hy & Hk & Hpre)].
      * left. split; [done|]. intros r' c' Hin.
        apply elem_of_cons in Hin as [[= -> ->]|Hin]; eauto.
      * right. exists ((r, c) :: pre), post, y. split; [done|].
        split; [done|]. split; [done|]. intros r' c' Hin.
        apply elem_of_cons in Hin as [[= -> ->]|Hin]; eauto.
Qed.

(** X7.  [findKing] answers (-1, -1) exactly when none of the 64 squares
    holds a king of the colour; otherwise it answers the first square,
    in the order of the scan, that holds one. *)
Theorem findKing_first_king (b : Board) (c0 : Color) (k : Position) :
  findKing b c0 = Ret k ->
  (k = mkPos (-1) (-1)
   /\ forall r c kg, isWithinBoard r c = true ->
        cell b r c = Ret (Some kg) -> ~ (type kg = KING /\ color kg = c0))
  \/ (onBoard k
      /\ (exists kg, cell b (row k) (col k) = Ret (Some kg)
                     /\ type kg = KING /\ color kg = c0)
      /\ exists pre post,
           allSquares = pre ++ (row k, col k) :: post
           /\ forall r c kg, (r, c) ∈ pre ->
                cell b r c = Ret (Some kg) ->
                ~ (type kg = KING /\ color kg = c0)).
Proof.
  intros H. unfold findKing in H.
  destruct (findKingFrom_spec _ _ _ _ H)
    as [[-> Hall]|(pre & post & x & Hsq & Hx & Hk & Hpre)].
  - left. split; [done|]. intros r c kg Hw Hc [Ht Hcol].
    destruct (Hall r c) as (x & Hx & Hk); [by apply allSquares_spec|].
    rewrite Hc in Hx. injection Hx as <-.
    assert (isKingOf c0 (Some kg) = true) by (apply isKingOf_true; eauto).
    congruence.
  - right. split; [|split].
    + apply allSquares_spec. rewrite Hsq. apply elem_of_app. right. by left.
    + apply isKingOf_true in Hk as (kg & -> & Ht & Hcol). eauto.
    + exists pre, post. split; [done|]. intros r c kg Hin Hc [Ht Hcol].
      destruct (Hpre r c Hin) as (y & Hy & Hky).
      rewrite Hc in Hy. injection Hy as <-.
      assert (isKingOf c0 (Some kg) = true) by (apply isKingOf_true; eauto).
      congruence.
Qed.

Lemma existsb_samePos (pos : Position) (moves : list Position) :
  existsb (samePos pos) moves = true <-> pos ∈ moves.
Proof.
  rewrite existsb_exists. split.
  - intros (m & Hin & Hs). apply list_elem_of_In in Hin.
    unfold samePos in Hs. apply andb_true_iff in Hs as [E1 E2].
    apply Z.eqb_eq in E1, E2. destruct m, pos. simpl in *. by subst.
  - intros Hin. exists pos. split; [by apply list_elem_of_In|].
    unfold samePos. by rewrite !Z.eqb_refl.
Qed.

Lemma isSquareAttackedFrom_spec (b : Board) (pos : Position) (c0 : Color)
    (sqs : list (Z * Z)) (a : bool) :
  isSquareAttackedFrom b pos c0 sqs = Ret a ->
  (a = true <-> exists sq, sq ∈ sqs /\ attacksFrom b pos c0 sq).
Proof.
  revert a. induction sqs as [|[r c] sqs IH]; intros a H; simpl in H.
  - injection H as <-. split; [done|].
    intros (sq & Hin & _). by apply elem_of_nil in Hin.
  - apply bind_Ret in H as (x & Hx & H).
    assert (Hrest : isSquareAttackedFrom b pos c0 sqs = Ret a ->
                    ~ attacksFrom b pos c0 (r, c) ->
                    a = true <-> exists sq, sq ∈ (r, c) :: sqs
                                            /\ attacksFrom b pos c0 sq).
    { intros Hr Hno. rewrite (IH a Hr). split.
      - intros (sq & Hin & Hsq). exists sq. split; [by right | done].
      - intros (sq & Hin & Hsq).
        apply elem_of_cons in Hin as [->|Hin]; [done | eauto]. }
    destruct x as [att|].
    2: { apply Hrest; [done|]. intros (att & ? & Hc & _). simpl in Hc.
         congruence. }
    destruct (Color_eqb (color att) c0) eqn:Ecol.
    2: { apply Hrest; [done|]. intros (att' & ? & Hc & Hcol & _).
         simpl in Hc. rewrite Hx in Hc. injection Hc as <-.
         apply Color_eqb_eq in Hcol. congruence. }
    apply bind_Ret in H as (moves & Hmoves & H).
    destruct (existsb (samePos pos) moves) eqn:Eex.
    + injection H as <-. split; [|done]. intros _. exists (r, c).
      split; [by left|]. exists att, moves. simpl.
      apply Color_eqb_eq in Ecol. apply existsb_samePos in Eex. done.
    + apply Hrest; [done|]. intros (att' & moves' & Hc & _ & Hm' & Hin).
      simpl in *. rewrite Hmoves in Hm'. injection Hm' as <-.
      apply existsb_samePos in Hin. congruence.
Qed.


(** X8.  [isSquareAttacked] answers [true] exactly when some piece of the
    attacking colour, on one of the 64 squares, has the square among the
    destinations [getPieceMoves] gives it with no last move and castling
    ignored. *)
Theorem isSquareAttacked_iff (b : Board) (pos : Position) (c0 : Color)
    (a : bool) :
  isSquareAttacked b pos c0 = Ret a ->
  (a = true <->
   exists r c, isWithinBoard r c = true /\ attacksFrom b pos c0 (r, c)).
Proof.
  intros H. unfold isSquareAttacked in H.
  rewrite (isSquareAttackedFrom_spec _ _ _ _ _ H). split.
  - intros ([r c] & Hin & Hatt). exists r, c.
    split; [by apply allSquares_spec | done].
  - intros (r & c & Hw & Hatt). exists (r, c).
    split; [by apply allSquares_spec | done].
Qed.

(** X9.  A king is in check exactly when an enemy piece has the king's
    square among its destinations; a side without a king is never in
    check. *)
Theorem isKingInCheck_iff (b : Board) (c0 : Color) (a : bool) :
  isKingInCheck b c0 = Ret a ->
  (a = true <->
   exists k r c,
     findKing b c0 = Ret k /\ onBoard k
     /\ isWithinBoard r c = true /\ attacksFrom b k (opponent c0) (r, c)).
Proof.
  unfold isKingInCheck. intros H. apply bind_Ret in H as (k & Hk & H).
  destruct (row k =? -1) eqn:E.
  - injection H as <-. split; [done|].
    intros (k' & r & c & Hk' & Hon & _). rewrite Hk in Hk'.
    injection Hk' as <-. apply Z.eqb_eq in E.
    apply isWithinBoard_spec in Hon. lia.
  - unfold isSquareAttacked in H.
    rewrite (isSquareAttackedFrom_spec _ _ _ _ _ H). split.
    + intros ([r c] & Hin & Hatt). exists k, r, c. split; [done|].
      split; [|split; [by apply allSquares_spec | done]].
      unfold findKing in Hk.
      destruct (findKingFrom_spec _ _ _ _ Hk)
        as [[-> _]|(pre & post & x & Hsq & _)]; [done|].
      apply allSquares_spec. rewrite Hsq. apply elem_of_app. right. by left.
    + intros (k' & r & c & Hk' & _ & Hw & Hatt). rewrite Hk in Hk'.
      injection Hk' as <-. exists (r, c).
      split; [by apply allSquares_spec | done].
Qed.

(** ** All the moves of a side *)

(** X10.  [getAllLegalMoves] lists exactly the legal destinations of the
    pieces of the colour, each as a record of its square, its piece and
    the destination; the list is empty exactly when no piece of the
    colour has a legal move. *)
Theorem getAllLegalMoves_iff (b : Board) (c0 : Color) (lm : option Move)
    (l : list Move) :
  getAllLegalMoves b c0 lm = Ret l ->
  (forall mv, mv ∈ l <->
     exists r c pc legal dest,
       isWithinBoard r c = true
       /\ cell b r c = Ret (Some pc) /\ color pc = c0
       /\ getLegalMoves b (mkPos r c) lm = Ret legal
       /\ dest ∈ legal /\ mv = candidate r c pc dest)
  /\ (l = [] <->
      forall r c pc legal,
        isWithinBoard r c = true ->
        cell b r c = Ret (Some pc) -> color pc = c0 ->
        getLegalMoves b (mkPos r c) lm = Ret legal -> legal = []).
Proof.
  intros H. unfold getAllLegalMoves in H.
  assert (Hall : forall mv, mv ∈ l <->
     exists r c pc legal dest,
       isWithinBoard r c = true
       /\ cell b r c = Ret (Some pc) /\ color pc = c0
       /\ getLegalMoves b (mkPos r c) lm = Ret legal
       /\ dest ∈ legal /\ mv = candidate r c pc dest).
  { intros mv.
    pose proof (fun Hstep =>
      foldM_elems _
        (fun (sq : Z * Z) (mv : Move) =>
           exists pc legal dest,
             cell b (fst sq) (snd sq) = Ret (Some pc) /\ color pc = c0
             /\ getLegalMoves b (mkPos (fst sq) (snd sq)) lm = Ret legal
             /\ dest ∈ legal /\ mv = candidate (fst sq) (snd sq) pc dest)
        allSquares Hstep [] l H mv) as E.
    rewrite E; clear E.
    - rewrite elem_of_nil. split.
      + intros [[]|([r c] & Hin & pc & legal & dest & ?)].
        exists r, c, pc, legal, dest. split; [by apply allSquares_spec | done].
      + intros (r & c & pc & legal & dest & Hw & ?). right.
        exists (r, c). split; [by apply allSquares_spec|]. eauto.
    - intros acc [r c] acc' _ Hf x. simpl.
      apply bind_Ret in Hf as (y & Hy & Hf). destruct y as [pc|].
      2: { injection Hf as <-. split; [auto|].
           intros [|(pc & _ & _ & Hc & _)]; [done | congruence]. }
      destruct (Color_eqb (color pc) c0) eqn:Ecol.
      2: { injection Hf as <-. split; [auto|].
           intros [|(pc' & _ & _ & Hc & Hcol & _)]; [done|].
           rewrite Hy in Hc. injection Hc as <-.
           apply Color_eqb_eq in Hcol. congruence. }
      apply bind_Ret in Hf as (legal & Hlegal & Hf). injection Hf as <-.
      apply Color_eqb_eq in Ecol.
      rewrite elem_of_app, list_elem_of_fmap. split.
      + intros [|(dest & -> & Hin)]; [auto|]. right. eauto 10.
      + intros [|(pc' & legal' & dest & Hc & _ & Hl & Hin & ->)]; [auto|].
        rewrite Hy in Hc. injection Hc as <-.
        rewrite Hlegal in Hl. injection Hl as <-. right. eauto. }
  split; [done|]. split.
  - intros -> r c pc legal Hw Hc Hcol Hl.
    destruct legal as [|dest legal]; [done|]. exfalso.
    apply (elem_of_nil (candidate r c pc dest)). apply Hall.
    exists r, c, pc, (dest :: legal), dest. repeat split; try done. by left.
  - intros Hnone. destruct l as [|mv l]; [done|]. exfalso.
    destruct (proj1 (Hall mv)) as (r & c & pc & legal & dest & Hw & Hc & Hcol & Hl & Hin & _);
      [by left|].
    rewrite (Hnone r c pc legal Hw Hc Hcol Hl) in Hin.
    by apply elem_of_nil in Hin.
Qed.


(** ** How the engine fails *)

Lemma fot_Ret {A : Type} (a : A) : failsOnlyWithTypeError (Ret a).
Proof. intros e H. discriminate. Qed.

Lemma fot_bind {A B : Type} (m : Outcome A) (f : A -> Outcome B) :
  failsOnlyWithTypeError m ->
  (forall a, m = Ret a -> failsOnlyWithTypeError (f a)) ->
  failsOnlyWithTypeError (bind m f).
Proof.
  intros Hm Hf e H. destruct m as [a|e']; simpl in H.
  - by apply (Hf a).
  - injection H as <-. by apply Hm.
Qed.

Lemma fot_cell (b : Board) (r c : Z) : failsOnlyWithTypeError (cell b r c).
Proof. unfold cell. intros e H. destruct (index b r); congruence. Qed.

Lemma fot_setCell (b : Board) (r c : Z) (x : option Piece) :
  failsOnlyWithTypeError (setCell b r c x).
Proof. unfold setCell. intros e H. destruct (index b r); congruence. Qed.

Lemma fot_foldM {A B : Type} (f : B -> A -> Outcome B) (l : list A) (acc : B) :
  (forall a x, x ∈ l -> failsOnlyWithTypeError (f a x)) ->
  failsOnlyWithTypeError (foldM f acc l).
Proof.
  revert acc. induction l as [|x l IH]; intros acc Hf; simpl.
  - apply fot_Ret.
  - apply fot_bind; [apply Hf; by left|].
    intros a _. apply IH. intros a' y Hy. apply Hf. by right.
Qed.

Lemma fot_filterM {A : Type} (f : A -> Outcome bool) (l : list A) :
  (forall x, x ∈ l -> failsOnlyWithTypeError (f x)) ->
  failsOnlyWithTypeError (filterM f l).
Proof.
  induction l as [|x l IH]; intros Hf; simpl.
  - apply fot_Ret.
  - apply fot_bind; [apply Hf; by left|]. intros k _.
    apply fot_bind; [apply IH; intros y Hy; apply Hf; by right|].
    intros rest _. apply fot_Ret.
Qed.

Ltac fot :=
  repeat first
    [ apply fot_Ret | apply fot_cell | apply fot_setCell
    | apply fot_bind; [|intros ? ?]
    | match goal with
      | |- failsOnlyWithTypeError (if ?c then _ else _) => destruct c
      | |- failsOnlyWithTypeError (match ?x with Some _ => _ | None => _ end) =>
          destruct x
      | |- failsOnlyWithTypeError (let '(_, _) := ?x in _) => destruct x
      end ].

Lemma fot_addIfEmpty (b : Board) (moves : list Position) (r c : Z) :
  failsOnlyWithTypeError (addIfEmpty b moves r c).
Proof. unfold addIfEmpty. fot. Qed.

Lemma fot_addIfEnemy (b : Board) (pc : Piece) (moves : list Position) (r c : Z) :
  failsOnlyWithTypeError (addIfEnemy b pc moves r c).
Proof. unfold addIfEnemy. fot. Qed.

Lemma fot_addUnlessFriend (b : Board) (pc : Piece) (moves : list Position)
    (r c : Z) :
  failsOnlyWithTypeError (addUnlessFriend b pc moves r c).
Proof. unfold addUnlessFriend. fot. Qed.

Lemma fot_slide (b : Board) (pc : Piece) (dr dc : Z) :
  unitStep (dr, dc) ->
  forall fuel nr nc moves,
    (isWithinBoard nr nc = true -> remaining dr dc nr nc <= Z.of_nat fuel) ->
    failsOnlyWithTypeError (slide fuel b pc dr dc nr nc moves).
Proof.
  intros Hd fuel nr nc moves Hrem e H.
  pose proof (slide_never_diverges b pc dr dc Hd fuel nr nc moves Hrem) as Hnd.
  revert nr nc moves Hrem H Hnd.
  induction fuel as [|fuel IH]; intros nr nc moves Hrem H Hnd; simpl in *;
    destruct (isWithinBoard nr nc) eqn:Hw; try congruence.
  destruct (cell b nr nc) as [[t|]|e'] eqn:Hc; simpl in *; try congruence.
  - apply (IH (nr + dr) (nc + dc) (moves ++ [mkPos nr nc])); try done.
    intros Hw'. pose proof (Hrem eq_refl) as Hr.
    destruct Hd as (Hdr & Hdc & Hnz). simpl in *.
    apply isWithinBoard_spec in Hw, Hw'. unfold remaining in *.
    destruct (dr =? 1) eqn:E1; [apply Z.eqb_eq in E1; lia|].
    destruct (dr =? -1) eqn:E2; [apply Z.eqb_eq in E2; lia|].
    apply Z.eqb_neq in E1, E2.
    destruct (dc =? 1) eqn:E3; [apply Z.eqb_eq in E3; lia|].
    apply Z.eqb_neq in E3. lia.
  - injection H as <-. by apply (fot_cell b nr nc).
Qed.

Lemma fot_getPieceMoves (b : Board) (p : Position) (lm : option Move)
    (ic : bool) :
  failsOnlyWithTypeError (getPieceMoves b p lm ic).
Proof.
  unfold getPieceMoves. apply fot_bind; [apply fot_cell|].
  intros [pc|] _; [|apply fot_Ret].
  destruct (type pc).
  - unfold pawnMoves. apply fot_bind; [apply fot_addIfEmpty|].
    intros [stepped m1] _. apply fot_bind.
    { destruct (stepped && negb (hasMoved pc)); [|apply fot_Ret].
      unfold omap. apply fot_bind; [apply fot_addIfEmpty|].
      intros; apply fot_Ret. }
    intros m2 _. apply fot_bind; [apply fot_addIfEnemy|].
    intros [e1 m3] _. apply fot_bind; [apply fot_addIfEnemy|].
    intros [e2 m4] _. apply fot_Ret.
  - unfold sliderMoves. apply fot_foldM. intros a [dr dc] Hd.
    apply fot_slide; [by eapply directions_unitStep|].
    intros Hw. apply isWithinBoard_spec in Hw. unfold remaining, slideFuel.
    destruct (dr =? 1); [lia|]. destruct (dr =? -1); [lia|].
    destruct (dc =? 1); lia.
  - unfold knightMoves. apply fot_foldM. intros a [dr dc] _.
    apply fot_addUnlessFriend.
  - unfold sliderMoves. apply fot_foldM. intros a [dr dc] Hd.
    apply fot_slide; [by eapply directions_unitStep|].
    intros Hw. apply isWithinBoard_spec in Hw. unfold remaining, slideFuel.
    destruct (dr =? 1); [lia|]. destruct (dr =? -1); [lia|].
    destruct (dc =? 1); lia.
  - unfold sliderMoves. apply fot_foldM. intros a [dr dc] Hd.
    apply fot_slide; [by eapply directions_unitStep|].
    intros Hw. apply isWithinBoard_spec in Hw. unfold remaining, slideFuel.
    destruct (dr =? 1); [lia|]. destruct (dr =? -1); [lia|].
    destruct (dc =? 1); lia.
  - unfold kingMoves. apply fot_bind.
    { unfold kingSteps. apply fot_foldM. intros a [dr dc] _.
      destruct ((dr =? 0) && (dc =? 0)); [apply fot_Ret|].
      apply fot_addUnlessFriend. }
    intros steps _. destruct (negb (hasMoved pc) && negb ic); [|apply fot_Ret].
    unfold castleKingside, castleQueenside, andM, isEmptyAt. fot.
Qed.

Lemma fot_isKingInCheck (b : Board) (c0 : Color) :
  failsOnlyWithTypeError (isKingInCheck b c0).
Proof.
  unfold isKingInCheck. apply fot_bind.
  { unfold findKing. induction allSquares as [|[r c] sqs IH]; simpl.
    - apply fot_Ret.
    - apply fot_bind; [apply fot_cell|]. intros x _.
      destruct (isKingOf c0 x); [apply fot_Ret | apply IH]. }
  intros k _. destruct (row k =? -1); [apply fot_Ret|].
  unfold isSquareAttacked. induction allSquares as [|[r c] sqs IH]; simpl.
  - apply fot_Ret.
  - apply fot_bind; [apply fot_cell|]. intros [a|] _; [|apply IH].
    destruct (Color_eqb (color a) (opponent c0)); [|apply IH].
    apply fot_bind; [apply fot_getPieceMoves|]. intros moves _.
    destruct (existsb (samePos k) moves); [apply fot_Ret | apply IH].
Qed.

Lemma fot_getLegalMoves (b : Board) (p : Position) (lm : option Move) :
  failsOnlyWithTypeError (getLegalMoves b p lm).
Proof.
  unfold getLegalMoves. apply fot_bind; [apply fot_cell|].
  intros [pc|] _; [|apply fot_Ret].
  apply fot_bind; [apply fot_getPieceMoves|]. intros raw _.
  apply fot_filterM. intros m _. unfold keepMove.
  apply fot_bind; [unfold simulate; fot|]. intros sim _.
  apply fot_bind; [apply fot_isKingInCheck|]. intros chk _.
  destruct chk; [apply fot_Ret|].
  destruct (isCastlingStep p pc m); [|apply fot_Ret].
  apply fot_bind; [apply fot_isKingInCheck|]. intros chk0 _.
  destruct chk0; [apply fot_Ret|].
  apply fot_bind; [unfold stepBoard; fot|]. intros sb _.
  apply fot_bind; [apply fot_isKingInCheck|]. intros chk2 _.
  destruct chk2; apply fot_Ret.
Qed.

(** X11.  The engine never loops forever and never fails in any other way
    than the [TypeError] of reading a row that does not exist, whatever
    the board, the position and the last move. *)
Theorem engine_fails_only_with_TypeError (b : Board) (p : Position)
    (lm : option Move) (ic : bool) (c0 : Color) :
  failsOnlyWithTypeError (getPieceMoves b p lm ic)
  /\ failsOnlyWithTypeError (isKingInCheck b c0)
  /\ failsOnlyWithTypeError (getLegalMoves b p lm)
  /\ failsOnlyWithTypeError (getAllLegalMoves b c0 lm).
Proof.
  split; [apply fot_getPieceMoves|]. split; [apply fot_isKingInCheck|].
  split; [apply fot_getLegalMoves|].
  unfold getAllLegalMoves. apply fot_foldM. intros acc [r c] _.
  apply fot_bind; [apply fot_cell|]. intros [pc|] _; [|apply fot_Ret].
  destruct (Color_eqb (color pc) c0); [|apply fot_Ret].
  apply fot_bind; [apply fot_getLegalMoves|]. intros; apply fot_Ret.
Qed.


(** X12.  On a board of eight rows nothing throws: the pseudo-legal moves of
    any square in rows 0..7, check detection for either side, and, when
    the en passant square (if the rule applies) is on the board, as it is
    when there is no last move, the legal moves of a square and of a
    side. *)
Theorem engine_returns_on_eight_rows (b : Board) (p : Position)
    (lm : option Move) (ic : bool) (c0 : Color) :
  EightRows b -> onBoard p ->
  (exists l, getPieceMoves b p lm ic = Ret l)
  /\ (exists a, isKingInCheck b c0 = Ret a)
  /\ (enPassantOnBoard b p lm -> exists l, getLegalMoves b p lm = Ret l)
  /\ ((forall q, onBoard q -> enPassantOnBoard b q lm) ->
      exists l, getAllLegalMoves b c0 lm = Ret l)
  /\ (exists l, getLegalMoves b p None = Ret l)
  /\ (exists l, getAllLegalMoves b c0 None = Ret l).
Proof.
  intros Hb Hp. pose proof Hp as Hp'.
  apply isWithinBoard_spec in Hp' as [Hr _].
  assert (Hnone : forall q, onBoard q -> enPassantOnBoard b q None).
  { intros q _ m Hm. unfold enPassantSquare in Hm. simpl in Hm.
    destruct (cell b (row q) (col q)) as [[pc|]|]; try discriminate.
    by destruct (PieceType_eqb (type pc) PAWN). }
  split; [by apply getPieceMoves_returns|].
  split; [by apply isKingInCheck_returns|].
  split; [by apply getLegalMoves_returns|].
  split; [by apply getAllLegalMoves_returns|].
  split; [apply getLegalMoves_returns; auto|].
  by apply getAllLegalMoves_returns.
Qed.

Lemma filterM_app {A : Type} (f : A -> Outcome bool) (l1 l2 : list A) :
  filterM f (l1 ++ l2)
  = let* a := filterM f l1 in let* c := filterM f l2 in Ret (a ++ c).
Proof.
  induction l1 as [|x l1 IH]; simpl.
  - destruct (filterM f l2); done.
  - destruct (f x) as [k|]; simpl; [|done]. rewrite IH.
    destruct (filterM f l1) as [a|]; simpl; [|done].
    destruct (filterM f l2) as [c|]; simpl; [|done].
    by destruct k.
Qed.

Lemma keepMove_returns (b : Board) (p : Position) (pc : Piece)
    (lm : option Move) (raw : list Position) (m : Position) :
  EightRows b ->
  cell b (row p) (col p) = Ret (Some pc) ->
  getPieceMoves b p lm false = Ret raw -> m ∈ raw -> onBoard m ->
  exists k, keepMove b p pc m = Ret k.
Proof.
  intros Hb Hc Hraw Hm Hon. unfold keepMove.
  pose proof (cell_row_inv _ _ _ _ Hb Hc) as Hr.
  destruct (simulate_returns _ _ _ _ _ _ Hb Hc Hraw Hm Hon) as (sim & -> & Hsim).
  simpl. destruct (isKingInCheck_returns sim (color pc) Hsim) as [chk ->].
  simpl. destruct chk; [eauto|].
  destruct (isCastlingStep p pc m); [|eauto].
  destruct (isKingInCheck_returns b (color pc) Hb) as [chk0 ->]. simpl.
  destruct chk0; [eauto|].
  destruct (stepBoard_returns b p pc m Hb Hr) as (sb & -> & Hsb). simpl.
  destruct (isKingInCheck_returns sb (color pc) Hsb) as [chk2 ->]. simpl.
  destruct chk2; eauto.
Qed.

(** X13.  When the en passant rule applies and its square lies in a row off
    the board (a pawn on its last rank), [getPieceMoves] returns that
    square and [getLegalMoves] throws a [TypeError]: its simulation
    writes to a row that does not exist. *)
Theorem getLegalMoves_throws_on_en_passant_off_board (b : Board)
    (p : Position) (lm : option Move) (m : Position) :
  EightRows b -> onBoard p ->
  enPassantSquare b p lm = Some m ->
  ~ (0 <= row m < 8) ->
  (exists raw, getPieceMoves b p lm false = Ret raw /\ m ∈ raw)
  /\ getLegalMoves b p lm = Fail TypeError.
Proof.
  intros Hb Hp Hep Hrow. pose proof Hep as Hep'.
  unfold enPassantSquare in Hep.
  destruct (cell b (row p) (col p)) as [[pw|]|] eqn:Hc; try discriminate.
  destruct (PieceType_eqb (type pw) PAWN) eqn:Ht; [|discriminate].
  apply PieceType_eqb_eq in Ht.
  destruct (enPassantNow lm (row p) (col p)) as [lv|] eqn:Hnow; [|discriminate].
  injection Hep as <-.
  assert (Hraw : exists base,
             getPieceMoves b p lm false
             = Ret (base ++ [mkPos (row p + forward (color pw)) (col (to lv))])
             /\ Forall onBoard base).
  { unfold getPieceMoves. rewrite Hc. simpl. rewrite Ht.
    destruct (pawnMoves b pw (row p) (col p) lm) as [l|e] eqn:Hpm.
    - destruct (pawnMoves_onBoard _ _ _ _ _ _ Hpm) as (base & Hbase & ->).
      rewrite Hnow. eauto.
    - rewrite (pawnMoves_eight _ _ _ _ _ Hb) in Hpm. discriminate. }
  destruct Hraw as (base & Hraw & Hbase). split.
  { eexists. split; [exact Hraw|]. apply elem_of_app. right. by left. }
  unfold getLegalMoves. rewrite Hc. simpl. rewrite Hraw. simpl.
  rewrite filterM_app.
  destruct (filterM_total (keepMove b p pw) base) as [kept ->].
  { apply Forall_forall. intros x Hx%list_elem_of_In.
    apply (keepMove_returns b p pw lm _ x Hb Hc Hraw).
    - apply elem_of_app. by left.
    - exact (Forall_elem _ _ _ Hbase Hx). }
  simpl. unfold keepMove, simulate. rewrite cloneBoard_id.
  unfold cell at 1. simpl in *.
  destruct (index b (row p + forward (color pw))) eqn:Hidx; [|done].
  exfalso. apply Hrow.
  assert (is_Some (index b (row p + forward (color pw)))) as Hs by eauto.
  apply index_is_Some in Hs. unfold EightRows in Hb. lia.
Qed.


(** * The commit step, square by square *)

(** The steps of [executeMove], one by one. *)
Lemma executeMove_inv (prev next : GameState) (src dst : Position)
    (promo : option PieceType) :
  executeMove prev src dst promo = Ret next ->
  exists pc onDst b1 taken b2 b3 check moves,
    let pc' := arriving pc promo in
    cell (board prev) (row src) (col src) = Ret (Some pc)
    /\ cell (board prev) (row dst) (col dst) = Ret onDst
    /\ (if commitsCastling pc' src dst
        then exists rk b0,
               cell (board prev) (row src) (rookCorner src dst) = Ret (Some rk)
               /\ setCell (board prev) (row src) (rookCorner src dst) None = Ret b0
               /\ setCell b0 (row src) (rookArrival src dst) (Some (setMoved rk))
                  = Ret b1
        else b1 = board prev)
    /\ (if commitsEnPassant pc' src dst onDst
        then cell b1 (behind pc' dst) (col dst) = Ret taken
             /\ setCell b1 (behind pc' dst) (col dst) None = Ret b2
        else taken = onDst /\ b2 = b1)
    /\ setCell b2 (row dst) (col dst) (Some pc') = Ret b3
    /\ setCell b3 (row src) (col src) None = Ret (board next)
    /\ isKingInCheck (board next) (currentPlayer next) = Ret check
    /\ getAllLegalMoves (board next) (currentPlayer next)
         (Some (mkMove src dst pc' taken None None None None "")) = Ret moves
    /\ currentPlayer next = opponent (currentPlayer prev)
    /\ history next
       = history prev
         ++ [mkMove src dst pc' taken
               (Some (commitsCastling pc' src dst))
               (Some (commitsEnPassant pc' src dst onDst))
               (Some (bool_decide (is_Some promo))) promo
               (getAlgebraicNotation src dst pc'
                  (bool_decide (is_Some taken)) check
                  (check && (length moves =? 0)%nat))]
    /\ lastMove next = list.last (history next)
    /\ selectedSquare next = None
    /\ capturedWhite next = capturedWhite prev ++ capturedOf white taken
    /\ capturedBlack next = capturedBlack prev ++ capturedOf black taken
    /\ isFlipped next = isFlipped prev
    /\ timers next = timers prev
    /\ status next
       = (if check && (length moves =? 0)%nat then CHECKMATE
          else if negb check && (length moves =? 0)%nat then STALEMATE
          else PLAYING)
    /\ winner next
       = (if check && (length moves =? 0)%nat
          then Some (side (currentPlayer prev))
          else if negb check && (length moves =? 0)%nat then Some draw
          else None).
Proof.
  intros H. unfold executeMove in H. cbv zeta in H.
  rewrite cloneBoard_id in H.
  apply bind_Ret in H as (x & Hsrc & H).
  apply bind_Ret in H as (pc & Hpc & H).
  destruct x as [pc0|]; [|discriminate]. injection Hpc as ->.
  apply bind_Ret in H as (onDst & Hdst & H).
  apply bind_Ret in H as (b1 & Hb1 & H).
  apply bind_Ret in H as ([taken b2] & Hb2 & H).
  apply bind_Ret in H as (b3 & Hb3 & H).
  apply bind_Ret in H as (b4 & Hb4 & H).
  apply bind_Ret in H as (check & Hcheck & H).
  apply bind_Ret in H as (moves & Hmoves & H).
  injection H as <-. simpl.
  exists pc, onDst, b1, taken, b2, b3, check, moves.
  assert (Earr : match promo with
                 | Some t => withType (setMoved pc) t
                 | None => setMoved pc
                 end = arriving pc promo) by done.
  rewrite Earr in *. clear Earr.
  split; [done|]. split; [done|]. split.
  { unfold commitsCastling, rookCorner, rookArrival.
    destruct (PieceType_eqb (type (arriving pc promo)) KING
              && (Z.abs (col src - col dst) =? 2)).
    - apply bind_Ret in Hb1 as (x & Hrk & Hb1).
      apply bind_Ret in Hb1 as (rk & Hnn & Hb1).
      destruct x as [rk0|]; [|discriminate]. injection Hnn as ->.
      apply bind_Ret in Hb1 as (b0 & Hb0 & Hb1). eauto.
    - by injection Hb1 as <-. }
  split.
  { unfold commitsEnPassant, behind.
    destruct (PieceType_eqb (type (arriving pc promo)) PAWN
              && negb (col src =? col dst)
              && negb (bool_decide (is_Some onDst))).
    - apply bind_Ret in Hb2 as (t & Ht & Hb2).
      apply bind_Ret in Hb2 as (b2' & Hb2' & Hb2).
      injection Hb2 as <- <-. done.
    - by injection Hb2 as <- <-. }
  split; [done|]. split; [done|]. split; [done|]. split; [done|].
  split; [done|]. split; [done|].
  split; [by rewrite list.last_snoc|]. split; [done|].
  split.
  { unfold capturedOf. destruct taken as [t|]; [|by rewrite app_nil_r].
    destruct (Color_eqb (color t) white); [done | by rewrite app_nil_r]. }
  split.
  { unfold capturedOf. destruct taken as [t|]; [|by rewrite app_nil_r].
    destruct (Color_eqb (color t) black); [done | by rewrite app_nil_r]. }
  done.
Qed.


Lemma cell_setCell_other (b b' : Board) (r c : Z) (x : option Piece)
    (r' c' : Z) :
  setCell b r c x = Ret b' -> 0 <= c -> (r', c') <> (r, c) ->
  cell b' r' c' = cell b r' c'.
Proof.
  intros H Hc Hne. rewrite (cell_setCell _ _ _ _ _ r' c' H Hc).
  destruct (r' =? r) eqn:E1, (c' =? c) eqn:E2; simpl; try done.
  apply Z.eqb_eq in E1, E2. congruence.
Qed.

Lemma cell_setCell_same (b b' : Board) (r c : Z) (x : option Piece) :
  setCell b r c x = Ret b' -> 0 <= c -> cell b' r c = Ret x.
Proof.
  intros H Hc. rewrite (cell_setCell _ _ _ _ _ r c H Hc).
  by rewrite !Z.eqb_refl.
Qed.

Lemma rookCorner_nonneg (src dst : Position) : 0 <= rookCorner src dst.
Proof. unfold rookCorner. destruct (col dst >? col src); lia. Qed.

Lemma rookArrival_nonneg (src dst : Position) : 0 <= rookArrival src dst.
Proof. unfold rookArrival. destruct (col dst >? col src); lia. Qed.

(** X14.  After a commit the source square is empty and the destination holds
    the piece that stood on the source, marked as moved, of the same
    colour and identity, and of the promoted type when a promotion was
    asked for. *)
Theorem executeMove_moves_the_piece (prev next : GameState)
    (src dst : Position) (promo : option PieceType) (pc : Piece) :
  cell (board prev) (row src) (col src) = Ret (Some pc) ->
  executeMove prev src dst promo = Ret next ->
  0 <= col dst ->
  cell (board next) (row src) (col src) = Ret None
  /\ (src <> dst ->
      exists pc',
        cell (board next) (row dst) (col dst) = Ret (Some pc')
        /\ id pc' = id pc /\ color pc' = color pc /\ hasMoved pc' = true
        /\ type pc' = default (type pc) promo).
Proof.
  intros Hpc H Hcd.
  destruct (executeMove_inv _ _ _ _ _ H)
    as (pc0 & onDst & b1 & taken & b2 & b3 & check & moves & Hsrc & Hdst
        & Hb1 & Hb2 & Hb3 & Hb4 & _).
  rewrite Hpc in Hsrc. injection Hsrc as <-. rename Hpc into Hsrc.
  pose proof (cell_Some_inv _ _ _ _ Hsrc) as [_ Hcs].
  split; [by eapply cell_setCell_same|].
  intros Hne. exists (arriving pc promo). split.
  - rewrite (cell_setCell_other _ _ _ _ _ _ _ Hb4 Hcs).
    + by eapply cell_setCell_same.
    + intros [= E1 E2]. apply Hne. destruct src, dst. simpl in *. by subst.
  - by destruct promo.
Qed.

(** X15.  A commit leaves every square alone but the source, the destination,
    the rook's two squares when the king castles, and the square behind
    the destination when a pawn captures en passant. *)
Theorem executeMove_frame (prev next : GameState) (src dst : Position)
    (promo : option PieceType) (pc : Piece) :
  cell (board prev) (row src) (col src) = Ret (Some pc) ->
  executeMove prev src dst promo = Ret next ->
  0 <= col dst ->
  exists onDst,
    cell (board prev) (row dst) (col dst) = Ret onDst
    /\ forall r c,
         (r, c) ∉ touchedSquares (arriving pc promo) src dst onDst ->
         cell (board next) r c = cell (board prev) r c.
Proof.
  intros Hpc H Hcd.
  destruct (executeMove_inv _ _ _ _ _ H)
    as (pc0 & onDst & b1 & taken & b2 & b3 & check & moves & Hsrc & Hdst
        & Hb1 & Hb2 & Hb3 & Hb4 & _).
  rewrite Hpc in Hsrc. injection Hsrc as <-. rename Hpc into Hsrc.
  exists onDst. split; [done|].
  intros r c Hout. unfold touchedSquares in Hout.
  rewrite !not_elem_of_app, !not_elem_of_cons in Hout.
  destruct Hout as ((Hns & Hnd & _) & Hcastle & Hep).
  pose proof (cell_Some_inv _ _ _ _ Hsrc) as [_ Hcs].
  rewrite (cell_setCell_other _ _ _ _ _ _ _ Hb4 Hcs Hns).
  rewrite (cell_setCell_other _ _ _ _ _ _ _ Hb3 Hcd Hnd).
  assert (E2 : cell b2 r c = cell b1 r c).
  { destruct (commitsEnPassant (arriving pc promo) src dst onDst).
    - destruct Hb2 as [_ Hb2]. apply not_elem_of_cons in Hep as [Hep _].
      by rewrite (cell_setCell_other _ _ _ _ _ _ _ Hb2 Hcd Hep).
    - by destruct Hb2 as [_ ->]. }
  rewrite E2.
  destruct (commitsCastling (arriving pc promo) src dst).
  - destruct Hb1 as (rk & b0 & _ & Hb0 & Hb1).
    apply not_elem_of_cons in Hcastle as [Hc1 Hcastle].
    apply not_elem_of_cons in Hcastle as [Hc2 _].
    rewrite (cell_setCell_other _ _ _ _ _ _ _ Hb1 (rookArrival_nonneg _ _) Hc2).
    by rewrite (cell_setCell_other _ _ _ _ _ _ _ Hb0 (rookCorner_nonneg _ _) Hc1).
  - by rewrite Hb1.
Qed.



(** X18.  A commit appends exactly one move to the history, from the source
    to the destination, and makes it the last move; it clears the
    selection, leaves the clocks and the orientation alone, never drops
    a captured piece from a tray, and ends in one of three ways:
    playing with no winner, checkmate won by the side that moved, or
    stalemate and a draw. *)
Theorem executeMove_bookkeeping (prev next : GameState) (src dst : Position)
    (promo : option PieceType) :
  executeMove prev src dst promo = Ret next ->
  exists mv,
    history next = history prev ++ [mv]
    /\ lastMove next = Some mv
    /\ from mv = src /\ to mv = dst
    /\ promotedTo mv = promo
    /\ selectedSquare next = None
    /\ timers next = timers prev /\ isFlipped next = isFlipped prev
    /\ capturedWhite next = capturedWhite prev ++ capturedOf white (captured mv)
    /\ capturedBlack next = capturedBlack prev ++ capturedOf black (captured mv)
    /\ (status next = PLAYING /\ winner next = None
        \/ status next = CHECKMATE
           /\ winner next = Some (side (currentPlayer prev))
        \/ status next = STALEMATE /\ winner next = Some draw).
Proof.
  intros H.
  destruct (executeMove_inv _ _ _ _ _ H)
    as (pc & onDst & b1 & taken & b2 & b3 & check & moves & _ & _ & _ & _
        & _ & _ & _ & _ & _ & Hhist & Hlast & Hsel & Hw & Hbl & Hfl & Htm
        & Hst & Hwin).
  eexists. split; [exact Hhist|].
  rewrite Hlast, Hhist, list.last_snoc. split; [reflexivity|]. simpl.
  repeat (split; [done|]). rewrite Hst, Hwin.
  destruct check, (length moves =? 0)%nat; simpl; auto.
Qed.





(** * What check detection looks at *)

Section Alike.
Variable c0 : Color.
Variables b b' : Board.
Hypothesis Hab : alike c0 b b'.

Lemma alike_addIfEmpty (moves : list Position) (r c : Z) :
  addIfEmpty b moves r c = addIfEmpty b' moves r c.
Proof.
  unfold addIfEmpty. destruct (isWithinBoard r c) eqn:Hw; [|done].
  destruct (Hab r c Hw) as [->|(px & py & -> & -> & _)]; done.
Qed.

Lemma alike_addIfEnemy (pc : Piece) (moves : list Position) (r c : Z) :
  addIfEnemy b pc moves r c = addIfEnemy b' pc moves r c.
Proof.
  unfold addIfEnemy. destruct (isWithinBoard r c) eqn:Hw; [|done].
  destruct (Hab r c Hw) as [->|(px & py & -> & -> & Hx & Hy & _)]; [done|].
  simpl. by rewrite Hx, Hy.
Qed.

Lemma alike_addUnlessFriend (pc : Piece) (moves : list Position) (r c : Z) :
  addUnlessFriend b pc moves r c = addUnlessFriend b' pc moves r c.
Proof.
  unfold addUnlessFriend. destruct (isWithinBoard r c) eqn:Hw; [|done].
  destruct (Hab r c Hw) as [->|(px & py & -> & -> & Hx & Hy & _)]; [done|].
  simpl. by rewrite Hx, Hy.
Qed.

Lemma alike_slide (pc : Piece) (dr dc : Z) (fuel : nat) :
  forall nr nc moves,
    slide fuel b pc dr dc nr nc moves = slide fuel b' pc dr dc nr nc moves.
Proof.
  induction fuel as [|fuel IH]; intros nr nc moves; simpl; [done|].
  destruct (isWithinBoard nr nc) eqn:Hw; [|done].
  destruct (Hab nr nc Hw) as [->|(px & py & -> & -> & Hx & Hy & _)].
  - destruct (cell b' nr nc) as [[t|]|]; simpl; [done | apply IH | done].
  - simpl. by rewrite Hx, Hy.
Qed.

Lemma alike_foldM {A B : Type} (f g : B -> A -> Outcome B) (l : list A) :
  (forall a x, f a x = g a x) ->
  forall acc, foldM f acc l = foldM g acc l.
Proof.
  intros Hfg. induction l as [|x l IH]; intros acc; simpl; [done|].
  rewrite Hfg. destruct (g acc x); simpl; [apply IH | done].
Qed.

(** The moves of one and the same piece, castling ignored. *)
Lemma alike_getPieceMoves (p : Position) (lm : option Move) (x : option Piece) :
  cell b (row p) (col p) = Ret x -> cell b' (row p) (col p) = Ret x ->
  getPieceMoves b p lm true = getPieceMoves b' p lm true.
Proof.
  intros H1 H2. unfold getPieceMoves. rewrite H1, H2. simpl.
  destruct x as [pc|]; [|done]. destruct (type pc).
  - unfold pawnMoves. rewrite alike_addIfEmpty.
    destruct (addIfEmpty b' [] _ _) as [[stepped m1]|]; simpl; [|done].
    rewrite alike_addIfEmpty.
    destruct (if stepped && negb (hasMoved pc) then _ else _) as [m2|];
      simpl; [|done].
    rewrite alike_addIfEnemy.
    destruct (addIfEnemy b' pc m2 _ _) as [[e1 m3]|]; simpl; [|done].
    by rewrite alike_addIfEnemy.
  - unfold sliderMoves. apply alike_foldM. intros a [dr dc]. apply alike_slide.
  - unfold knightMoves. apply alike_foldM. intros a [dr dc].
    apply alike_addUnlessFriend.
  - unfold sliderMoves. apply alike_foldM. intros a [dr dc]. apply alike_slide.
  - unfold sliderMoves. apply alike_foldM. intros a [dr dc]. apply alike_slide.
  - unfold kingMoves, kingSteps.
    rewrite (alike_foldM _
               (fun moves '(dr, dc) =>
                  if (dr =? 0) && (dc =? 0) then Ret moves
                  else addUnlessFriend b' pc moves (row p + dr) (col p + dc))).
    + by rewrite andb_false_r.
    + intros a [dr dc]. destruct ((dr =? 0) && (dc =? 0)); [done|].
      apply alike_addUnlessFriend.
Qed.

Lemma alike_findKingFrom (sqs : list (Z * Z)) :
  Forall (fun sq : Z * Z => isWithinBoard (fst sq) (snd sq) = true) sqs ->
  findKingFrom b c0 sqs = findKingFrom b' c0 sqs.
Proof.
  induction 1 as [|[r c] sqs Hw _ IH]; simpl; [done|]. simpl in Hw.
  destruct (Hab r c Hw) as [->|(px & py & -> & -> & Hx & Hy & Hk)].
  - destruct (cell b' r c) as [x|]; simpl; [|done].
    destruct (isKingOf c0 x); [done | apply IH].
  - simpl. rewrite Hx, Hy, Color_eqb_refl, !andb_true_r.
    destruct (PieceType_eqb (type px) KING) eqn:E1,
             (PieceType_eqb (type py) KING) eqn:E2; try done.
    + apply PieceType_eqb_eq in E1. apply Hk in E1.
      apply PieceType_eqb_eq in E1. congruence.
    + apply PieceType_eqb_eq in E2. apply Hk in E2.
      apply PieceType_eqb_eq in E2. congruence.
Qed.

Lemma alike_isSquareAttackedFrom (pos : Position) (a0 : Color)
    (sqs : list (Z * Z)) :
  a0 <> c0 ->
  Forall (fun sq : Z * Z => isWithinBoard (fst sq) (snd sq) = true) sqs ->
  isSquareAttackedFrom b pos a0 sqs = isSquareAttackedFrom b' pos a0 sqs.
Proof.
  intros Hne. induction 1 as [|[r c] sqs Hw _ IH]; simpl; [done|].
  simpl in Hw.
  destruct (Hab r c Hw) as [E|(px & py & Ex & Ey & Hx & Hy & _)].
  - rewrite <- E. destruct (cell b r c) as [[a|]|] eqn:Hc; simpl; try done.
    destruct (Color_eqb (color a) a0); [|done].
    rewrite (alike_getPieceMoves (mkPos r c) None (Some a));
      [|done|simpl; congruence].
    destruct (getPieceMoves b' _ _ _) as [moves|]; simpl; [|done].
    destruct (existsb (samePos pos) moves); [done | apply IH].
  - rewrite Ex, Ey. simpl.
    assert (Color_eqb (color px) a0 = false) as ->.
    { destruct (Color_eqb (color px) a0) eqn:E; [|done].
      apply Color_eqb_eq in E. congruence. }
    assert (Color_eqb (color py) a0 = false) as ->.
    { destruct (Color_eqb (color py) a0) eqn:E; [|done].
      apply Color_eqb_eq in E. congruence. }
    apply IH.
Qed.

Lemma alike_isKingInCheck : isKingInCheck b c0 = isKingInCheck b' c0.
Proof.
  unfold isKingInCheck, findKing.
  rewrite (alike_findKingFrom _ allSquares_within).
  destruct (findKingFrom b' c0 allSquares) as [k|]; [|reflexivity].
  rewrite !bind_Ret_l.
  destruct (row k =? -1); [reflexivity|].
  unfold isSquareAttacked.
  apply alike_isSquareAttackedFrom; [|apply allSquares_within].
  destruct c0; discriminate.
Qed.
End Alike.

(** X20.  Whether a side is in check depends only on the enemy's pieces, on
    where the side's own pieces stand and on which of them are kings:
    changing the identity, the moved flag or the type (king apart) of a
    piece of that side never changes the answer, failures included; the
    same holds of where its king is found and of which squares the
    enemy attacks. *)
Theorem isKingInCheck_depends_on (c0 : Color) (b b' : Board) :
  alike c0 b b' ->
  isKingInCheck b c0 = isKingInCheck b' c0
  /\ findKing b c0 = findKing b' c0
  /\ forall pos,
       isSquareAttacked b pos (opponent c0)
       = isSquareAttacked b' pos (opponent c0).
Proof.
  intros H. split; [by apply alike_isKingInCheck|]. split.
  - unfold findKing. apply (alike_findKingFrom c0 b b' H).
    apply allSquares_within.
  - intros pos. unfold isSquareAttacked.
    apply (alike_isSquareAttackedFrom c0 b b' H).
    + destruct c0; discriminate.
    + apply allSquares_within.
Qed.


(** X21.  A legal move that is not castling, once committed, leaves the side
    of the moved piece out of check on the new board.  A promotion is
    covered when it is not a king's and the pawn moves straight or onto
    a piece. *)
Theorem executeMove_legal_leaves_mover_safe (prev next : GameState)
    (src dst : Position) (promo : option PieceType) (pc : Piece)
    (legal : list Position) :
  cell (board prev) (row src) (col src) = Ret (Some pc) ->
  getLegalMoves (board prev) src (lastMove prev) = Ret legal ->
  dst ∈ legal ->
  0 <= col dst ->
  (type pc = KING -> Z.abs (col src - col dst) <> 2) ->
  match promo with
  | None => True
  | Some t =>
      t <> KING /\ type pc <> KING
      /\ (col src = col dst
          \/ cell (board prev) (row dst) (col dst) <> Ret None)
  end ->
  executeMove prev src dst promo = Ret next ->
  isKingInCheck (board next) (color pc) = Ret false.
Proof.
  intros Hsrc Hlegal Hin Hcd Hcastle Hpromo H.
  destruct (getLegalMoves_Ret _ _ _ _ _ Hsrc Hlegal) as (raw & _ & Hf).
  apply filterM_Ret in Hf as (_ & _ & Hkeep).
  destruct (proj1 (Hkeep dst) Hin) as [_ Hk]. unfold keepMove in Hk.
  apply bind_Ret in Hk as (sim & Hsim & Hk).
  apply bind_Ret in Hk as (chk & Hchk & Hk).
  destruct chk; [discriminate|]. clear Hk Hkeep Hin Hlegal.
  rewrite <- Hchk. symmetry. apply alike_isKingInCheck.
  pose proof (cell_Some_inv _ _ _ _ Hsrc) as [_ Hcs].
  destruct (executeMove_inv _ _ _ _ _ H)
    as (pc0 & onDst & b1 & taken & b2 & b3 & check & moves & Hsrc' & Hdst
        & Hb1 & Hb2 & Hb3 & Hb4 & _).
  rewrite Hsrc in Hsrc'. injection Hsrc' as <-.
  assert (Hc : commitsCastling (arriving pc promo) src dst = false).
  { unfold commitsCastling.
    destruct (PieceType_eqb (type (arriving pc promo)) KING) eqn:Ek; [|done].
    apply PieceType_eqb_eq in Ek. simpl.
    destruct promo as [t|]; simpl in Ek.
    - destruct Hpromo as (Hnk & _). congruence.
    - apply Z.eqb_neq. by apply Hcastle. }
  rewrite Hc in Hb1. subst b1.
  assert (Hep : commitsEnPassant (arriving pc promo) src dst onDst
                = PieceType_eqb (type pc) PAWN && negb (col dst =? col src)
                  && negb (bool_decide (is_Some onDst))).
  { unfold commitsEnPassant. rewrite (Z.eqb_sym (col src) (col dst)).
    destruct promo as [t|]; simpl; [|done].
    destruct Hpromo as (_ & _ & [E|E]).
    - rewrite E, Z.eqb_refl. simpl. by rewrite !andb_false_r.
      - destruct onDst; [simpl; by rewrite !andb_false_r | congruence]. }
  intros r c Hw.
  rewrite (simulate_cells _ _ _ _ _ r c Hsim Hcs Hcd).
  unfold movedCell. rewrite Hdst. simpl.
  rewrite (cell_setCell _ _ _ _ _ r c Hb4 Hcs).
  rewrite (cell_setCell _ _ _ _ _ r c Hb3 Hcd).
  assert (Hbehind : behind (arriving pc promo) dst = row dst - forward (color pc)).
  { unfold behind. replace (color (arriving pc promo)) with (color pc)
      by (by destruct promo).
    rewrite backward_forward. lia. }
  rewrite Hep, Hbehind in Hb2.
  destruct (PieceType_eqb (type pc) PAWN && negb (col dst =? col src)
            && negb (bool_decide (is_Some onDst))) eqn:Eep; simpl.
  - destruct Hb2 as [_ Hb2]. rewrite (cell_setCell _ _ _ _ _ r c Hb2 Hcd).
    apply andb_true_iff in Eep as [Eep _]. apply andb_true_iff in Eep as [Ept Ecol].
    apply negb_true_iff, Z.eqb_neq in Ecol.
    destruct ((r =? row dst - forward (color pc)) && (c =? col dst)) eqn:E1.
    + apply andb_true_iff in E1 as [Er Ec]. apply Z.eqb_eq in Er, Ec.
      assert ((r =? row src) && (c =? col src) = false) as ->.
      { apply andb_false_iff. right. apply Z.eqb_neq. lia. }
      assert ((r =? row dst) && (c =? col dst) = false) as ->.
      { apply andb_false_iff. left. apply Z.eqb_neq.
        destruct (forward_cases (color pc)); lia. }
      by left.
    + destruct ((r =? row src) && (c =? col src)); [by left|].
      destruct ((r =? row dst) && (c =? col dst)); [|by left].
      destruct promo as [t|]; [|by left].
      right. exists (setMoved pc), (withType (setMoved pc) t).
      destruct Hpromo as (Hnk & Hpk & _). simpl. repeat split; try done.
  - destruct Hb2 as [_ ->].
    destruct ((r =? row src) && (c =? col src)); [by left|].
    destruct ((r =? row dst) && (c =? col dst)); [|by left].
    destruct promo as [t|]; [|by left].
    right. exists (setMoved pc), (withType (setMoved pc) t).
    destruct Hpromo as (Hnk & Hpk & _). simpl. repeat split; try done.
Qed.


(** * The handlers of the component *)

Lemma withSelectedSquare_same (gs : GameState) :
  withSelectedSquare gs (selectedSquare gs) = gs.
Proof. by destruct gs. Qed.

(** What a click can do. *)
Lemma handleSquareClick_inv (app app' : App) (r c : Z) :
  handleSquareClick app r c = Ret app' ->
  showExitConfirm app' = showExitConfirm app
  /\ ((exists sq,
         gameState app' = withSelectedSquare (gameState app) sq
         /\ promotionPending app' = promotionPending app
         /\ (forall sel, sq = Some sel ->
               sq = selectedSquare (gameState app)
               \/ sel = mkPos r c
                  /\ exists pc,
                       cell (board (gameState app)) r c = Ret (Some pc)
                       /\ color pc = currentPlayer (gameState app)))
      \/ (exists sel legal mp,
            status (gameState app) = PLAYING
            /\ selectedSquare (gameState app) = Some sel
            /\ getLegalMoves (board (gameState app)) sel
                 (lastMove (gameState app)) = Ret legal
            /\ mkPos r c ∈ legal
            /\ cell (board (gameState app)) (row sel) (col sel) = Ret (Some mp)
            /\ (type mp = PAWN /\ (r = 0 \/ r = 7)
                /\ gameState app' = gameState app
                /\ promotionPending app' = Some (sel, mkPos r c)
                \/ ~ (type mp = PAWN /\ (r = 0 \/ r = 7))
                   /\ executeMove (gameState app) sel (mkPos r c) None
                      = Ret (gameState app')
                   /\ promotionPending app' = None))).
Proof.
  unfold handleSquareClick. intros H.
  apply bind_Ret in H as (valid & Hvalid & H).
  assert (Hsame : forall a, a = app ->
            showExitConfirm a = showExitConfirm app
            /\ ((exists sq,
                   gameState a = withSelectedSquare (gameState app) sq
                   /\ promotionPending a = promotionPending app
                   /\ (forall sel, sq = Some sel ->
                         sq = selectedSquare (gameState app)
                         \/ sel = mkPos r c
                            /\ exists pc,
                                 cell (board (gameState app)) r c = Ret (Some pc)
                                 /\ color pc = currentPlayer (gameState app)))
                \/ False)).
  { intros a ->. split; [done|]. left. exists (selectedSquare (gameState app)).
    rewrite withSelectedSquare_same. auto. }
  destruct (negb (GameStatus_eqb (status (gameState app)) PLAYING)) eqn:Est.
  { injection H as <-. destruct (Hsame app eq_refl) as [? [?|[]]]. auto. }
  assert (Hst : status (gameState app) = PLAYING).
  { apply negb_false_iff in Est. by destruct (status (gameState app)). }
  apply bind_Ret in H as (piece & Hpiece & H).
  destruct (match piece with
            | Some pc => Color_eqb (color pc) (currentPlayer (gameState app))
            | None => false
            end) eqn:Eown.
  { injection H as <-. simpl. split; [done|]. left.
    exists (Some (mkPos r c)). split; [done|]. split; [done|].
    intros sel [= <-]. right. split; [done|].
    destruct piece as [pc|]; [|done]. apply Color_eqb_eq in Eown. eauto. }
  destruct (selectedSquare (gameState app)) as [sel|] eqn:Esel.
  2: { injection H as <-. destruct (Hsame app eq_refl) as [? [?|[]]]. auto. }
  destruct (existsb (samePos (mkPos r c)) valid) eqn:Elegal.
  2: { injection H as <-. simpl. split; [done|]. left. exists None.
       split; [done|]. split; [done|]. intros ? [=]. }
  apply existsb_samePos in Elegal.
  unfold validMoves in Hvalid. rewrite Esel in Hvalid.
  apply bind_Ret in H as (mpo & Hmp & H). destruct mpo as [mp|]; [|discriminate].
  destruct (PieceType_eqb (type mp) PAWN && ((r =? 0) || (r =? 7))) eqn:Epromo.
  - injection H as <-. simpl. split; [done|]. right.
    exists sel, valid, mp. repeat (split; [done|]). left.
    apply andb_true_iff in Epromo as [Ep Er]. apply PieceType_eqb_eq in Ep.
    apply orb_true_iff in Er. rewrite !Z.eqb_eq in Er. done.
  - apply bind_Ret in H as (gs' & Hgs' & H). injection H as <-. simpl.
    split; [done|]. right. exists sel, valid, mp. repeat (split; [done|]).
    right. split; [|done]. intros [Ep Er].
    apply PieceType_eqb_eq in Ep. rewrite Ep in Epromo. simpl in Epromo.
    apply orb_false_iff in Epromo as [E0 E7]. apply Z.eqb_neq in E0, E7. lia.
Qed.

(** X22.  A click changes the game only by committing a move that
    [getLegalMoves] gives for the selected square; any other click at
    most changes the selection, to the clicked square when it holds a
    piece of the side to move, or sets the promotion waiting for a
    legal pawn move to row 0 or 7.  While the game is not being played
    a click does nothing. *)
Theorem handleSquareClick_commits_only_legal_moves (app app' : App)
    (r c : Z) :
  handleSquareClick app r c = Ret app' ->
  (status (gameState app) <> PLAYING -> app' = app)
  /\ (gameState app' = withSelectedSquare (gameState app)
                         (selectedSquare (gameState app'))
      /\ promotionPending app' = promotionPending app
      \/ (exists sel legal,
            selectedSquare (gameState app) = Some sel
            /\ getLegalMoves (board (gameState app)) sel
                 (lastMove (gameState app)) = Ret legal
            /\ mkPos r c ∈ legal
            /\ (gameState app' = gameState app
                /\ promotionPending app' = Some (sel, mkPos r c)
                \/ executeMove (gameState app) sel (mkPos r c) None
                   = Ret (gameState app')))).
Proof.
  intros H. split.
  - intros Hst. unfold handleSquareClick in H.
    apply bind_Ret in H as (valid & _ & H).
    destruct (GameStatus_eqb (status (gameState app)) PLAYING) eqn:E.
    + by destruct (status (gameState app)).
    + simpl in H. by injection H as <-.
  - destruct (handleSquareClick_inv _ _ _ _ H)
      as [_ [(sq & Hgs & Hpp & _)|(sel & legal & mp & _ & Hsel & Hl & Hin & _ & Hcase)]].
    + left. split; [|done]. rewrite Hgs. simpl. done.
    + right. exists sel, legal. repeat (split; [done|]).
      destruct Hcase as [(_ & _ & ? & ?)|(_ & ? & _)]; auto.
Qed.

Lemma selectionOwned_withSelectedSquare (gs : GameState) (sq : option Position) :
  (forall sel, sq = Some sel ->
     exists pc, cell (board gs) (row sel) (col sel) = Ret (Some pc)
                /\ color pc = currentPlayer gs) ->
  selectionOwned (withSelectedSquare gs sq).
Proof. intros H sel Hsel. simpl in *. by apply H. Qed.

Lemma executeMove_selection (prev next : GameState) (src dst : Position)
    (promo : option PieceType) :
  executeMove prev src dst promo = Ret next -> selectionOwned next.
Proof.
  intros H sel Hsel.
  destruct (executeMove_inv _ _ _ _ _ H)
    as (pc & onDst & b1 & taken & b2 & b3 & check & moves & _ & _ & _ & _
        & _ & _ & _ & _ & _ & _ & _ & Hnone & _).
  congruence.
Qed.

(** X23.  The handlers keep the invariant of the component: the selected
    square holds a piece of the side to move, and a waiting promotion is
    a legal pawn move to the last row.  It holds in the initial state
    and is kept by clicks, by the promotion dialog, by pausing, by
    flipping, by the clock and by leaving to the menu. *)
Theorem handlers_keep_the_invariant (app : App) :
  appInvariant initialApp
  /\ (appInvariant app ->
      (forall r c app', handleSquareClick app r c = Ret app' ->
                        appInvariant app')
      /\ (forall t app', handlePromotion app t = Ret app' -> appInvariant app')
      /\ (forall f, f = togglePause \/ f = flipBoard \/ f = tick
                    \/ f = goToMenu true \/ f = goToMenu false
                    \/ f = resetGame false ->
            appInvariant (mkApp (f (gameState app)) (promotionPending app)
                                (showExitConfirm app)))).
Proof.
  split.
  { split; [intros sel [=] | intros src dst [=]]. }
  intros [Hsel Hpend]. split; [|split].
  - intros r c app' H.
    destruct (handleSquareClick_inv _ _ _ _ H)
      as [_ [(sq & Hgs & Hpp & Hsq)|(sel & legal & mp & _ & Hs & Hl & Hin & Hmp & Hcase)]].
    + split.
      * rewrite Hgs. apply selectionOwned_withSelectedSquare.
        intros sel ->. destruct (Hsq sel eq_refl) as [E|[-> Hpc]].
        -- by apply Hsel.
        -- done.
      * intros src dst Hp. rewrite Hpp in Hp.
        destruct (Hpend src dst Hp) as (pw & lg & ?).
        exists pw, lg. by rewrite Hgs.
    + destruct Hcase as [(Hp & Hr & Hgs & Hpp)|(_ & Hex & Hpp)].
      * split; [by rewrite Hgs|]. intros src dst Hp'. rewrite Hpp in Hp'.
        injection Hp' as <- <-. rewrite Hgs.
        destruct (Hsel sel Hs) as (pc & Hpc & Hcol).
        rewrite Hmp in Hpc. injection Hpc as <-. exists mp, legal. done.
      * split; [by eapply executeMove_selection|].
        intros src dst Hp. congruence.
  - intros t app' H. unfold handlePromotion in H.
    destruct (promotionPending app) as [[src dst]|] eqn:Hp.
    + apply bind_Ret in H as (gs' & Hgs' & H). injection H as <-.
      split; [by eapply executeMove_selection | intros ? ? [=]].
    + injection H as <-. split; [done|]. intros src dst Hp'. congruence.
  - intros f Hf.
    assert (Hkeep : board (f (gameState app)) = board (gameState app)
                    /\ currentPlayer (f (gameState app)) = currentPlayer (gameState app)
                    /\ selectedSquare (f (gameState app)) = selectedSquare (gameState app)
                    /\ lastMove (f (gameState app)) = lastMove (gameState app)).
    { destruct Hf as [-> | [-> | [-> | [-> | [-> | ->]]]]];
        unfold togglePause, goToMenu, resetGame, withStatus; simpl;
        try destruct (GameStatus_eqb _ _); simpl; done. }
    destruct Hkeep as (Eb & Ec & Es & El).
    split.
    + intros sel Hs. simpl in *. rewrite Es in Hs. rewrite Eb, Ec. by apply Hsel.
    + intros src dst Hp. simpl in *. rewrite Eb, Ec, El. by apply Hpend.
Qed.

(** X24.  Under the invariant, whatever a click or the promotion dialog
    commits is a legal move of a piece of the side to move: a click
    commits without promotion and never a pawn to row 0 or 7, the
    dialog commits the waiting pawn move with the chosen type. *)
Theorem handlers_commit_own_legal_moves (app app' : App) :
  appInvariant app ->
  (forall r c,
     handleSquareClick app r c = Ret app' ->
     history (gameState app') <> history (gameState app) ->
     exists sel pc,
       selectedSquare (gameState app) = Some sel
       /\ cell (board (gameState app)) (row sel) (col sel) = Ret (Some pc)
       /\ color pc = currentPlayer (gameState app)
       /\ ~ (type pc = PAWN /\ (r = 0 \/ r = 7))
       /\ committedLegal app app' sel (mkPos r c) None)
  /\ (forall t,
        handlePromotion app t = Ret app' ->
        history (gameState app') <> history (gameState app) ->
        exists src dst pw,
          promotionPending app = Some (src, dst)
          /\ cell (board (gameState app)) (row src) (col src) = Ret (Some pw)
          /\ color pw = currentPlayer (gameState app)
          /\ type pw = PAWN /\ (row dst = 0 \/ row dst = 7)
          /\ committedLegal app app' src dst (Some t)).
Proof.
  intros [Hsel Hpend]. split.
  - intros r c H Hhist.
    destruct (handleSquareClick_inv _ _ _ _ H)
      as [_ [(sq & Hgs & _)|(sel & legal & mp & _ & Hs & Hl & Hin & Hmp & Hcase)]].
    + rewrite Hgs in Hhist. done.
    + destruct Hcase as [(_ & _ & Hgs & _)|(Hnp & Hex & Hpp)].
      * rewrite Hgs in Hhist. done.
      * destruct (Hsel sel Hs) as (pc & Hpc & Hcol).
        rewrite Hmp in Hpc. injection Hpc as <-.
        exists sel, mp. repeat (split; [done|]). exists mp, legal. done.
  - intros t H Hhist. unfold handlePromotion in H.
    destruct (promotionPending app) as [[src dst]|] eqn:Hp.
    + apply bind_Ret in H as (gs' & Hgs' & H). injection H as <-.
      destruct (Hpend src dst Hp) as (pw & legal & Hpw & Hcol & Ht & Hl & Hin & Hr).
      exists src, dst, pw. repeat (split; [done|]). exists pw, legal. done.
    + injection H as <-. done.
Qed.


(** * The clock and the drawing of the board *)

Lemma distinct_NoDup (l : list string) : distinct l = true -> NoDup l.
Proof.
  induction l as [|s rest IH]; simpl; intros H; [constructor|].
  apply andb_true_iff in H as [Hs Hrest]. constructor; [|by apply IH].
  intros Hin. apply negb_true_iff in Hs.
  assert (existsb (String.eqb s) rest = true); [|congruence].
  apply existsb_exists. exists s. split; [by apply list_elem_of_In|].
  apply String.eqb_refl.
Qed.

Lemma eight_elements {A : Type} (l : list A) :
  length l = 8%nat ->
  exists a0 a1 a2 a3 a4 a5 a6 a7, l = [a0; a1; a2; a3; a4; a5; a6; a7].
Proof.
  intros H. do 8 (destruct l as [|? l]; [discriminate|]).
  destruct l; [|discriminate]. by do 8 eexists.
Qed.

Lemma ticks_frame (n : nat) (gs : GameState) :
  currentPlayer (ticks n gs) = currentPlayer gs
  /\ board (ticks n gs) = board gs
  /\ history (ticks n gs) = history gs
  /\ status (ticks n gs) = status gs
  /\ winner (ticks n gs) = winner gs
  /\ selectedSquare (ticks n gs) = selectedSquare gs
  /\ lastMove (ticks n gs) = lastMove gs.
Proof.
  induction n as [|n IH]; [done|]. unfold ticks in *. simpl. tauto.
Qed.

(** X25.  After [n] seconds the clock of the side to move has lost [n]
    seconds and stopped at zero, the other clock has not moved, and the
    status of the game is what it was: a clock that has run out does
    not end the game. *)
Theorem ticks_run_the_movers_clock_down (n : nat) (gs : GameState) :
  0 <= fst (timers gs) -> 0 <= snd (timers gs) ->
  timers (ticks n gs)
  = match currentPlayer gs with
    | white => (Z.max 0 (fst (timers gs) - Z.of_nat n), snd (timers gs))
    | black => (fst (timers gs), Z.max 0 (snd (timers gs) - Z.of_nat n))
    end
  /\ status (ticks n gs) = status gs
  /\ winner (ticks n gs) = winner gs
  /\ currentPlayer (ticks n gs) = currentPlayer gs.
Proof.
  intros Hw Hb. split; [|pose proof (ticks_frame n gs); tauto].
  induction n as [|n IH].
  - unfold ticks. simpl. destruct (timers gs) as [w b]. simpl in *.
    destruct (currentPlayer gs); f_equal; lia.
  - destruct (ticks_frame n gs) as (Hc & _).
    change (ticks (S n) gs) with (tick (ticks n gs)).
    unfold tick. simpl. rewrite Hc, IH.
    destruct (currentPlayer gs); simpl; f_equal; lia.
Qed.

(** X26.  On an 8 x 8 board the squares are drawn in the order of the
    board, or in the reverse order when the board is flipped; every
    drawn square shows the piece that the board holds at the
    coordinates its click handler passes on, and no two squares share a
    key. *)
Theorem renderSquares_draws_the_board (gs : GameState) :
  WellFormed (board gs) ->
  coordinates <$> renderSquares gs
  = (if isFlipped gs then reverse allSquares else allSquares)
  /\ (forall sq, sq ∈ renderSquares gs ->
        cell (board gs) (actualRow sq) (actualCol sq) = Ret (shown sq)
        /\ key sq = getSquareId (actualRow sq) (actualCol sq))
  /\ NoDup (key <$> renderSquares gs).
Proof.
  intros [Hlen Hrows].
  destruct gs as [b cp hist st wn sel lm cw cb fl tm]. simpl in *.
  destruct (eight_elements b Hlen)
    as (r0 & r1 & r2 & r3 & r4 & r5 & r6 & r7 & ->).
  clear Hlen.
  repeat match goal with
         | H : Forall _ (_ :: _) |- _ => inversion H; subst; clear H
         | H : Forall _ [] |- _ => clear H
         end.
  repeat match goal with
         | H : length ?r = 8%nat |- _ =>
             let a0 := fresh "p" in let a1 := fresh "p" in
             let a2 := fresh "p" in let a3 := fresh "p" in
             let a4 := fresh "p" in let a5 := fresh "p" in
             let a6 := fresh "p" in let a7 := fresh "p" in
             destruct (eight_elements r H)
               as (a0 & a1 & a2 & a3 & a4 & a5 & a6 & a7 & ->);
             clear H
         end.
  remember (renderSquares _) as l eqn:El.
  unfold renderSquares in El. simpl isFlipped in El. simpl board in El.
  destruct fl; vm_compute in El; subst l.
  all: split; [reflexivity|].
  all: split; [|apply distinct_NoDup; vm_compute; reflexivity].
  all: intros sq Hsq; pattern sq; eapply Forall_elem; [|exact Hsq]; clear sq Hsq.
  all: repeat (apply List.Forall_cons; [split; reflexivity|]); apply List.Forall_nil.
Qed.


(** * A new game and the selection of the old one *)

Lemma cell_createInitialBoard_within (r c : Z) (pc : Piece) :
  cell createInitialBoard r c = Ret (Some pc) -> isWithinBoard r c = true.
Proof.
  intros H. destruct (cell_Some_inv _ _ _ _ H) as [Hr Hc].
  change (length createInitialBoard) with 8%nat in Hr.
  apply isWithinBoard_spec. split; [lia|]. split; [done|].
  destruct (Z_lt_le_dec c 8) as [|Hge]; [done|]. exfalso.
  unfold cell in H.
  destruct (index createInitialBoard r) as [rw|] eqn:Hrw; [|discriminate].
  assert (length rw = 8%nat) as Hlen.
  { apply index_Some in Hrw as [_ Hrw].
    assert (Forall (fun rw : Row => length rw = 8%nat) createInitialBoard) as Hall
      by (repeat constructor).
    apply (Forall_elem _ _ rw Hall). by eapply list_elem_of_lookup_2. }
  unfold index in H. destruct (0 <=? c); [|discriminate].
  rewrite lookup_ge_None_2 in H by lia. discriminate.
Qed.

Ltac cases_in H :=
  first [ by apply elem_of_nil in H
        | apply elem_of_cons in H as [-> | H]; [ | cases_in H ] ].

(** X27.  [startGame] sets up the board anew and gives White the move, but
    keeps the selected square.  When the square selected in the old game
    holds a black piece of the new board, the selection belongs to the
    side that is not to move, and a click on any square [getLegalMoves]
    gives for it commits that move of Black's piece as the first move
    of the game, after which it is Black's turn. *)
Theorem startGame_keeps_the_selection (app : App) (sel dst : Position)
    (pc : Piece) (legal : list Position) :
  selectedSquare (gameState app) = Some sel ->
  cell createInitialBoard (row sel) (col sel) = Ret (Some pc) ->
  color pc = black ->
  getLegalMoves createInitialBoard sel None = Ret legal ->
  dst ∈ legal ->
  currentPlayer (startGame (gameState app)) = white
  /\ ~ selectionOwned (startGame (gameState app))
  /\ exists next,
       handleSquareClick
         (mkApp (startGame (gameState app)) (promotionPending app)
                (showExitConfirm app))
         (row dst) (col dst)
       = Ret (mkApp next None (showExitConfirm app))
       /\ executeMove (startGame (gameState app)) sel dst None = Ret next
       /\ cell (board next) (row dst) (col dst) = Ret (Some (setMoved pc))
       /\ length (history next) = 1%nat
       /\ currentPlayer next = black.
Proof.
  intros Hsel Hcell Hcol Hlegal Hin. split; [done|]. split.
  { intros H. destruct (H sel Hsel) as (pc' & Hpc' & Hcol'). simpl in *.
    rewrite Hcell in Hpc'. injection Hpc' as <-. congruence. }
  pose proof (cell_createInitialBoard_within _ _ _ Hcell) as Hw.
  apply isWithinBoard_spec in Hw as [Hr Hc].
  destruct app as [[b cp hist st wn sq lm cw cb fl tm] pp ex].
  destruct sel as [r c]. simpl in *. subst sq.
  unfold startGame. simpl.
  assert (r = 0 \/ r = 1 \/ r = 2 \/ r = 3 \/ r = 4 \/ r = 5 \/ r = 6 \/ r = 7)
    as Hr' by lia.
  assert (c = 0 \/ c = 1 \/ c = 2 \/ c = 3 \/ c = 4 \/ c = 5 \/ c = 6 \/ c = 7)
    as Hc' by lia.
  clear Hr Hc.
  destruct Hr' as [-> | [-> | [-> | [-> | [-> | [-> | [-> | ->]]]]]]];
    destruct Hc' as [-> | [-> | [-> | [-> | [-> | [-> | [-> | ->]]]]]]];
    vm_compute in Hcell; try discriminate; injection Hcell as <-;
    try discriminate;
    vm_compute in Hlegal; injection Hlegal as <-; cases_in Hin;
    (match goal with
     | |- context [executeMove ?s ?a ?d None] =>
         destruct (executeMove s a d None) as [next|e] eqn:E
     end;
     vm_compute in E; [|discriminate]; injection E as <-;
     eexists; split; [vm_compute; reflexivity|];
     split; [reflexivity|]; split; [reflexivity|]; split; reflexivity).
Qed.


(** * The theorems of the later sections on concrete positions *)

Lemma knight_destinations_witness :
  mkPos 6 2 ∈ [mkPos 6 2]
  <-> knightJump (mkPos 7 0) (mkPos 6 2) /\ onBoard (mkPos 6 2)
      /\ vacantOrEnemy knightBoard (man KNIGHT white true) 6 2.
Proof.
  refine (knight_destinations knightBoard (mkPos 7 0) None false
            (man KNIGHT white true) [mkPos 6 2] _ _ _ (mkPos 6 2)).
  - reflexivity.
  - reflexivity.
  - vm_compute. reflexivity.
Defined.

Lemma king_step_destinations_witness :
  mkPos 6 4 ∈ [mkPos 6 3; mkPos 6 4; mkPos 6 5; mkPos 7 3; mkPos 7 5]
  <-> adjacent (mkPos 7 4) (mkPos 6 4) /\ onBoard (mkPos 6 4)
      /\ vacantOrEnemy castlingBoard (man KING white false) 6 4.
Proof.
  refine (king_step_destinations castlingBoard (mkPos 7 4) None
            (man KING white false)
            [mkPos 6 3; mkPos 6 4; mkPos 6 5; mkPos 7 3; mkPos 7 5]
            _ _ _ (mkPos 6 4)).
  - reflexivity.
  - reflexivity.
  - vm_compute. reflexivity.
Defined.

Lemma slider_destinations_witness :
  mkPos 2 3
  ∈ [mkPos 3 2; mkPos 2 1; mkPos 1 0; mkPos 3 4; mkPos 2 5; mkPos 1 6;
     mkPos 0 7; mkPos 5 2; mkPos 6 1; mkPos 5 4; mkPos 6 5; mkPos 7 6;
     mkPos 3 3; mkPos 2 3; mkPos 5 3; mkPos 6 3; mkPos 7 3; mkPos 4 2;
     mkPos 4 1; mkPos 4 0; mkPos 4 4]
  <-> exists d, d ∈ directions QUEEN /\ clearRay queenBoard (mkPos 4 3) d (mkPos 2 3)
                /\ onBoard (mkPos 2 3)
                /\ vacantOrEnemy queenBoard (man QUEEN white true) 2 3.
Proof.
  refine (slider_destinations queenBoard (mkPos 4 3) None false
            (man QUEEN white true) _ _ _ _ (mkPos 2 3)).
  - reflexivity.
  - right. right. reflexivity.
  - vm_compute. reflexivity.
Defined.

Lemma pawn_destinations_witness :
  mkPos 5 4 ∈ [mkPos 5 3; mkPos 5 4; mkPos 5 4]
  <-> (mkPos 5 4 = mkPos (4 + 1) 3 /\ onBoard (mkPos 5 4)
       /\ cell crowdedBoard 5 4 = Ret None)
      \/ (mkPos 5 4 = mkPos (4 + 2 * 1) 3
          /\ hasMoved (man PAWN black true) = false
          /\ isWithinBoard (4 + 1) 3 = true
          /\ cell crowdedBoard (4 + 1) 3 = Ret None
          /\ onBoard (mkPos 5 4) /\ cell crowdedBoard 5 4 = Ret None)
      \/ (mkPos 5 4 = mkPos (4 + 1) (3 - 1) /\ onBoard (mkPos 5 4)
          /\ enemyAt crowdedBoard (man PAWN black true) 5 4)
      \/ (mkPos 5 4 = mkPos (4 + 1) (3 + 1) /\ onBoard (mkPos 5 4)
          /\ enemyAt crowdedBoard (man PAWN black true) 5 4)
      \/ enPassantSquare crowdedBoard (mkPos 4 3) (Some crowdedLastMove)
         = Some (mkPos 5 4).
Proof.
  refine (pawn_destinations crowdedBoard (mkPos 4 3) (Some crowdedLastMove)
            false (man PAWN black true) [mkPos 5 3; mkPos 5 4; mkPos 5 4]
            _ _ _ (mkPos 5 4)).
  - reflexivity.
  - reflexivity.
  - vm_compute. reflexivity.
Defined.

Lemma ignoreCheck_drops_only_castling_witness :
  exists extra,
    getPieceMoves castlingBoard (mkPos 7 4) None false
    = Ret ([mkPos 6 3; mkPos 6 4; mkPos 6 5; mkPos 7 3; mkPos 7 5] ++ extra)
    /\ extra `sublist_of` [mkPos 7 6; mkPos 7 2]
    /\ (extra <> [] ->
        exists k, cell castlingBoard 7 4 = Ret (Some k)
                  /\ type k = KING /\ hasMoved k = false).
Proof.
  apply (ignoreCheck_drops_only_castling castlingBoard (mkPos 7 4) None).
  vm_compute. reflexivity.
Defined.

Lemma destinations_never_friendly_witness :
  mkPos 2 3 <> mkPos 4 3
  /\ (vacantOrEnemy queenBoard (man QUEEN white true) 2 3
      \/ enPassantSquare queenBoard (mkPos 4 3) None = Some (mkPos 2 3)).
Proof.
  apply (destinations_never_friendly queenBoard (mkPos 4 3) None false
           (man QUEEN white true)
           [mkPos 3 2; mkPos 2 1; mkPos 1 0; mkPos 3 4; mkPos 2 5; mkPos 1 6;
            mkPos 0 7; mkPos 5 2; mkPos 6 1; mkPos 5 4; mkPos 6 5; mkPos 7 6;
            mkPos 3 3; mkPos 2 3; mkPos 5 3; mkPos 6 3; mkPos 7 3; mkPos 4 2;
            mkPos 4 1; mkPos 4 0; mkPos 4 4]
           (mkPos 2 3)).
  - reflexivity.
  - vm_compute. reflexivity.
  - do 13 right. left.
Defined.

Lemma findKing_first_king_witness :
  (mkPos 0 4 = mkPos (-1) (-1)
   /\ forall r c kg, isWithinBoard r c = true ->
        cell queenBoard r c = Ret (Some kg) ->
        ~ (type kg = KING /\ color kg = black))
  \/ (onBoard (mkPos 0 4)
      /\ (exists kg, cell queenBoard 0 4 = Ret (Some kg)
                     /\ type kg = KING /\ color kg = black)
      /\ exists pre post,
           allSquares = pre ++ (0, 4) :: post
           /\ forall r c kg, (r, c) ∈ pre ->
                cell queenBoard r c = Ret (Some kg) ->
                ~ (type kg = KING /\ color kg = black)).
Proof.
  apply (findKing_first_king queenBoard black (mkPos 0 4)).
  vm_compute. reflexivity.
Defined.

Lemma isSquareAttacked_iff_witness :
  true = true
  <-> exists r c, isWithinBoard r c = true
                  /\ attacksFrom queenBoard (mkPos 2 3) white (r, c).
Proof.
  refine (isSquareAttacked_iff queenBoard (mkPos 2 3) white true _).
  vm_compute. reflexivity.
Defined.

Lemma isKingInCheck_iff_witness :
  true = true
  <-> exists k r c,
        findKing (board backRankNext) black = Ret k /\ onBoard k
        /\ isWithinBoard r c = true
        /\ attacksFrom (board backRankNext) k (opponent black) (r, c).
Proof.
  refine (isKingInCheck_iff (board backRankNext) black true _).
  vm_compute. reflexivity.
Defined.

Lemma getAllLegalMoves_iff_witness :
  (forall mv, mv ∈ [] <->
     exists r c pc legal dest,
       isWithinBoard r c = true
       /\ cell (board backRankNext) r c = Ret (Some pc) /\ color pc = black
       /\ getLegalMoves (board backRankNext) (mkPos r c) None = Ret legal
       /\ dest ∈ legal /\ mv = candidate r c pc dest)
  /\ (@nil Move = [] <->
      forall r c pc legal,
        isWithinBoard r c = true ->
        cell (board backRankNext) r c = Ret (Some pc) -> color pc = black ->
        getLegalMoves (board backRankNext) (mkPos r c) None = Ret legal ->
        legal = []).
Proof.
  apply (getAllLegalMoves_iff (board backRankNext) black None []).
  vm_compute. reflexivity.
Defined.

Lemma engine_returns_on_eight_rows_witness :
  (exists l, getPieceMoves createInitialBoard (mkPos 6 4) None false = Ret l)
  /\ (exists a, isKingInCheck createInitialBoard white = Ret a)
  /\ (enPassantOnBoard createInitialBoard (mkPos 6 4) None ->
      exists l, getLegalMoves createInitialBoard (mkPos 6 4) None = Ret l)
  /\ ((forall q, onBoard q -> enPassantOnBoard createInitialBoard q None) ->
      exists l, getAllLegalMoves createInitialBoard white None = Ret l)
  /\ (exists l, getLegalMoves createInitialBoard (mkPos 6 4) None = Ret l)
  /\ (exists l, getAllLegalMoves createInitialBoard white None = Ret l).
Proof.
  apply (engine_returns_on_eight_rows createInitialBoard (mkPos 6 4) None
           false white).
  - reflexivity.
  - reflexivity.
Defined.

Lemma getLegalMoves_throws_on_en_passant_off_board_witness :
  (exists raw,
     getPieceMoves lastRankBoard (mkPos 0 3) (Some lastRankMove) false = Ret raw
     /\ mkPos (-1) 4 ∈ raw)
  /\ getLegalMoves lastRankBoard (mkPos 0 3) (Some lastRankMove)
     = Fail TypeError.
Proof.
  apply (getLegalMoves_throws_on_en_passant_off_board lastRankBoard
           (mkPos 0 3) (Some lastRankMove) (mkPos (-1) 4)).
  - reflexivity.
  - reflexivity.
  - vm_compute. reflexivity.
  - simpl. lia.
Defined.

Lemma executeMove_moves_the_piece_witness :
  cell (board backRankNext) 7 0 = Ret None
  /\ (mkPos 7 0 <> mkPos 0 0 ->
      exists pc',
        cell (board backRankNext) 0 0 = Ret (Some pc')
        /\ id pc' = id (man ROOK white true)
        /\ color pc' = color (man ROOK white true) /\ hasMoved pc' = true
        /\ type pc' = default (type (man ROOK white true)) None).
Proof.
  apply (executeMove_moves_the_piece backRankState backRankNext
           (mkPos 7 0) (mkPos 0 0) None (man ROOK white true)).
  - reflexivity.
  - vm_compute. reflexivity.
  - simpl. lia.
Defined.

Lemma executeMove_frame_witness :
  exists onDst,
    cell (board backRankState) 0 0 = Ret onDst
    /\ forall r c,
         (r, c) ∉ touchedSquares (arriving (man ROOK white true) None)
                   (mkPos 7 0) (mkPos 0 0) onDst ->
         cell (board backRankNext) r c = cell (board backRankState) r c.
Proof.
  apply (executeMove_frame backRankState backRankNext
           (mkPos 7 0) (mkPos 0 0) None (man ROOK white true)).
  - reflexivity.
  - vm_compute. reflexivity.
  - simpl. lia.
Defined.



Lemma executeMove_bookkeeping_witness :
  exists mv,
    history backRankNext = history backRankState ++ [mv]
    /\ lastMove backRankNext = Some mv
    /\ from mv = mkPos 7 0 /\ to mv = mkPos 0 0
    /\ promotedTo mv = None
    /\ selectedSquare backRankNext = None
    /\ timers backRankNext = timers backRankState
    /\ isFlipped backRankNext = isFlipped backRankState
    /\ capturedWhite backRankNext
       = capturedWhite backRankState ++ capturedOf white (captured mv)
    /\ capturedBlack backRankNext
       = capturedBlack backRankState ++ capturedOf black (captured mv)
    /\ (status backRankNext = PLAYING /\ winner backRankNext = None
        \/ status backRankNext = CHECKMATE
           /\ winner backRankNext = Some (side (currentPlayer backRankState))
        \/ status backRankNext = STALEMATE /\ winner backRankNext = Some draw).
Proof.
  apply (executeMove_bookkeeping backRankState backRankNext
           (mkPos 7 0) (mkPos 0 0) None).
  vm_compute. reflexivity.
Defined.


Lemma isKingInCheck_depends_on_witness :
  isKingInCheck knightBoard white = isKingInCheck rookForKnightBoard white
  /\ findKing knightBoard white = findKing rookForKnightBoard white
  /\ forall pos,
       isSquareAttacked knightBoard pos (opponent white)
       = isSquareAttacked rookForKnightBoard pos (opponent white).
Proof.
  apply (isKingInCheck_depends_on white knightBoard rookForKnightBoard).
  intros r c Hw. apply isWithinBoard_spec in Hw as [Hr Hc].
  assert (r = 0 \/ r = 1 \/ r = 2 \/ r = 3 \/ r = 4 \/ r = 5 \/ r = 6 \/ r = 7)
    as Hr' by lia.
  assert (c = 0 \/ c = 1 \/ c = 2 \/ c = 3 \/ c = 4 \/ c = 5 \/ c = 6 \/ c = 7)
    as Hc' by lia.
  destruct Hr' as [-> | [-> | [-> | [-> | [-> | [-> | [-> | ->]]]]]]];
    destruct Hc' as [-> | [-> | [-> | [-> | [-> | [-> | [-> | ->]]]]]]];
    first [ left; reflexivity
          | right; exists (man KNIGHT white true), (man ROOK white true);
            repeat split; discriminate ].
Defined.

Lemma executeMove_legal_leaves_mover_safe_witness :
  isKingInCheck (board backRankNext) white = Ret false.
Proof.
  apply (executeMove_legal_leaves_mover_safe backRankState backRankNext
           (mkPos 7 0) (mkPos 0 0) None (man ROOK white true)
           [mkPos 6 0; mkPos 5 0; mkPos 4 0; mkPos 3 0; mkPos 2 0; mkPos 1 0;
            mkPos 0 0; mkPos 7 1; mkPos 7 2; mkPos 7 3]).
  - reflexivity.
  - vm_compute. reflexivity.
  - do 6 right. left.
  - simpl. lia.
  - discriminate.
  - exact I.
  - vm_compute. reflexivity.
Defined.

Lemma handleSquareClick_commits_only_legal_moves_witness :
  (status (gameState openingApp) <> PLAYING -> openingPlayed = openingApp)
  /\ (gameState openingPlayed
      = withSelectedSquare (gameState openingApp)
          (selectedSquare (gameState openingPlayed))
      /\ promotionPending openingPlayed = promotionPending openingApp
      \/ (exists sel legal,
            selectedSquare (gameState openingApp) = Some sel
            /\ getLegalMoves (board (gameState openingApp)) sel
                 (lastMove (gameState openingApp)) = Ret legal
            /\ mkPos 4 4 ∈ legal
            /\ (gameState openingPlayed = gameState openingApp
                /\ promotionPending openingPlayed = Some (sel, mkPos 4 4)
                \/ executeMove (gameState openingApp) sel (mkPos 4 4) None
                   = Ret (gameState openingPlayed)))).
Proof.
  apply (handleSquareClick_commits_only_legal_moves openingApp openingPlayed
           4 4).
  vm_compute. reflexivity.
Defined.

Lemma handlers_keep_the_invariant_witness :
  appInvariant initialApp
  /\ (forall r c app', handleSquareClick openingApp r c = Ret app' ->
                       appInvariant app')
  /\ (forall t app', handlePromotion openingApp t = Ret app' ->
                     appInvariant app')
  /\ (forall f, f = togglePause \/ f = flipBoard \/ f = tick
                \/ f = goToMenu true \/ f = goToMenu false
                \/ f = resetGame false ->
        appInvariant (mkApp (f (gameState openingApp))
                            (promotionPending openingApp)
                            (showExitConfirm openingApp))).
Proof.
  destruct (handlers_keep_the_invariant openingApp) as [Hinit Hkeep].
  split; [exact Hinit|]. apply Hkeep. split.
  - intros sel Hsel. injection Hsel as <-.
    exists (mkPiece "pawn-white-6-4" PAWN white false). split; reflexivity.
  - intros src dst Hp. discriminate Hp.
Defined.

Lemma handlers_commit_own_legal_moves_witness :
  (forall r c,
     handleSquareClick openingApp r c = Ret openingPlayed ->
     history (gameState openingPlayed) <> history (gameState openingApp) ->
     exists sel pc,
       selectedSquare (gameState openingApp) = Some sel
       /\ cell (board (gameState openingApp)) (row sel) (col sel)
          = Ret (Some pc)
       /\ color pc = currentPlayer (gameState openingApp)
       /\ ~ (type pc = PAWN /\ (r = 0 \/ r = 7))
       /\ committedLegal openingApp openingPlayed sel (mkPos r c) None)
  /\ (forall t,
        handlePromotion openingApp t = Ret openingPlayed ->
        history (gameState openingPlayed) <> history (gameState openingApp) ->
        exists src dst pw,
          promotionPending openingApp = Some (src, dst)
          /\ cell (board (gameState openingApp)) (row src) (col src)
             = Ret (Some pw)
          /\ color pw = currentPlayer (gameState openingApp)
          /\ type pw = PAWN /\ (row dst = 0 \/ row dst = 7)
          /\ committedLegal openingApp openingPlayed src dst (Some t)).
Proof.
  apply (handlers_commit_own_legal_moves openingApp openingPlayed). split.
  - intros sel Hsel. injection Hsel as <-.
    exists (mkPiece "pawn-white-6-4" PAWN white false). split; reflexivity.
  - intros src dst Hp. discriminate Hp.
Defined.

Lemma ticks_run_the_movers_clock_down_witness :
  timers (ticks 3 newGame) = (Z.max 0 (600 - 3), 600)
  /\ status (ticks 3 newGame) = status newGame
  /\ winner (ticks 3 newGame) = winner newGame
  /\ currentPlayer (ticks 3 newGame) = currentPlayer newGame.
Proof.
  apply (ticks_run_the_movers_clock_down 3 newGame).
  - simpl. lia.
  - simpl. lia.
Defined.

Lemma renderSquares_draws_the_board_witness :
  coordinates <$> renderSquares (flipBoard newGame)
  = reverse allSquares
  /\ (forall sq, sq ∈ renderSquares (flipBoard newGame) ->
        cell createInitialBoard (actualRow sq) (actualCol sq) = Ret (shown sq)
        /\ key sq = getSquareId (actualRow sq) (actualCol sq))
  /\ NoDup (key <$> renderSquares (flipBoard newGame)).
Proof.
  apply (renderSquares_draws_the_board (flipBoard newGame)).
  split; [reflexivity | repeat constructor].
Defined.

Lemma startGame_keeps_the_selection_witness :
  currentPlayer (startGame (gameState staleApp)) = white
  /\ ~ selectionOwned (startGame (gameState staleApp))
  /\ exists next,
       handleSquareClick
         (mkApp (startGame (gameState staleApp)) (promotionPending staleApp)
                (showExitConfirm staleApp)) 3 4
       = Ret (mkApp next None (showExitConfirm staleApp))
       /\ executeMove (startGame (gameState staleApp)) (mkPos 1 4) (mkPos 3 4)
            None = Ret next
       /\ cell (board next) 3 4
          = Ret (Some (setMoved (mkPiece "pawn-black-1-4" PAWN black false)))
       /\ length (history next) = 1%nat
       /\ currentPlayer next = black.
Proof.
  apply (startGame_keeps_the_selection staleApp (mkPos 1 4) (mkPos 3 4)
           (mkPiece "pawn-black-1-4" PAWN black false)
           [mkPos 2 4; mkPos 3 4]).
  - reflexivity.
  - reflexivity.
  - reflexivity.
  - vm_compute. reflexivity.
  - right. left.
Defined.
